(** * Occupancy/duration analysis engine of the AI parking system

    A shallow embedding of the analysis core of [ai-services]:
    [utils.py] (geometric overlap, non-max suppression, video validation),
    [parking_detector.py] (synthetic detections, region association) and
    [video_processor.py] (slot classifier, temporal aggregation, duration
    estimator, orchestration).

    Numbers: Python [int] and [float] values are embedded as exact rationals
    [Q]; Python's [==], [<], [>] on numbers are [Qeq], [Qlt]; this is the
    reading in which the structure of the pipeline is analysed.  The
    rounding of IEEE doubles matters for the values of the overlap utility:
    module [Float64] holds the same code in binary64 arithmetic.  Exceptions
    are values of [exn] carried by [result].  Stateful methods live in the
    monad [M] over [World]. *)

From Stdlib Require Import List ZArith QArith Qminmax Qround Lia Lqa String Bool Arith.
From Stdlib Require Import Sorting.Sorted Sorting.Permutation.
From Stdlib Require Import Floats.PrimFloat.
Import ListNotations.
Open Scope Q_scope.

(** ** Python exceptions and numeric primitives *)

Inductive exn : Type :=
| ValueError (msg : string)
| ZeroDivisionError
| IndexError
| KeyError.

Inductive result (A : Type) : Type :=
| Ok (a : A)
| Raise (e : exn).
Arguments Ok {A} a.
Arguments Raise {A} e.

Definition rbind {A B} (r : result A) (k : A -> result B) : result B :=
  match r with
  | Ok a => k a
  | Raise e => Raise e
  end.

Declare Scope result_scope.
Delimit Scope result_scope with result.
Notation "x <-? c ;; k" := (rbind c (fun x => k))
  (at level 61, c at next level, right associativity) : result_scope.

(** [a < b] as a boolean test. *)
Definition Qltb (a b : Q) : bool := negb (Qle_bool b a).

(** Python true division [a / b]: raises on a zero divisor. *)
Definition pydiv (a b : Q) : result Q :=
  if Qeq_bool b 0 then Raise ZeroDivisionError else Ok (a / b).

(** [int(x)] on a number: truncation toward zero. *)
Definition py_int (x : Q) : Z := Z.quot (Qnum x) (Zpos (Qden x)).

(** [len(l)] as a number. *)
Definition len {A} (l : list A) : Q := inject_Z (Z.of_nat (List.length l)).

(** [sum(l)]: starts from 0 and adds from the left. *)
Definition pysum (l : list Q) : Q := fold_left Qplus l 0.

(** Rectangles and bounding boxes are tuples [(x, y, width, height)]. *)
Definition Box : Type := (Q * Q * Q * Q)%type.

(** ** utils.py *)

Module Detection.
(** A detection dictionary: [bbox], [confidence], [class_id], [class]
    (the last one is read with [.get], so it may be missing). *)
Record t : Type := mk {
  bbox : Box;
  confidence : Q;
  class_id : Z;
  class : option string
}.
End Detection.

(** [utils.calculate_iou], read in exact arithmetic: the comparisons and
    the branches are those of the code, the values are those the code would
    compute without rounding.  [Float64.calculate_iou] is the same text in
    binary64 arithmetic. *)
Definition calculate_iou (box1 box2 : Box) : result Q :=
  let '(x1, y1, w1, h1) := box1 in
  let '(x2, y2, w2, h2) := box2 in
  let left := Qmax x1 x2 in
  let top := Qmax y1 y2 in
  let right := Qmin (x1 + w1) (x2 + w2) in
  let bottom := Qmin (y1 + h1) (y2 + h2) in
  if Qltb left right && Qltb top bottom then
    let intersection := (right - left) * (bottom - top) in
    let area1 := w1 * h1 in
    let area2 := w2 * h2 in
    let union := area1 + area2 - intersection in
    if Qltb 0 union then pydiv intersection union else Ok 0
  else Ok 0.

(** [sorted(detections, key=lambda x: x['confidence'], reverse=True)]:
    a stable sort, descending in the key; elements with equal keys keep
    their relative order. *)
Fixpoint insert_by_confidence (d : Detection.t) (l : list Detection.t)
  : list Detection.t :=
  match l with
  | [] => [d]
  | e :: l' =>
      if Qle_bool (Detection.confidence e) (Detection.confidence d)
      then d :: l
      else e :: insert_by_confidence d l'
  end.

Definition sorted_by_confidence (l : list Detection.t) : list Detection.t :=
  fold_right insert_by_confidence [] l.

(** The inner [for] loop of [non_max_suppression]: the detections whose IoU
    with [current] does not exceed the threshold are appended to
    [remaining]. *)
Fixpoint nms_remaining (current : Detection.t) (detections : list Detection.t)
    (iou_threshold : Q) : result (list Detection.t) :=
  match detections with
  | [] => Ok []
  | detection :: rest =>
      (iou <-? calculate_iou (Detection.bbox current) (Detection.bbox detection) ;;
       remaining <-? nms_remaining current rest iou_threshold ;;
       Ok (if Qle_bool iou iou_threshold then detection :: remaining else remaining))%result
  end.

(** The [while detections:] loop.  Every iteration pops one detection, so
    [fuel] equal to the number of candidates is enough. *)
Fixpoint nms_loop (fuel : nat) (detections : list Detection.t) (iou_threshold : Q)
  : result (list Detection.t) :=
  match detections with
  | [] => Ok []
  | current :: rest =>
      match fuel with
      | O => Ok []
      | S fuel' =>
          (remaining <-? nms_remaining current rest iou_threshold ;;
           keep <-? nms_loop fuel' remaining iou_threshold ;;
           Ok (current :: keep))%result
      end
  end.

Definition non_max_suppression (detections : list Detection.t) (iou_threshold : Q)
  : result (list Detection.t) :=
  match detections with
  | [] => Ok []
  | _ =>
      let detections := sorted_by_confidence detections in
      nms_loop (List.length detections) detections iou_threshold
  end.

(** ** External capabilities

    OpenCV, numpy and the YOLO model are used as given: images are an
    abstract type with the measurements the code takes on them. *)

Module YoloBox.
(** One box of a YOLO result: [xyxy[0]], [conf[0]], [cls[0]]. *)
Record t : Type := mk {
  xyxy : Q * Q * Q * Q;
  conf : Q;
  cls : Q
}.
End YoloBox.

Class External : Type := {
  (** numpy image arrays *)
  Image : Type;
  (** [frame.shape[:2]], that is [(height, width)] *)
  shape : Image -> Z * Z;
  (** [image[y0:y1, x0:x1]] *)
  crop : Image -> Z -> Z -> Z -> Z -> Image;
  (** [image.size] *)
  size : Image -> nat;
  (** [np.sum(cv2.Canny(gray, 50, 150) > 0) / edges.size] on the grayscale image *)
  edge_density : Image -> Q;
  (** [np.var(gray)] *)
  variance : Image -> Q;
  (** [np.mean(gray)] *)
  mean_intensity : Image -> Q;
  (** [self.model(frame, conf=..., verbose=False)]: the [boxes] of every
      result, or [None] when inference raises *)
  yolo : Image -> option (list (option (list YoloBox.t)))
}.

(** A video file as OpenCV sees it. *)
Record VideoFile `{External} : Type := mkVideoFile {
  suffix : string;          (* Path(video_path).suffix.lower() *)
  opens : bool;             (* cap.isOpened() *)
  prop_fps : Q;             (* cap.get(cv2.CAP_PROP_FPS) *)
  prop_frame_count : Q;     (* cap.get(cv2.CAP_PROP_FRAME_COUNT) *)
  frames : list Image       (* the frames cap.read() delivers, in order *)
}.

(** Observable calls on the outside world, most recent last. *)
Inductive Event `{External} : Type :=
| EvExists (path : string)      (* os.path.exists *)
| EvOpen (path : string)        (* cv2.VideoCapture(path) *)
| EvRead                        (* cap.read() *)
| EvSeek (pos : nat)            (* cap.set(cv2.CAP_PROP_POS_FRAMES, pos) *)
| EvRelease                     (* cap.release() *)
| EvDetect (frame : Image).     (* detector.detect_vehicles(frame) *)

Record World `{External} : Type := mkWorld {
  fs : string -> option VideoFile;   (* the files on disk *)
  model_loaded : bool;               (* self.model is not None *)
  rng : nat -> Q;                    (* numpy's random stream *)
  rng_pos : nat;                     (* draws consumed so far *)
  total_frames : Z;                  (* processing_stats['total_frames'] *)
  processed_frames : nat;            (* processing_stats['processed_frames'] *)
  trace : list Event
}.

Section Monad.
Context {E : External}.

(** State over [World] with exceptions; the state survives a raise. *)
Definition M (A : Type) : Type := World -> result A * World.

Definition ret {A} (a : A) : M A := fun w => (Ok a, w).

Definition bind {A B} (m : M A) (k : A -> M B) : M B :=
  fun w =>
    match m w with
    | (Ok a, w') => k a w'
    | (Raise e, w') => (Raise e, w')
    end.

Definition raise {A} (e : exn) : M A := fun w => (Raise e, w).

Definition lift {A} (r : result A) : M A := fun w => (r, w).

Definition get : M World := fun w => (Ok w, w).

Definition log (e : Event) : M unit :=
  fun w => (Ok tt,
            mkWorld _ (fs w) (model_loaded w) (rng w) (rng_pos w)
                    (total_frames w) (processed_frames w) (trace w ++ [e])).

Definition next_draw : M Q :=
  fun w => (Ok (rng w (rng_pos w)),
            mkWorld _ (fs w) (model_loaded w) (rng w) (S (rng_pos w))
                    (total_frames w) (processed_frames w) (trace w)).

Definition incr_processed_frames : M unit :=
  fun w => (Ok tt,
            mkWorld _ (fs w) (model_loaded w) (rng w) (rng_pos w)
                    (total_frames w) (S (processed_frames w)) (trace w)).

Definition set_total_frames (n : Z) : M unit :=
  fun w => (Ok tt,
            mkWorld _ (fs w) (model_loaded w) (rng w) (rng_pos w)
                    n (processed_frames w) (trace w)).
End Monad.

Declare Scope monad_scope.
Delimit Scope monad_scope with monad.
Notation "x <- c ;; k" := (bind c (fun x => k))
  (at level 61, c at next level, right associativity) : monad_scope.
Notation "c ;; k" := (bind c (fun _ => k))
  (at level 61, right associativity) : monad_scope.

(** ** Slot configuration *)

Module Coordinates.
Record t : Type := mk { x : Q; y : Q; width : Q; height : Q }.
End Coordinates.

Module Slot.
(** One entry of [slot_config]. *)
Record t : Type := mk {
  id : Z;
  slot_number : string;
  coordinates : Coordinates.t
}.
End Slot.

(** ** parking_detector.py *)

Module RegionVehicle.
(** [{**detection, 'overlap': ..., 'region_id': ..., 'slot_number': ...}] *)
Record t : Type := mk {
  detection : Detection.t;
  overlap : Q;
  region_id : Z;
  slot_number : string
}.
End RegionVehicle.

Module RegionDetection.
Record t : Type := mk {
  region_id : Z;
  slot_number : string;
  is_occupied : bool;
  detection : option RegionVehicle.t
}.
End RegionDetection.

Module ParkingDetector.
Section WithExternal.
Context {E : External}.
Local Open Scope monad_scope.

(** [self.vehicle_classes] *)
Definition vehicle_classes : list (Z * string) :=
  [(2%Z, "car"%string); (3%Z, "motorcycle"%string);
   (5%Z, "bus"%string); (7%Z, "truck"%string)].

Definition vehicle_class (class_id : Z) : option string :=
  option_map snd (find (fun kv => Z.eqb (fst kv) class_id) vehicle_classes).

(** [np.random.randint(low, high)]: an integer in [[low, high)]; numpy
    raises [ValueError] when [low >= high]. *)
Definition randint (low high : Z) : M Z :=
  if (low <? high)%Z then
    r <- next_draw ;;
    ret (low + (Qfloor r) mod (high - low))%Z
  else raise (ValueError "low >= high").

(** [np.random.uniform(low, high)] *)
Definition uniform (low high : Q) : M Q :=
  r <- next_draw ;;
  ret (low + (high - low) * Qmax 0 (Qmin r 1)).

(** The body of [for i in range(num_detections)]. *)
Fixpoint mock_detections (num_detections : nat) (width height : Z)
  : M (list Detection.t) :=
  match num_detections with
  | O => ret []
  | S n =>
      x <- randint 0 (width - 100) ;;
      y <- randint 0 (height - 60) ;;
      w <- randint 80 150 ;;
      h <- randint 40 80 ;;
      let x := Z.min x (width - w) in
      let y := Z.min y (height - h) in
      confidence <- uniform 0.6 0.95 ;;
      rest <- mock_detections n width height ;;
      ret (Detection.mk (inject_Z x, inject_Z y, inject_Z w, inject_Z h)
                        confidence 2%Z (Some "car"%string) :: rest)
  end.

Definition _mock_detect_vehicles (frame : Image) : M (list Detection.t) :=
  let '(height, width) := shape frame in
  num_detections <- randint 0 5 ;;
  mock_detections (Z.to_nat num_detections) width height.

(** The vehicle boxes of one YOLO result. *)
Fixpoint vehicle_boxes (boxes : list YoloBox.t) : list Detection.t :=
  match boxes with
  | [] => []
  | box :: rest =>
      let '(x1, y1, x2, y2) := YoloBox.xyxy box in
      let confidence := YoloBox.conf box in
      let class_id := py_int (YoloBox.cls box) in
      match vehicle_class class_id with
      | Some name =>
          Detection.mk (inject_Z (py_int x1), inject_Z (py_int y1),
                        inject_Z (py_int (x2 - x1)), inject_Z (py_int (y2 - y1)))
                       confidence class_id (Some name)
            :: vehicle_boxes rest
      | None => vehicle_boxes rest
      end
  end.

Fixpoint yolo_detections (results : list (option (list YoloBox.t)))
  : list Detection.t :=
  match results with
  | [] => []
  | Some boxes :: rest => vehicle_boxes boxes ++ yolo_detections rest
  | None :: rest => yolo_detections rest
  end.

Definition detect_vehicles (frame : Image) : M (list Detection.t) :=
  log (EvDetect frame) ;;
  w <- get ;;
  if negb (model_loaded w) then _mock_detect_vehicles frame
  else
    match yolo frame with
    | Some results => ret (yolo_detections results)
    | None => _mock_detect_vehicles frame
    end.

Definition _calculate_overlap (box1 box2 : Box) : result Q :=
  let '(x1, y1, w1, h1) := box1 in
  let '(x2, y2, w2, h2) := box2 in
  let left := Qmax x1 x2 in
  let top := Qmax y1 y2 in
  let right := Qmin (x1 + w1) (x2 + w2) in
  let bottom := Qmin (y1 + h1) (y2 + h2) in
  if Qltb left right && Qltb top bottom then
    let intersection := (right - left) * (bottom - top) in
    let area1 := w1 * h1 in
    let area2 := w2 * h2 in
    let union := area1 + area2 - intersection in
    if Qltb 0 union then pydiv intersection union else Ok 0
  else Ok 0.

(** The detections that overlap [region] by more than 0.3. *)
Fixpoint region_vehicles (region : Slot.t) (all_detections : list Detection.t)
  : result (list RegionVehicle.t) :=
  match all_detections with
  | [] => Ok []
  | detection :: rest =>
      let region_coords := Slot.coordinates region in
      let region_x := Coordinates.x region_coords in
      let region_y := Coordinates.y region_coords in
      let region_w := Coordinates.width region_coords in
      let region_h := Coordinates.height region_coords in
      let '(det_x, det_y, det_w, det_h) := Detection.bbox detection in
      (overlap <-? _calculate_overlap (region_x, region_y, region_w, region_h)
                                      (det_x, det_y, det_w, det_h) ;;
       others <-? region_vehicles region rest ;;
       Ok (if Qltb 0.3 overlap
           then RegionVehicle.mk detection overlap (Slot.id region)
                                 (Slot.slot_number region) :: others
           else others))%result
  end.

(** [max(region_vehicles, key=lambda x: x['overlap'])]: the first element
    of greatest key. *)
Definition max_by_overlap (first : RegionVehicle.t) (others : list RegionVehicle.t)
  : RegionVehicle.t :=
  fold_left (fun best v =>
               if Qltb (RegionVehicle.overlap best) (RegionVehicle.overlap v)
               then v else best)
            others first.

Definition region_detection (region : Slot.t) (all_detections : list Detection.t)
  : result RegionDetection.t :=
  (vehicles <-? region_vehicles region all_detections ;;
   match vehicles with
   | first :: others =>
       let best_detection := max_by_overlap first others in
       Ok (RegionDetection.mk (Slot.id region) (Slot.slot_number region)
                              true (Some best_detection))
   | [] =>
       Ok (RegionDetection.mk (Slot.id region) (Slot.slot_number region)
                              false None)
   end)%result.

Fixpoint region_detections (regions : list Slot.t) (all_detections : list Detection.t)
  : result (list RegionDetection.t) :=
  match regions with
  | [] => Ok []
  | region :: rest =>
      (r <-? region_detection region all_detections ;;
       rs <-? region_detections rest all_detections ;;
       Ok (r :: rs))%result
  end.

Definition detect_in_regions (frame : Image) (regions : list Slot.t)
  : M (list RegionDetection.t) :=
  all_detections <- detect_vehicles frame ;;
  lift (region_detections regions all_detections).

End WithExternal.
End ParkingDetector.

(** ** video_processor.py *)

Module SlotDetection.
(** An element of a [slot_detections] list.  The three analysis passes
    build dictionaries with different key sets; a key a pass does not set
    is [None] here. *)
Record t : Type := mk {
  slot_id : Z;
  slot_number : string;
  is_occupied : bool;
  confidence : Q;
  vehicle_type : option (option string);
  detection_box : option (option Box);
  predicted_duration : option Z;
  occupancy_changes : option nat;
  stability_score : option Q
}.

Definition or_else {A} (new old : option A) : option A :=
  match new with
  | Some v => Some v
  | None => old
  end.

(** [d.update(s)]: every key of [s] overwrites the one of [d]. *)
Definition update (d s : t) : t :=
  mk (slot_id s) (slot_number s) (is_occupied s) (confidence s)
     (or_else (vehicle_type s) (vehicle_type d))
     (or_else (detection_box s) (detection_box d))
     (or_else (predicted_duration s) (predicted_duration d))
     (or_else (occupancy_changes s) (occupancy_changes d))
     (or_else (stability_score s) (stability_score d)).
End SlotDetection.

Module TimelineEntry.
Record t : Type := mk {
  frame : nat;
  is_occupied : bool;
  confidence : Q
}.
End TimelineEntry.

Module DurationAnalysis.
(** The dictionary returned by [_analyze_slot_duration]. *)
Record t : Type := mk {
  final_status : bool;
  confidence : Q;
  predicted_duration : Z;
  changes : nat;
  stability : Q
}.
End DurationAnalysis.

Module ConfidenceScores.
Record t : Type := mk {
  overall : Q;
  vehicle_detection : Q;
  slot_classification : Q
}.
End ConfidenceScores.

Module Results.
(** The dictionary every analysis pass returns. *)
Record t : Type := mk {
  slot_detections : list SlotDetection.t;
  vehicle_count : nat;
  occupancy_rate : Q;
  confidence_scores : ConfidenceScores.t
}.
End Results.

Module FinalResults.
(** The report of [process_video], without the wall-clock fields
    ([processing_time], [timestamp]) and the file name. *)
Record t : Type := mk {
  total_frames : Z;
  processed_frames : nat;
  fps : Z;
  duration : Q;
  analysis_type : string;
  slot_detections : list SlotDetection.t;
  vehicle_count : nat;
  occupancy_rate : Q;
  confidence_scores : ConfidenceScores.t
}.
End FinalResults.

(** The capture handle [cap]: the frames of the opened video and the index
    of the next frame to read. *)
Module Cap.
Record t `{External} : Type := mk {
  video : list Image;
  pos : nat
}.
End Cap.

(** [utils.validate_video_file] *)
Section ValidateVideoFile.
Context {E : External}.
Local Open Scope monad_scope.

Definition valid_extensions : list string :=
  [".mp4"; ".avi"; ".mov"; ".wmv"; ".flv"; ".mkv"]%string.

Definition validate_video_file (video_path : string) : M bool :=
  log (EvExists video_path) ;;
  w <- get ;;
  match fs w video_path with
  | None => ret false
  | Some file =>
      let file_ext := suffix file in
      if negb (existsb (String.eqb file_ext) valid_extensions) then ret false
      else
        log (EvOpen video_path) ;;
        if negb (opens file) then ret false
        else
          log EvRead ;;
          log EvRelease ;;
          ret (match frames file with
               | [] => false
               | _ :: _ => true
               end)
  end.
End ValidateVideoFile.

Module VideoProcessor.
Section WithExternal.
Context {E : External}.
Local Open Scope monad_scope.

(** [VideoProcessor._calculate_overlap], read in exact arithmetic like
    [calculate_iou]; [Float64._calculate_overlap] is its binary64 reading. *)
Definition _calculate_overlap (box1 box2 : Box) : result Q :=
  let '(x1, y1, w1, h1) := box1 in
  let '(x2, y2, w2, h2) := box2 in
  let left := Qmax x1 x2 in
  let top := Qmax y1 y2 in
  let right := Qmin (x1 + w1) (x2 + w2) in
  let bottom := Qmin (y1 + h1) (y2 + h2) in
  if Qltb left right && Qltb top bottom then
    let intersection := (right - left) * (bottom - top) in
    let area1 := w1 * h1 in
    let area2 := w2 * h2 in
    let union := area1 + area2 - intersection in
    if Qltb 0 union then pydiv intersection union else Ok 0
  else Ok 0.

Definition _analyze_slot_image (slot_image : Image) : Q :=
  if (size slot_image =? 0)%nat then 0
  else
    let occupancy_score :=
      edge_density slot_image * 0.4 +
      Qmin (variance slot_image / 1000) 1 * 0.3 +
      (1 - mean_intensity slot_image / 255) * 0.3 in
    Qmin occupancy_score 1.

(** The loop variables of [_analyze_slot_occupancy]:
    [(is_occupied, best_confidence, vehicle_type, detection_box)]. *)
Definition ScanState : Type := (bool * Q * option string * option Box)%type.

(** [for detection in detections] of [_analyze_slot_occupancy]. *)
Fixpoint scan_detections (slot_box : Box) (detections : list Detection.t)
    (state : ScanState) : result ScanState :=
  match detections with
  | [] => Ok state
  | detection :: rest =>
      let '(is_occupied, best_confidence, vehicle_type, detection_box) := state in
      let '(det_x, det_y, det_w, det_h) := Detection.bbox detection in
      let det_confidence := Detection.confidence detection in
      (overlap <-? _calculate_overlap slot_box (det_x, det_y, det_w, det_h) ;;
       if Qltb 0.5 overlap && Qltb best_confidence det_confidence then
         scan_detections slot_box rest
           (true, det_confidence,
            Some (match Detection.class detection with
                  | Some c => c
                  | None => "vehicle"%string
                  end),
            Some (Detection.bbox detection))
       else scan_detections slot_box rest state)%result
  end.

Definition _analyze_slot_occupancy (frame : Image) (slot : Slot.t)
    (detections : list Detection.t) : result SlotDetection.t :=
  let slot_coords := Slot.coordinates slot in
  let x := Coordinates.x slot_coords in
  let y := Coordinates.y slot_coords in
  let w := Coordinates.width slot_coords in
  let h := Coordinates.height slot_coords in
  let slot_region :=
    crop frame (py_int y) (py_int (y + h)) (py_int x) (py_int (x + w)) in
  (state <-? scan_detections (x, y, w, h) detections (false, 0, None, None) ;;
   let '(is_occupied, best_confidence, vehicle_type, detection_box) := state in
   let '(is_occupied, best_confidence) :=
     if negb is_occupied then
       let occupancy_score := _analyze_slot_image slot_region in
       (Qltb 0.6 occupancy_score, occupancy_score)
     else (is_occupied, best_confidence) in
   Ok (SlotDetection.mk (Slot.id slot) (Slot.slot_number slot)
                        is_occupied best_confidence
                        (Some vehicle_type) (Some detection_box)
                        None None None))%result.

(** The change-counting loop of [_analyze_slot_duration]. *)
Fixpoint count_changes (prev_status : bool) (entries : list TimelineEntry.t)
    (changes : nat) : nat :=
  match entries with
  | [] => changes
  | entry :: rest =>
      if negb (Bool.eqb (TimelineEntry.is_occupied entry) prev_status)
      then count_changes (TimelineEntry.is_occupied entry) rest (S changes)
      else count_changes prev_status rest changes
  end.

Definition of_nat (n : nat) : Q := inject_Z (Z.of_nat n).

Definition _analyze_slot_duration (timeline : list TimelineEntry.t)
  : result DurationAnalysis.t :=
  match timeline with
  | [] => Ok (DurationAnalysis.mk false 0.5 1800 0 0)
  | first :: tail =>
      let changes := count_changes (TimelineEntry.is_occupied first) tail 0 in
      (ratio <-? pydiv (of_nat changes) (len timeline) ;;
       let stability := Qmax 0 (1 - ratio) in
       let occupied_count :=
         List.length (filter TimelineEntry.is_occupied timeline) in
       let final_status := Qltb (len timeline / 2) (of_nat occupied_count) in
       let predicted_duration :=
         if final_status then
           let base_duration := 1800%Z in
           if Qltb 0.8 stability then (base_duration * 2)%Z else base_duration
         else 0%Z in
       avg_confidence <-?
         pydiv (pysum (map TimelineEntry.confidence timeline)) (len timeline) ;;
       Ok (DurationAnalysis.mk final_status (avg_confidence * stability)
                               predicted_duration changes stability))%result
  end.

(** [sum(1 for slot in slot_detections if slot['is_occupied'])] *)
Definition count_occupied (slot_detections : list SlotDetection.t) : nat :=
  List.length (filter SlotDetection.is_occupied slot_detections).

(** [(occupied_slots / len(slot_config)) * 100 if slot_config else 0] *)
Definition occupancy_rate_of (occupied_slots : nat) (slot_config : list Slot.t)
  : result Q :=
  match slot_config with
  | [] => Ok 0
  | _ :: _ =>
      (r <-? pydiv (of_nat occupied_slots) (len slot_config) ;; Ok (r * 100))%result
  end.

(** [existing_slot.update(slot_result)] on the first entry of the list
    that carries [slot_id]. *)
Fixpoint update_existing (slot_id : Z) (slot_result : SlotDetection.t)
    (slot_detections : list SlotDetection.t) : list SlotDetection.t :=
  match slot_detections with
  | [] => []
  | s :: rest =>
      if (SlotDetection.slot_id s =? slot_id)%Z
      then SlotDetection.update s slot_result :: rest
      else s :: update_existing slot_id slot_result rest
  end.

(** The update of [slot_detections] with one [slot_result]: the entry of
    the same slot, when there is one, is overwritten if the new confidence
    is higher; otherwise the result is appended. *)
Definition retain (slot : Slot.t) (slot_result : SlotDetection.t)
    (slot_detections : list SlotDetection.t) : list SlotDetection.t :=
  let existing_slot :=
    find (fun s => (SlotDetection.slot_id s =? Slot.id slot)%Z) slot_detections in
  match existing_slot with
  | Some existing_slot =>
      if Qltb (SlotDetection.confidence existing_slot)
              (SlotDetection.confidence slot_result)
      then update_existing (Slot.id slot) slot_result slot_detections
      else slot_detections
  | None => slot_detections ++ [slot_result]
  end.

(** [for slot in slot_config] of [_process_occupancy_analysis]. *)
Fixpoint occupancy_slots (frame : Image) (detections : list Detection.t)
    (slots : list Slot.t) (slot_detections : list SlotDetection.t)
  : result (list SlotDetection.t) :=
  match slots with
  | [] => Ok slot_detections
  | slot :: rest =>
      (slot_result <-? _analyze_slot_occupancy frame slot detections ;;
       occupancy_slots frame detections rest
                       (retain slot slot_result slot_detections))%result
  end.

(** [while True] of [_process_occupancy_analysis]; [remaining] are the
    frames the capture has not delivered yet. *)
Fixpoint occupancy_frames (frame_interval : nat) (slot_config : list Slot.t)
    (remaining : list Image) (frame_count : nat)
    (slot_detections : list SlotDetection.t) : M (list SlotDetection.t) :=
  match remaining with
  | [] => log EvRead ;; ret slot_detections
  | frame :: rest =>
      log EvRead ;;
      slot_detections <-
        (if (frame_count mod frame_interval =? 0)%nat then
           detections <- ParkingDetector.detect_vehicles frame ;;
           slot_detections <-
             lift (occupancy_slots frame detections slot_config slot_detections) ;;
           incr_processed_frames ;;
           ret slot_detections
         else ret slot_detections) ;;
      occupancy_frames frame_interval slot_config rest (S frame_count)
                       slot_detections
  end.

Definition _process_occupancy_analysis (cap : Cap.t) (slot_config : list Slot.t)
  : M Results.t :=
  let frame_interval := 30%nat in
  slot_detections <-
    occupancy_frames frame_interval slot_config
                     (skipn (Cap.pos cap) (Cap.video cap)) 0 [] ;;
  let occupied_slots := count_occupied slot_detections in
  occupancy_rate <- lift (occupancy_rate_of occupied_slots slot_config) ;;
  let confidences := map SlotDetection.confidence slot_detections in
  avg_confidence <-
    lift (match confidences with
          | [] => Ok 0
          | _ :: _ => pydiv (pysum confidences) (len confidences)
          end) ;;
  ret (Results.mk slot_detections occupied_slots occupancy_rate
         (ConfidenceScores.mk avg_confidence avg_confidence avg_confidence)).

(** [slot_timeline]: a dictionary from slot id to timeline, kept as an
    association list without repeated keys. *)
Definition Timelines : Type := list (Z * list TimelineEntry.t).

Fixpoint timeline_get (slot_id : Z) (d : Timelines)
  : result (list TimelineEntry.t) :=
  match d with
  | [] => Raise KeyError
  | (k, v) :: rest =>
      if (k =? slot_id)%Z then Ok v else timeline_get slot_id rest
  end.

Fixpoint timeline_set (slot_id : Z) (v : list TimelineEntry.t) (d : Timelines)
  : Timelines :=
  match d with
  | [] => [(slot_id, v)]
  | (k, v') :: rest =>
      if (k =? slot_id)%Z then (k, v) :: rest
      else (k, v') :: timeline_set slot_id v rest
  end.

(** [{slot['id']: [] for slot in slot_config}] *)
Definition empty_timelines (slot_config : list Slot.t) : Timelines :=
  fold_left (fun d slot => timeline_set (Slot.id slot) [] d) slot_config [].

(** [for slot in slot_config] inside the frame loop of
    [_process_duration_analysis]. *)
Fixpoint duration_slots (frame : Image) (frame_count : nat)
    (detections : list Detection.t) (slots : list Slot.t)
    (slot_timeline : Timelines) : result Timelines :=
  match slots with
  | [] => Ok slot_timeline
  | slot :: rest =>
      (slot_result <-? _analyze_slot_occupancy frame slot detections ;;
       timeline <-? timeline_get (Slot.id slot) slot_timeline ;;
       duration_slots frame frame_count detections rest
         (timeline_set (Slot.id slot)
            (timeline ++
               [TimelineEntry.mk frame_count
                  (SlotDetection.is_occupied slot_result)
                  (SlotDetection.confidence slot_result)])
            slot_timeline))%result
  end.

(** [while True] of [_process_duration_analysis]. *)
Fixpoint duration_frames (frame_interval : nat) (slot_config : list Slot.t)
    (remaining : list Image) (frame_count : nat) (slot_timeline : Timelines)
  : M Timelines :=
  match remaining with
  | [] => log EvRead ;; ret slot_timeline
  | frame :: rest =>
      log EvRead ;;
      slot_timeline <-
        (if (frame_count mod frame_interval =? 0)%nat then
           detections <- ParkingDetector.detect_vehicles frame ;;
           slot_timeline <-
             lift (duration_slots frame frame_count detections slot_config
                                  slot_timeline) ;;
           incr_processed_frames ;;
           ret slot_timeline
         else ret slot_timeline) ;;
      duration_frames frame_interval slot_config rest (S frame_count)
                      slot_timeline
  end.

(** The second [for slot in slot_config] of [_process_duration_analysis]. *)
Fixpoint duration_reports (slots : list Slot.t) (slot_timeline : Timelines)
  : result (list SlotDetection.t) :=
  match slots with
  | [] => Ok []
  | slot :: rest =>
      (timeline <-? timeline_get (Slot.id slot) slot_timeline ;;
       duration_analysis <-? _analyze_slot_duration timeline ;;
       others <-? duration_reports rest slot_timeline ;;
       Ok (SlotDetection.mk (Slot.id slot) (Slot.slot_number slot)
             (DurationAnalysis.final_status duration_analysis)
             (DurationAnalysis.confidence duration_analysis)
             None None
             (Some (DurationAnalysis.predicted_duration duration_analysis))
             (Some (DurationAnalysis.changes duration_analysis))
             (Some (DurationAnalysis.stability duration_analysis))
           :: others))%result
  end.

Definition _process_duration_analysis (cap : Cap.t) (slot_config : list Slot.t)
  : M Results.t :=
  let slot_timeline := empty_timelines slot_config in
  let frame_interval := 15%nat in
  slot_timeline <-
    duration_frames frame_interval slot_config
                    (skipn (Cap.pos cap) (Cap.video cap)) 0 slot_timeline ;;
  slot_detections <- lift (duration_reports slot_config slot_timeline) ;;
  let occupied_slots := count_occupied slot_detections in
  occupancy_rate <- lift (occupancy_rate_of occupied_slots slot_config) ;;
  overall <-
    lift (pydiv (pysum (map SlotDetection.confidence slot_detections))
                (len slot_detections)) ;;
  ret (Results.mk slot_detections occupied_slots occupancy_rate
         (ConfidenceScores.mk overall 0.85 0.80)).

(** [l[i]] *)
Definition index {A} (l : list A) (i : nat) : result A :=
  match nth_error l i with
  | Some a => Ok a
  | None => Raise IndexError
  end.

(** [for i, slot in enumerate(slot_config)] of [_process_full_analysis]. *)
Fixpoint merge_slots (i : nat) (slots : list Slot.t)
    (occupancy_detections duration_detections : list SlotDetection.t)
  : result (list SlotDetection.t) :=
  match slots with
  | [] => Ok []
  | slot :: rest =>
      (occupancy_data <-? index occupancy_detections i ;;
       duration_data <-? index duration_detections i ;;
       others <-? merge_slots (S i) rest occupancy_detections duration_detections ;;
       Ok (SlotDetection.mk (Slot.id slot) (Slot.slot_number slot)
             (SlotDetection.is_occupied occupancy_data)
             (Qmax (SlotDetection.confidence occupancy_data)
                   (SlotDetection.confidence duration_data))
             (Some (match SlotDetection.vehicle_type occupancy_data with
                    | Some v => v
                    | None => Some "unknown"%string
                    end))
             (Some (match SlotDetection.detection_box occupancy_data with
                    | Some v => v
                    | None => None
                    end))
             (Some (match SlotDetection.predicted_duration duration_data with
                    | Some v => v
                    | None => 1800%Z
                    end))
             None
             (Some (match SlotDetection.stability_score duration_data with
                    | Some v => v
                    | None => 0.5
                    end))
           :: others))%result
  end.

Definition _process_full_analysis (cap : Cap.t) (slot_config : list Slot.t)
  : M Results.t :=
  occupancy_results <- _process_occupancy_analysis cap slot_config ;;
  log (EvSeek 0) ;;
  let cap := Cap.mk _ (Cap.video cap) 0 in
  duration_results <- _process_duration_analysis cap slot_config ;;
  final_detections <-
    lift (merge_slots 0 slot_config
            (Results.slot_detections occupancy_results)
            (Results.slot_detections duration_results)) ;;
  let occupied_slots := count_occupied final_detections in
  occupancy_rate <- lift (occupancy_rate_of occupied_slots slot_config) ;;
  ret (Results.mk final_detections occupied_slots occupancy_rate
         (ConfidenceScores.mk
            ((ConfidenceScores.overall (Results.confidence_scores occupancy_results) +
              ConfidenceScores.overall (Results.confidence_scores duration_results)) / 2)
            0.88 0.82)).

Definition process_video (video_path : string) (slot_config : list Slot.t)
    (analysis_type : string) : M FinalResults.t :=
  valid <- validate_video_file video_path ;;
  if negb valid then
    raise (ValueError ("Invalid video file: " ++ video_path))
  else
    match slot_config with
    | [] => raise (ValueError "Slot configuration is required")
    | _ :: _ =>
        log (EvOpen video_path) ;;
        w <- get ;;
        match fs w video_path with
        | None => raise (ValueError ("Cannot open video file: " ++ video_path))
        | Some file =>
            if negb (opens file) then
              raise (ValueError ("Cannot open video file: " ++ video_path))
            else
              let cap := Cap.mk _ (frames file) 0 in
              let fps := py_int (prop_fps file) in
              let total_frames := py_int (prop_frame_count file) in
              duration <-
                lift (if (0 <? fps)%Z
                      then pydiv (inject_Z total_frames) (inject_Z fps)
                      else Ok 0) ;;
              set_total_frames total_frames ;;
              results <-
                (if String.eqb analysis_type "occupancy" then
                   _process_occupancy_analysis cap slot_config
                 else if String.eqb analysis_type "duration" then
                   _process_duration_analysis cap slot_config
                 else _process_full_analysis cap slot_config) ;;
              log EvRelease ;;
              w' <- get ;;
              ret (FinalResults.mk total_frames (processed_frames w') fps
                     duration analysis_type
                     (Results.slot_detections results)
                     (Results.vehicle_count results)
                     (Results.occupancy_rate results)
                     (Results.confidence_scores results))
        end
    end.

End WithExternal.
End VideoProcessor.

(** ** Vocabulary of the properties *)

(** A rectangle of strictly positive width and height. *)
Definition positive_box (a : Box) : Prop :=
  let '(_, _, w, h) := a in 0 < w /\ 0 < h.

(** A rectangle whose width or height is zero or negative. *)
Definition degenerate_box (a : Box) : Prop :=
  let '(_, _, w, h) := a in w <= 0 \/ h <= 0.

(** The point [(px, py)] lies strictly inside the rectangle. *)
Definition inside (a : Box) (px py : Q) : Prop :=
  let '(x, y, w, h) := a in x < px /\ px < x + w /\ y < py /\ py < y + h.

(** Two rectangles intersect when some point lies strictly inside both. *)
Definition intersecting (a b : Box) : Prop :=
  exists px py, inside a px py /\ inside b px py.

(** The contract of the geometric overlap utility: it never raises, is
    symmetric, stays within [[0, 1]], is 1 on a positive rectangle and
    itself, and is 0 on rectangles that do not intersect or are degenerate. *)
Definition overlap_contract (overlap : Box -> Box -> result Q) : Prop :=
  (forall a b, exists v v',
      overlap a b = Ok v /\ overlap b a = Ok v' /\ v == v' /\ 0 <= v /\ v <= 1)
  /\ (forall a, positive_box a -> exists v, overlap a a = Ok v /\ v == 1)
  /\ (forall a b, ~ intersecting a b -> overlap a b = Ok 0)
  /\ (forall a b, degenerate_box a \/ degenerate_box b -> overlap a b = Ok 0).

(** The edges [(left, top, right, bottom)] of the intersection rectangle. *)
Definition intersection_edges (a b : Box) : Q * Q * Q * Q :=
  let '(x1, y1, w1, h1) := a in
  let '(x2, y2, w2, h2) := b in
  (Qmax x1 x2, Qmax y1 y2, Qmin (x1 + w1) (x2 + w2), Qmin (y1 + h1) (y2 + h2)).

Definition meets (a b : Box) : Prop :=
  let '(l, t, r, bt) := intersection_edges a b in l < r /\ t < bt.

Definition area (a : Box) : Q := let '(_, _, w, h) := a in w * h.

Definition intersection_area (a b : Box) : Q :=
  let '(l, t, r, bt) := intersection_edges a b in (r - l) * (bt - t).

(** Intersection over union, as a number. *)
Definition iou_value (a b : Box) : Q :=
  intersection_area a b / (area a + area b - intersection_area a b).

(** The overlap of two rectangles as a number: intersection over union
    when the rectangles meet, 0 otherwise. *)
Definition overlap_value (a b : Box) : Q :=
  let '(l, t, r, bt) := intersection_edges a b in
  if Qltb l r && Qltb t bt then iou_value a b else 0.

(** *** The duration/stability estimator, in the words of its specification *)

(** The number of adjacent entries whose [is_occupied] differs. *)
Fixpoint adjacent_flips (timeline : list TimelineEntry.t) : nat :=
  match timeline with
  | a :: (b :: _) as rest =>
      (if Bool.eqb (TimelineEntry.is_occupied a) (TimelineEntry.is_occupied b)
       then 0 else 1) + adjacent_flips rest
  | _ => 0
  end%nat.

(** The number of occupied entries. *)
Definition occupied_entries (timeline : list TimelineEntry.t) : nat :=
  count_occ bool_dec (map TimelineEntry.is_occupied timeline) true.

(** The mean of the entries' confidences. *)
Definition mean_confidence (timeline : list TimelineEntry.t) : Q :=
  pysum (map TimelineEntry.confidence timeline) / len timeline.

Definition reference_estimate (timeline : list TimelineEntry.t)
  : DurationAnalysis.t :=
  match timeline with
  | [] => DurationAnalysis.mk false 0.5 1800 0 0
  | _ :: _ =>
      let changes := adjacent_flips timeline in
      let stability := Qmax 0 (1 - VideoProcessor.of_nat changes / len timeline) in
      (* occupied iff strictly more than half of the entries are occupied *)
      let final_status :=
        (List.length timeline <? 2 * occupied_entries timeline)%nat in
      let predicted_duration :=
        if final_status && Qltb 0.8 stability then 3600%Z
        else if final_status then 1800%Z
        else 0%Z in
      DurationAnalysis.mk final_status (mean_confidence timeline * stability)
                          predicted_duration changes stability
  end.

(** *** The slot occupancy classifier *)

(** The rectangle of a slot, [(x, y, w, h)]. *)
Definition slot_box (slot : Slot.t) : Box :=
  let c := Slot.coordinates slot in
  (Coordinates.x c, Coordinates.y c, Coordinates.width c, Coordinates.height c).

(** The overlap of a detection with a slot. *)
Definition slot_overlap (slot : Slot.t) (d : Detection.t) : Q :=
  overlap_value (slot_box slot) (Detection.bbox d).

(** A detection qualifies for a slot when its overlap exceeds 0.5. *)
Definition qualifies (slot : Slot.t) (d : Detection.t) : Prop :=
  0.5 < slot_overlap slot d.

(** The verdict was decided by a detection (the primary path): it carries
    a detection box. *)
Definition by_detection (v : SlotDetection.t) : Prop :=
  exists b, SlotDetection.detection_box v = Some (Some b).

(** The verdict records the detection [d] as its signal. *)
Definition records (v : SlotDetection.t) (d : Detection.t) : Prop :=
  SlotDetection.is_occupied v = true /\
  SlotDetection.confidence v = Detection.confidence d /\
  SlotDetection.vehicle_type v =
    Some (Some (match Detection.class d with
                | Some c => c
                | None => "vehicle"%string
                end)) /\
  SlotDetection.detection_box v = Some (Some (Detection.bbox d)).

(** The loop state after a detection has been taken as the representative. *)
Definition chosen (d : Detection.t) : VideoProcessor.ScanState :=
  (true, Detection.confidence d,
   Some (match Detection.class d with
         | Some c => c
         | None => "vehicle"%string
         end),
   Some (Detection.bbox d)).

(** The image score of the slot's crop, the fallback signal. *)
Definition fallback_score {E : External} (frame : Image) (slot : Slot.t) : Q :=
  let '(x, y, w, h) := slot_box slot in
  VideoProcessor._analyze_slot_image
    (crop frame (py_int y) (py_int (y + h)) (py_int x) (py_int (x + w))).

(** The reading of the classifier's primary path that the code does not
    follow: whenever a verdict records a detection of the list, that
    detection has the highest overlap among the detections. *)
Definition representative_has_highest_overlap : Prop :=
  forall (E : External) (frame : Image) (slot : Slot.t)
         (detections : list Detection.t) (v : SlotDetection.t) (rep : Detection.t),
    VideoProcessor._analyze_slot_occupancy frame slot detections = Ok v ->
    In rep detections -> records v rep ->
    forall d, In d detections -> slot_overlap slot d <= slot_overlap slot rep.

(** What [detect_in_regions] reports for one region, given the frame's
    detections: occupied iff some detection overlaps the region by more
    than 0.3, and then the reported detection is one of greatest overlap. *)
Definition region_verdict (region : Slot.t) (detections : list Detection.t)
    (r : RegionDetection.t) : Prop :=
  RegionDetection.region_id r = Slot.id region /\
  RegionDetection.slot_number r = Slot.slot_number region /\
  (RegionDetection.is_occupied r = true <->
   exists d, In d detections /\ 0.3 < slot_overlap region d) /\
  (RegionDetection.is_occupied r = false -> RegionDetection.detection r = None) /\
  (RegionDetection.is_occupied r = true ->
   exists best,
     RegionDetection.detection r = Some best /\
     In (RegionVehicle.detection best) detections /\
     RegionVehicle.overlap best = slot_overlap region (RegionVehicle.detection best) /\
     0.3 < RegionVehicle.overlap best /\
     forall d, In d detections -> slot_overlap region d <= RegionVehicle.overlap best).

(** *** Non-max suppression *)

(** The IoU of two detections' boxes. *)
Definition detection_iou (a b : Detection.t) : Q :=
  overlap_value (Detection.bbox a) (Detection.bbox b).

(** Confidences never increase along the list. *)
Definition descending (l : list Detection.t) : Prop :=
  StronglySorted (fun a b => Detection.confidence b <= Detection.confidence a) l.

(** No detection of the list overlaps a later one by more than the threshold. *)
Definition separated (iou_threshold : Q) (l : list Detection.t) : Prop :=
  StronglySorted (fun a b => detection_iou a b <= iou_threshold) l.

(** The greedy selection on a list of candidates: keep the top candidate,
    discard the remaining candidates whose IoU with it exceeds the
    threshold, and repeat on what is left until no candidate remains. *)
Inductive greedy (iou_threshold : Q) : list Detection.t -> list Detection.t -> Prop :=
| greedy_done : greedy iou_threshold [] []
| greedy_keep (top : Detection.t) (rest keep : list Detection.t) :
    greedy iou_threshold
           (filter (fun d => negb (Qltb iou_threshold (detection_iou top d))) rest)
           keep ->
    greedy iou_threshold (top :: rest) (top :: keep).

(** *** The temporal aggregator *)

(** The frames a pass samples, with their indices: those whose index,
    counted from [first], is a multiple of the interval. *)
Definition sampled {A} (frame_interval first : nat) (frames : list A)
  : list (nat * A) :=
  filter (fun p => (fst p mod frame_interval =? 0)%nat)
         (combine (seq first (List.length frames)) frames).

(** The frames handed to the detector, in order. *)
Definition detected {E : External} (t : list Event) : list Image :=
  flat_map (fun e => match e with
                     | EvDetect frame => [frame]
                     | _ => []
                     end) t.

(** The number of frame reads. *)
Definition frame_reads {E : External} (t : list Event) : nat :=
  List.length (filter (fun e => match e with
                                | EvRead => true
                                | _ => false
                                end) t).

(** One sampled frame as a pass sees it: its index, the frame and the
    detections the detector returned for it. *)
Definition Observation {E : External} : Type :=
  (nat * Image * list Detection.t)%type.

(** The verdict [v] was observed for the slot id [slot_id]: it is the
    classifier's verdict on some sampled frame for a slot with that id. *)
Definition observed {E : External} (slot_config : list Slot.t)
    (obs : list Observation) (slot_id : Z) (v : SlotDetection.t) : Prop :=
  exists i frame dets slot,
    In (i, frame, dets) obs /\ In slot slot_config /\ Slot.id slot = slot_id /\
    VideoProcessor._analyze_slot_occupancy frame slot dets = Ok v.

(** The entries of [slot_detections] that belong to a slot id. *)
Definition entries_of (slot_id : Z) (slot_detections : list SlotDetection.t)
  : list SlotDetection.t :=
  filter (fun s => (SlotDetection.slot_id s =? slot_id)%Z) slot_detections.

(** What the occupancy pass retains from a list of observations. *)
Fixpoint absorb_occupancy {E : External} (slot_config : list Slot.t)
    (obs : list Observation) (slot_detections : list SlotDetection.t)
  : result (list SlotDetection.t) :=
  match obs with
  | [] => Ok slot_detections
  | (_, frame, dets) :: rest =>
      (slot_detections <-?
         VideoProcessor.occupancy_slots frame dets slot_config slot_detections ;;
       absorb_occupancy slot_config rest slot_detections)%result
  end.

(** What the duration pass records from a list of observations. *)
Fixpoint absorb_duration {E : External} (slot_config : list Slot.t)
    (obs : list Observation) (slot_timeline : VideoProcessor.Timelines)
  : result VideoProcessor.Timelines :=
  match obs with
  | [] => Ok slot_timeline
  | (i, frame, dets) :: rest =>
      (slot_timeline <-?
         VideoProcessor.duration_slots frame i dets slot_config slot_timeline ;;
       absorb_duration slot_config rest slot_timeline)%result
  end.

(** The observations are what the detector returned on the sampled frames
    of [frames], one after the other, starting in the world [w]. *)
Definition observes {E : External} (frame_interval : nat) (frames : list Image)
    (obs : list Observation) : Prop :=
  map fst obs = sampled frame_interval 0 frames /\
  Forall (fun o => exists w1 w2,
              ParkingDetector.detect_vehicles (snd (fst o)) w1 = (Ok (snd o), w2))
         obs.

(** The worlds [w] and [w'] differ at most in the position of the random
    stream. *)
Definition draws_only {E : External} (w w' : World) : Prop :=
  fs w' = fs w /\ model_loaded w' = model_loaded w /\ rng w' = rng w /\
  total_frames w' = total_frames w /\
  processed_frames w' = processed_frames w /\ trace w' = trace w.

(** The computation changes nothing but the position of the random stream. *)
Definition only_draws {E : External} {A} (m : M A) : Prop :=
  forall w, draws_only w (snd (m w)).

(** The effect of a computation on the counters a pass maintains:
    [d] frames detected, [r] frames read, [p] frames processed. *)
Definition advances {E : External} (w w' : World) (d : list Image) (r p : nat) : Prop :=
  detected (trace w') = detected (trace w) ++ d /\
  frame_reads (trace w') = (frame_reads (trace w) + r)%nat /\
  processed_frames w' = (processed_frames w + p)%nat /\
  fs w' = fs w /\ model_loaded w' = model_loaded w.

(** One visit of the occupancy pass: a sampled frame, its detections and
    a slot of the configuration. *)
Definition Visit {E : External} : Type := (Image * list Detection.t * Slot.t)%type.

(** The visits a list of observations gives rise to, in order. *)
Definition visits {E : External} (slot_config : list Slot.t)
    (obs : list Observation) : list Visit :=
  flat_map (fun o => map (fun slot => (snd (fst o), snd o, slot)) slot_config) obs.

(** The verdict [v] was computed on one of the visits, for the slot id
    [slot_id]. *)
Definition seen {E : External} (vis : list Visit) (slot_id : Z)
    (v : SlotDetection.t) : Prop :=
  exists frame dets slot,
    In (frame, dets, slot) vis /\ Slot.id slot = slot_id /\
    VideoProcessor._analyze_slot_occupancy frame slot dets = Ok v.

(** [slot_detections] summarises the visits: one entry per slot id, each
    entry a verdict computed for its id, of greatest confidence among the
    verdicts computed for that id. *)
Definition summarises {E : External} (vis : list Visit)
    (slot_detections : list SlotDetection.t) : Prop :=
  NoDup (map SlotDetection.slot_id slot_detections) /\
  (forall v, In v slot_detections -> seen vis (SlotDetection.slot_id v) v) /\
  (forall slot_id v', seen vis slot_id v' ->
     exists v, In v slot_detections /\ SlotDetection.slot_id v = slot_id /\
               SlotDetection.confidence v' <= SlotDetection.confidence v).

(** The ids of a list of retained entries after one more slot id. *)
Definition add_id (ids : list Z) (slot_id : Z) : list Z :=
  if existsb (Z.eqb slot_id) ids then ids else ids ++ [slot_id].

(** The timeline dictionary has the key [slot_id]. *)
Definition has_timeline (slot_id : Z) (tl : VideoProcessor.Timelines) : Prop :=
  exists v, VideoProcessor.timeline_get slot_id tl = Ok v.

(** *** The merge of full analysis *)

(** The merged entry [m] of a slot, from the slot's entry [o] of the
    occupancy pass and its entry [d] of the duration pass: occupancy from
    [o], the larger of the two confidences, the predicted duration of [d]
    (1800 when [d] has none). *)
Definition merged_from (slot : Slot.t) (o d m : SlotDetection.t) : Prop :=
  SlotDetection.slot_id m = Slot.id slot /\
  SlotDetection.slot_number m = Slot.slot_number slot /\
  SlotDetection.is_occupied m = SlotDetection.is_occupied o /\
  SlotDetection.confidence m
  = Qmax (SlotDetection.confidence o) (SlotDetection.confidence d) /\
  SlotDetection.predicted_duration m
  = Some (match SlotDetection.predicted_duration d with
          | Some seconds => seconds
          | None => 1800%Z
          end).

(** The report [r] of full analysis merges the two passes run from the
    world [w]: the occupancy pass, then the duration pass on the rewound
    capture; the overall score is the average of theirs; and at every
    position of the configuration the passes and the report hold the entry
    of that slot, the report's entry being merged from the other two. *)
Definition merges_passes {E : External} (cap : Cap.t) (slot_config : list Slot.t)
    (w : World) (r : Results.t) : Prop :=
  exists occ dur w1 w2,
    VideoProcessor._process_occupancy_analysis cap slot_config w = (Ok occ, w1) /\
    VideoProcessor._process_duration_analysis
      (Cap.mk _ (Cap.video cap) 0) slot_config (snd (log (EvSeek 0) w1))
    = (Ok dur, w2) /\
    ConfidenceScores.overall (Results.confidence_scores r)
    = (ConfidenceScores.overall (Results.confidence_scores occ) +
       ConfidenceScores.overall (Results.confidence_scores dur)) / 2 /\
    List.length (Results.slot_detections r) = List.length slot_config /\
    forall i slot,
      nth_error slot_config i = Some slot ->
      exists o d m,
        nth_error (Results.slot_detections occ) i = Some o /\
        SlotDetection.slot_id o = Slot.id slot /\
        nth_error (Results.slot_detections dur) i = Some d /\
        SlotDetection.slot_id d = Slot.id slot /\
        (exists seconds, SlotDetection.predicted_duration d = Some seconds) /\
        nth_error (Results.slot_detections r) i = Some m /\
        merged_from slot o d m /\
        (SlotDetection.confidence o == 0.6 ->
         SlotDetection.confidence d == 0.9 ->
         SlotDetection.confidence m = SlotDetection.confidence d /\
         SlotDetection.confidence m == 0.9).

(** *** Input validation of [process_video] *)

(** The file at [video_path] passes [validate_video_file]: it exists, has
    a video extension, opens and delivers a first frame. *)
Definition validates {E : External} (w : World) (video_path : string) : Prop :=
  exists file,
    fs w video_path = Some file /\
    In (suffix file) valid_extensions /\
    opens file = true /\
    frames file <> [].

(** The I/O of a validation that reaches the first frame. *)
Definition validation_io {E : External} (video_path : string) : list Event :=
  [EvExists video_path; EvOpen video_path; EvRead; EvRelease].

(** The reading of the empty-configuration scenario that the code does not
    follow: the configuration error is raised and no frame has been read. *)
Definition empty_config_raises_before_any_read : Prop :=
  forall (E : External) (video_path analysis_type : string) (w : World),
  exists w',
    VideoProcessor.process_video video_path [] analysis_type w
    = (Raise (ValueError "Slot configuration is required"), w') /\
    frame_reads (trace w') = frame_reads (trace w).

(** *** Synthetic detections *)

(** The box lies within a frame of the given height and width. *)
Definition within_frame (height width : Z) (b : Box) : Prop :=
  let '(x, y, w, h) := b in
  0 <= x /\ 0 <= y /\ x + w <= inject_Z width /\ y + h <= inject_Z height.

(** A well-formed synthetic detection for a frame. *)
Definition synthetic_detection (height width : Z) (d : Detection.t) : Prop :=
  0.6 <= Detection.confidence d /\ Detection.confidence d <= 0.95 /\
  Detection.class d = Some "car"%string /\
  within_frame height width (Detection.bbox d).

(** *** Sample inputs *)

(** A stand-in for the vision libraries: images are numbered, every crop
    is fully textured and dark (image score 1), and the model is loaded
    and detects nothing. *)
Definition sample_external : External :=
  {| Image := nat;
     shape := fun _ => (480%Z, 640%Z);
     crop := fun img _ _ _ _ => img;
     size := fun _ => 100%nat;
     edge_density := fun _ => 1;
     variance := fun _ => 1000;
     mean_intensity := fun _ => 0;
     yolo := fun _ => Some [] |}.

Definition sample_slot : Slot.t :=
  Slot.mk 1 "A1" (Coordinates.mk 0 0 10 10).

(** Two detections on [sample_slot]: the first covers it exactly with
    confidence 0.6, the second covers four fifths of it with confidence 0.9. *)
Definition exact_detection : Detection.t :=
  Detection.mk (0, 0, 10, 10) 0.6 2 (Some "car"%string).

Definition partial_detection : Detection.t :=
  Detection.mk (0, 0, 10, 8) 0.9 7 (Some "truck"%string).

(** Seven entries, four of them occupied. *)
Definition sample_timeline : list TimelineEntry.t :=
  [TimelineEntry.mk 0 true 0.9; TimelineEntry.mk 15 false 0.4;
   TimelineEntry.mk 30 true 0.8; TimelineEntry.mk 45 false 0.3;
   TimelineEntry.mk 60 true 0.7; TimelineEntry.mk 75 false 0.5;
   TimelineEntry.mk 90 true 0.9].

(** A world without files, with the model loaded and nothing traced yet. *)
Definition sample_world : @World sample_external :=
  @mkWorld sample_external (fun _ => None) true (fun _ => 0) 0 0 0 [].

(** A capture at the start of a video of [n] numbered frames. *)
Definition sample_cap (n : nat) : @Cap.t sample_external :=
  @Cap.mk sample_external (seq 0 n) 0.

(** A three-frame video file, and a world where every path leads to it. *)
Definition sample_file : @VideoFile sample_external :=
  @mkVideoFile sample_external ".mp4" true 30 3 [0; 1; 2]%nat.

Definition sample_disk : @World sample_external :=
  @mkWorld sample_external (fun _ => Some sample_file) true (fun _ => 0) 0 0 0 [].

(** A stand-in for the vision libraries without a usable model: an image is
    its shape [(height, width)] and inference always fails. *)
Definition shaped_external : External :=
  {| Image := (Z * Z)%type;
     shape := fun img => img;
     crop := fun img _ _ _ _ => img;
     size := fun _ => 0%nat;
     edge_density := fun _ => 0;
     variance := fun _ => 0;
     mean_intensity := fun _ => 0;
     yolo := fun _ => None |}.

(** A world without a model whose random stream starts with the given draws. *)
Definition drawing_world (draws : list Q) : @World shaped_external :=
  @mkWorld shaped_external (fun _ => None) false (fun n => nth n draws 0) 0 0 0 [].

(** ** More of utils.py *)

Module CoordinatesDict.
(** A coordinates dictionary read with [.get(key, 0)]: a key may be missing. *)
Record t : Type := mk {
  x : option Q;
  y : option Q;
  width : option Q;
  height : option Q
}.
End CoordinatesDict.

(** [d.get(key, 0)] *)
Definition get_or_zero (v : option Q) : Q :=
  match v with
  | Some q => q
  | None => 0
  end.

Definition validate_slot_coordinates (coordinates : CoordinatesDict.t)
    (frame_shape : Z * Z) : bool :=
  let '(frame_height, frame_width) := frame_shape in
  let x := get_or_zero (CoordinatesDict.x coordinates) in
  let y := get_or_zero (CoordinatesDict.y coordinates) in
  let width := get_or_zero (CoordinatesDict.width coordinates) in
  let height := get_or_zero (CoordinatesDict.height coordinates) in
  if Qltb x 0 || Qltb y 0 then false
  else if Qltb (inject_Z frame_width) (x + width) then false
  else if Qltb (inject_Z frame_height) (y + height) then false
  else if Qle_bool width 0 || Qle_bool height 0 then false
  else true.

(** JSON values as [json.loads] returns them. *)
#[warnings="-register-all"] Inductive json : Type :=
| JNull
| JBool (b : bool)
| JNumber (q : Q)
| JString (s : string)
| JArray (items : list json)
| JObject (fields : list (string * json)).

(** The exceptions [parse_slot_config] can leave with. *)
Inductive config_exn : Type :=
| ConfigValueError (msg : string)
| ConfigTypeError.

(** [needle in hay] on strings: [needle] occurs in [hay]. *)
Fixpoint occurs_in (needle hay : string) : bool :=
  if String.prefix needle hay then true
  else match hay with
       | EmptyString => false
       | String _ rest => occurs_in needle rest
       end.

(** [d[key]] on a dictionary given by its items. *)
Fixpoint object_get (key : string) (fields : list (string * json)) : option json :=
  match fields with
  | [] => None
  | (k, v) :: rest => if String.eqb k key then Some v else object_get key rest
  end.

(** [key in container]: key membership on a dictionary, element
    membership on a list, substring test on a string; [TypeError] on
    anything else. *)
Definition json_contains (key : string) (container : json) : config_exn + bool :=
  match container with
  | JObject fields =>
      inr (match object_get key fields with
           | Some _ => true
           | None => false
           end)
  | JArray items =>
      inr (existsb (fun item => match item with
                                | JString s => String.eqb s key
                                | _ => false
                                end) items)
  | JString s => inr (occurs_in key s)
  | _ => inl ConfigTypeError
  end.

(** [container[key]] with a string key, after [key in container] held:
    the value on a dictionary, [TypeError] on a list or a string. *)
Definition json_item (key : string) (container : json) : config_exn + json :=
  match container with
  | JObject fields =>
      match object_get key fields with
      | Some v => inr v
      | None => inl ConfigTypeError
      end
  | _ => inl ConfigTypeError
  end.

(** [for field in required_fields: if field not in slot: raise ...] *)
Fixpoint check_required (what : string) (required : list string) (container : json)
  : config_exn + unit :=
  match required with
  | [] => inr tt
  | field :: rest =>
      match json_contains field container with
      | inl e => inl e
      | inr false => inl (ConfigValueError (what ++ field))
      | inr true => check_required what rest container
      end
  end.

(** [isinstance(v, (int, float))]; [bool] is a subclass of [int]. *)
Definition is_number (v : json) : bool :=
  match v with
  | JNumber _ | JBool _ => true
  | _ => false
  end.

(** [for coord in required_coords] of [parse_slot_config]. *)
Fixpoint check_coords (required_coords : list string) (coords : json)
  : config_exn + unit :=
  match required_coords with
  | [] => inr tt
  | coord :: rest =>
      match json_contains coord coords with
      | inl e => inl e
      | inr false => inl (ConfigValueError ("Missing coordinate: " ++ coord))
      | inr true =>
          match json_item coord coords with
          | inl e => inl e
          | inr v =>
              if is_number v then check_coords rest coords
              else inl (ConfigValueError ("Invalid coordinate type: " ++ coord))
          end
      end
  end.

Definition required_fields : list string := ["id"; "slot_number"; "coordinates"]%string.
Definition required_coords : list string := ["x"; "y"; "width"; "height"]%string.

(** The body of [for slot in slot_config] of [parse_slot_config]. *)
Definition check_slot (slot : json) : config_exn + unit :=
  match check_required "Missing required field: " required_fields slot with
  | inl e => inl e
  | inr _ =>
      match json_item "coordinates" slot with
      | inl e => inl e
      | inr coords => check_coords required_coords coords
      end
  end.

Fixpoint check_slots (slots : list json) : config_exn + unit :=
  match slots with
  | [] => inr tt
  | slot :: rest =>
      match check_slot slot with
      | inl e => inl e
      | inr _ => check_slots rest
      end
  end.

(** [parse_slot_config]; [decoded] is what [json.loads(slot_config_str)]
    gives: the value, or the message of its [JSONDecodeError]. *)
Definition parse_slot_config (decoded : string + json) : config_exn + list json :=
  match decoded with
  | inl e =>
      inl (ConfigValueError ("Invalid JSON in slot configuration: " ++ e))
  | inr slot_config =>
      match slot_config with
      | JArray slots =>
          match check_slots slots with
          | inl e => inl e
          | inr _ => inr slots
          end
      | _ => inl (ConfigValueError "Slot configuration must be a list")
      end
  end.

Section MoreUtils.
Context {E : External}.
Local Open Scope monad_scope.

(** [try: body finally: cleanup] *)
Definition finally {A} (body : M A) (cleanup : M unit) : M A :=
  fun w =>
    match body w with
    | (r, w1) =>
        match cleanup w1 with
        | (Ok _, w2) => (r, w2)
        | (Raise e, w2) => (Raise e, w2)
        end
    end.

(** The frames a capture opened on [video_path] delivers. *)
Definition capture_frames (w : World) (video_path : string) : list Image :=
  match fs w video_path with
  | Some file => if opens file then frames file else []
  | None => []
  end.

(** [while True] of [extract_frames]. *)
Fixpoint extract_loop (interval : Z) (remaining : list Image) (frame_count : nat)
    (frames : list Image) : M (list Image) :=
  match remaining with
  | [] => log EvRead ;; ret frames
  | frame :: rest =>
      log EvRead ;;
      if (interval =? 0)%Z then raise ZeroDivisionError
      else
        extract_loop interval rest (S frame_count)
          (if (Z.of_nat frame_count mod interval =? 0)%Z
           then frames ++ [frame] else frames)
  end.

Definition extract_frames (video_path : string) (interval : Z) : M (list Image) :=
  log (EvOpen video_path) ;;
  w <- get ;;
  finally (extract_loop interval (capture_frames w video_path) 0 [])
          (log EvRelease).

(** [resize_frame], up to the call of [cv2.resize]: the size
    [(new_width, new_height)] handed to it, or [None] when the frame is
    returned as it is. *)
Definition resize_frame_size (frame : Image) (max_width max_height : Z)
  : result (option (Z * Z)) :=
  let '(height, width) := shape frame in
  (scale_w <-? pydiv (inject_Z max_width) (inject_Z width) ;;
   scale_h <-? pydiv (inject_Z max_height) (inject_Z height) ;;
   let scale := Qmin (Qmin scale_w scale_h) 1 in
   if Qltb scale 1 then
     let new_width := py_int (inject_Z width * scale) in
     let new_height := py_int (inject_Z height * scale) in
     Ok (Some (new_width, new_height))
   else Ok None)%result.

End MoreUtils.

(** ** More of parking_detector.py *)

Module SlotResult.
(** An element of [slot_results] of [analyze_parking_lot]; the key
    [detection_box] is only set for an occupied slot. *)
Record t : Type := mk {
  slot_id : Z;
  slot_number : string;
  is_occupied : bool;
  confidence : Q;
  vehicle_type : option string;
  detection_box : option Box
}.
End SlotResult.

Module LotAnalysis.
(** The dictionary [analyze_parking_lot] returns, without its tick-count
    [timestamp]. *)
Record t : Type := mk {
  total_slots : nat;
  occupied_slots : nat;
  available_slots : Z;
  occupancy_rate : Q;
  slot_results : list SlotResult.t
}.
End LotAnalysis.

Module Settings.
(** The thresholds of a [ParkingDetector]. *)
Record t : Type := mk {
  confidence_threshold : Q;
  nms_threshold : Q
}.
End Settings.

Module ParkingDetectorMore.
Section WithExternal.
Context {E : External}.
Local Open Scope monad_scope.

(** The loop over [region_detections] of [analyze_parking_lot]. *)
Fixpoint slot_results_of (region_detections : list RegionDetection.t)
  : result (list SlotResult.t) :=
  match region_detections with
  | [] => Ok []
  | detection :: rest =>
      (slot_result <-?
         match RegionDetection.detection detection with
         | Some vehicle =>
             match Detection.class (RegionVehicle.detection vehicle) with
             | Some class =>
                 Ok (SlotResult.mk (RegionDetection.region_id detection)
                       (RegionDetection.slot_number detection)
                       (RegionDetection.is_occupied detection)
                       (Detection.confidence (RegionVehicle.detection vehicle))
                       (Some class)
                       (Some (Detection.bbox (RegionVehicle.detection vehicle))))
             | None => Raise KeyError
             end
         | None =>
             Ok (SlotResult.mk (RegionDetection.region_id detection)
                   (RegionDetection.slot_number detection)
                   (RegionDetection.is_occupied detection)
                   0 None None)
         end ;;
       others <-? slot_results_of rest ;;
       Ok (slot_result :: others))%result
  end.

Definition analyze_parking_lot (frame : Image) (slot_config : list Slot.t)
  : M LotAnalysis.t :=
  region_detections <- ParkingDetector.detect_in_regions frame slot_config ;;
  let total_slots := List.length slot_config in
  let occupied_slots :=
    List.length (filter RegionDetection.is_occupied region_detections) in
  occupancy_rate <-
    lift (if (0 <? total_slots)%nat
          then (r <-? pydiv (VideoProcessor.of_nat occupied_slots)
                            (VideoProcessor.of_nat total_slots) ;;
                Ok (r * 100))%result
          else Ok 0) ;;
  slot_results <- lift (slot_results_of region_detections) ;;
  ret (LotAnalysis.mk total_slots occupied_slots
         (Z.of_nat total_slots - Z.of_nat occupied_slots)
         occupancy_rate slot_results).

Definition set_confidence_threshold (self : Settings.t) (threshold : Q) : Settings.t :=
  Settings.mk (Qmax 0.1 (Qmin 1 threshold)) (Settings.nms_threshold self).

Definition set_nms_threshold (self : Settings.t) (threshold : Q) : Settings.t :=
  Settings.mk (Settings.confidence_threshold self) (Qmax 0.1 (Qmin 1 threshold)).

End WithExternal.
End ParkingDetectorMore.

(** ** Vocabulary of the further properties *)

(** The detection [d] is suppressed by [k]: [k] is at least as confident
    and overlaps [d] by more than the threshold. *)
Definition suppressed_by (iou_threshold : Q) (d k : Detection.t) : Prop :=
  Detection.confidence d <= Detection.confidence k /\
  iou_threshold < detection_iou k d.

(** The rectangle of a coordinates dictionary, a missing key read as 0. *)
Definition dict_box (c : CoordinatesDict.t) : Box :=
  (get_or_zero (CoordinatesDict.x c), get_or_zero (CoordinatesDict.y c),
   get_or_zero (CoordinatesDict.width c), get_or_zero (CoordinatesDict.height c)).

(** The dictionary has the key. *)
Definition has_key (key : string) (fields : list (string * json)) : Prop :=
  exists v, object_get key fields = Some v.

(** A slot entry that [parse_slot_config] accepts: a dictionary with the
    keys [id], [slot_number] and [coordinates], the last one a dictionary
    whose [x], [y], [width] and [height] are numbers (or booleans). *)
Definition well_formed_slot (slot : json) : Prop :=
  exists fields coords,
    slot = JObject fields /\
    has_key "id" fields /\ has_key "slot_number" fields /\
    object_get "coordinates" fields = Some (JObject coords) /\
    forall coord, In coord required_coords ->
                  exists v, object_get coord coords = Some v /\ is_number v = true.

(** The world [w] after the events [t]. *)
Definition traced {E : External} (w : World) (t : list Event) : World :=
  mkWorld _ (fs w) (model_loaded w) (rng w) (rng_pos w)
          (total_frames w) (processed_frames w) (trace w ++ t).

(** A detection of one of the vehicle classes, carrying the class name. *)
Definition vehicle_detection (d : Detection.t) : Prop :=
  exists name,
    In (Detection.class_id d, name) ParkingDetector.vehicle_classes /\
    Detection.class d = Some name.

(** The number of boxes in the results of one inference. *)
Definition box_count (results : list (option (list YoloBox.t))) : nat :=
  List.length (flat_map (fun boxes => match boxes with
                                      | Some l => l
                                      | None => []
                                      end) results).

(** The value lies within the range the threshold setters clamp to. *)
Definition in_threshold_range (q : Q) : Prop := 0.1 <= q /\ q <= 1.

(** The measurements on an image are in the ranges OpenCV gives on 8-bit
    images: an edge density in [[0, 1]], a variance of at least 0 and a mean
    intensity in [[0, 255]]. *)
Definition measured_in_range {E : External} (img : Image) : Prop :=
  0 <= edge_density img /\ edge_density img <= 1 /\
  0 <= variance img /\
  0 <= mean_intensity img /\ mean_intensity img <= 255.

(** The crop of a slot from a frame, as the classifier takes it. *)
Definition slot_crop {E : External} (frame : Image) (slot : Slot.t) : Image :=
  let '(x, y, w, h) := slot_box slot in
  crop frame (py_int y) (py_int (y + h)) (py_int x) (py_int (x + w)).

(** Each confidence of the timeline lies in [[0, 1]]. *)
Definition confidences_in_unit (timeline : list TimelineEntry.t) : Prop :=
  Forall (fun e => 0 <= TimelineEntry.confidence e /\ TimelineEntry.confidence e <= 1)
         timeline.

(** The timeline entry the duration pass records for a slot on one
    observation: the frame index with the classifier's verdict. *)
Definition entry_for {E : External} (slot : Slot.t) (o : Observation)
    (e : TimelineEntry.t) : Prop :=
  exists v,
    VideoProcessor._analyze_slot_occupancy (snd (fst o)) slot (snd o) = Ok v /\
    e = TimelineEntry.mk (fst (fst o)) (SlotDetection.is_occupied v)
                         (SlotDetection.confidence v).

(** The capture events of a trace, in order: the opens and the releases. *)
Definition handle_events {E : External} (t : list Event) : list Event :=
  filter (fun e => match e with
                   | EvOpen _ | EvRelease => true
                   | _ => false
                   end) t.

(** The computation neither opens nor releases a capture, whether it
    returns or raises. *)
Definition keeps_handles {E : External} {A} (m : M A) : Prop :=
  forall w, handle_events (trace (snd (m w))) = handle_events (trace w).

(** The analysis [process_video] runs for an analysis type. *)
Definition selected_pass {E : External} (analysis_type : string) (cap : Cap.t)
    (slot_config : list Slot.t) : M Results.t :=
  if String.eqb analysis_type "occupancy" then
    VideoProcessor._process_occupancy_analysis cap slot_config
  else if String.eqb analysis_type "duration" then
    VideoProcessor._process_duration_analysis cap slot_config
  else VideoProcessor._process_full_analysis cap slot_config.

(** The sampling intervals of the passes an analysis type runs, in order. *)
Definition pass_intervals (analysis_type : string) : list nat :=
  if String.eqb analysis_type "occupancy" then [30%nat]
  else if String.eqb analysis_type "duration" then [15%nat]
  else [30%nat; 15%nat].

(** The number of frames the passes with these intervals sample from a
    video. *)
Definition sampled_count {A} (intervals : list nat) (frames : list A) : nat :=
  list_sum (map (fun n => List.length (sampled n 0 frames)) intervals).

(** The world in which the analysis of [process_video] starts: the file
    validated, the capture of the run opened and the frame total stored. *)
Definition pass_start {E : External} (w : World) (video_path : string)
    (file : VideoFile) : World :=
  mkWorld _ (fs w) (model_loaded w) (rng w) (rng_pos w)
          (py_int (prop_frame_count file)) (processed_frames w)
          ((trace w ++ validation_io video_path) ++ [EvOpen video_path]).

(** ** The overlap utility in binary64 arithmetic *)

Module Float64.
(** A rectangle [(x, y, width, height)] of Python floats. *)
Definition Box : Type := (float * float * float * float)%type.

(** [max(a, b)] and [min(a, b)]: Python keeps the first argument unless
    the second is strictly greater (smaller). *)
Definition max (a b : float) : float := if PrimFloat.ltb a b then b else a.

Definition min (a b : float) : float := if PrimFloat.ltb b a then b else a.

(** [a / b] on floats raises [ZeroDivisionError] on a zero divisor. *)
Definition pydiv (a b : float) : result float :=
  if PrimFloat.eqb b 0 then Raise ZeroDivisionError else Ok (a / b)%float.

(** [utils.calculate_iou] *)
Definition calculate_iou (box1 box2 : Box) : result float :=
  let '(x1, y1, w1, h1) := box1 in
  let '(x2, y2, w2, h2) := box2 in
  let left := max x1 x2 in
  let top := max y1 y2 in
  let right := min (x1 + w1) (x2 + w2) in
  let bottom := min (y1 + h1) (y2 + h2) in
  if PrimFloat.ltb left right && PrimFloat.ltb top bottom then
    let intersection := ((right - left) * (bottom - top))%float in
    let area1 := (w1 * h1)%float in
    let area2 := (w2 * h2)%float in
    let union := (area1 + area2 - intersection)%float in
    if PrimFloat.ltb 0 union then pydiv intersection union else Ok 0%float
  else Ok 0%float.

(** [VideoProcessor._calculate_overlap], the same text. *)
Definition _calculate_overlap (box1 box2 : Box) : result float :=
  let '(x1, y1, w1, h1) := box1 in
  let '(x2, y2, w2, h2) := box2 in
  let left := max x1 x2 in
  let top := max y1 y2 in
  let right := min (x1 + w1) (x2 + w2) in
  let bottom := min (y1 + h1) (y2 + h2) in
  if PrimFloat.ltb left right && PrimFloat.ltb top bottom then
    let intersection := ((right - left) * (bottom - top))%float in
    let area1 := (w1 * h1)%float in
    let area2 := (w2 * h2)%float in
    let union := (area1 + area2 - intersection)%float in
    if PrimFloat.ltb 0 union then pydiv intersection union else Ok 0%float
  else Ok 0%float.

(** The value lies in [[0, 1]]. *)
Definition in_unit (v : float) : bool := PrimFloat.leb 0 v && PrimFloat.leb v 1.
End Float64.

(** The rectangle [(0.1, 0.1, 0.2, 0.2)], of positive width and height. *)
#[warnings="-inexact-float"] Definition fifth_box : Float64.Box := (0.1, 0.1, 0.2, 0.2)%float.

(** ** A stand-in with a working model *)

(** The confidence the model gives the truck on a frame. *)
Definition busy_confidence (frame : nat) : Q :=
  if (frame =? 0)%nat then 0.6 else if (frame =? 30)%nat then 0.9 else 0.7.

(** The results of the inference on a frame: four boxes around
    [sample_slot], namely a car on the slot (confidence 0.5), a person on
    the slot (0.99), a truck on its upper four fifths (confidence depending
    on the frame) and a bus on its upper fifth (0.95). *)
Definition busy_results (frame : nat) : list (option (list YoloBox.t)) :=
  [Some [YoloBox.mk (0, 0, 10, 10) 0.5 2;
         YoloBox.mk (0, 0, 10, 10) 0.99 0;
         YoloBox.mk (0, 0, 10, 8) (busy_confidence frame) 7;
         YoloBox.mk (0, 0, 10, 2) 0.95 5]].

(** Images are numbered, every crop is flat and bright (image score 0),
    and the inference succeeds on every frame. *)
Definition busy_external : External :=
  {| Image := nat;
     shape := fun _ => (480%Z, 640%Z);
     crop := fun img _ _ _ _ => img;
     size := fun _ => 100%nat;
     edge_density := fun _ => 0;
     variance := fun _ => 0;
     mean_intensity := fun _ => 255;
     yolo := fun frame => Some (busy_results frame) |}.

(** What [detect_vehicles] returns on a frame of [busy_external]. *)
Definition busy_detections (frame : nat) : list Detection.t :=
  [Detection.mk (0, 0, 10, 10) 0.5 2 (Some "car"%string);
   Detection.mk (0, 0, 10, 8) (busy_confidence frame) 7 (Some "truck"%string);
   Detection.mk (0, 0, 10, 2) 0.95 5 (Some "bus"%string)].

Definition busy_world : @World busy_external :=
  @mkWorld busy_external (fun _ => None) true (fun _ => 0) 0 0 0 [].

Definition busy_cap (n : nat) : @Cap.t busy_external :=
  @Cap.mk busy_external (seq 0 n) 0.

(** The upper half of [sample_slot], and a slot away from every box. *)
Definition half_slot : Slot.t :=
  Slot.mk 2 "A2" (Coordinates.mk 0 0 10 5).

Definition far_slot : Slot.t :=
  Slot.mk 3 "A3" (Coordinates.mk 100 100 10 10).

(** ** Vocabulary of the sampling property *)

(** The visits of the duration pass to the slots with id [slot_id]: every
    observation with every slot of that id, in the order of the loops. *)
Definition slot_visits {E : External} (slot_config : list Slot.t)
    (obs : list Observation) (slot_id : Z) : list (Observation * Slot.t) :=
  flat_map (fun o => map (pair o)
                         (filter (fun slot => (Slot.id slot =? slot_id)%Z) slot_config))
           obs.

(** The timeline holds, visit by visit, the frame index with the
    classifier's verdict on the visited frame and slot. *)
Definition records_visits {E : External} (vis : list (Observation * Slot.t))
    (timeline : list TimelineEntry.t) : Prop :=
  Forall2 (fun visit e => entry_for (snd visit) (fst visit) e) vis timeline.

(** * Proofs *)

(** ** Numeric primitives *)

Lemma Qltb_lt (a b : Q) : Qltb a b = true <-> a < b.
Proof.
  unfold Qltb. rewrite negb_true_iff. split; intro Hlt.
  - apply Qnot_le_lt. intro Hle. apply Qle_bool_iff in Hle. congruence.
  - destruct (Qle_bool b a) eqn:E; [|reflexivity].
    apply Qle_bool_iff in E. exfalso. apply (Qlt_not_le _ _ Hlt E).
Qed.

Lemma Qltb_ge (a b : Q) : Qltb a b = false <-> b <= a.
Proof.
  unfold Qltb. rewrite negb_false_iff. apply Qle_bool_iff.
Qed.

Lemma pydiv_pos (a b : Q) : 0 < b -> pydiv a b = Ok (a / b).
Proof.
  intro Hb. unfold pydiv. destruct (Qeq_bool b 0) eqn:E; [|reflexivity].
  apply Qeq_bool_eq in E. rewrite E in Hb. exfalso. apply (Qlt_irrefl _ Hb).
Qed.

(** ** The geometric overlap utility *)

Lemma meets_bounds (a b : Box) :
  meets a b ->
  0 < intersection_area a b /\
  intersection_area a b <= area a /\
  intersection_area a b <= area b /\
  0 < area a + area b - intersection_area a b.
Proof.
  destruct a as [[[x1 y1] w1] h1], b as [[[x2 y2] w2] h2].
  unfold meets, intersection_area, area, intersection_edges. intros [Hx Hy].
  pose proof (Q.le_max_l x1 x2). pose proof (Q.le_max_r x1 x2).
  pose proof (Q.le_max_l y1 y2). pose proof (Q.le_max_r y1 y2).
  pose proof (Q.le_min_l (x1 + w1) (x2 + w2)).
  pose proof (Q.le_min_r (x1 + w1) (x2 + w2)).
  pose proof (Q.le_min_l (y1 + h1) (y2 + h2)).
  pose proof (Q.le_min_r (y1 + h1) (y2 + h2)).
  set (dx := Qmin (x1 + w1) (x2 + w2) - Qmax x1 x2) in *.
  set (dy := Qmin (y1 + h1) (y2 + h2) - Qmax y1 y2) in *.
  assert (0 < dx) by (unfold dx; lra).
  assert (0 < dy) by (unfold dy; lra).
  assert (dx <= w1) by (unfold dx; lra).
  assert (dx <= w2) by (unfold dx; lra).
  assert (dy <= h1) by (unfold dy; lra).
  assert (dy <= h2) by (unfold dy; lra).
  assert (0 < dx * dy) by nra.
  assert (dx * dy <= w1 * h1) by nra.
  assert (dx * dy <= w2 * h2) by nra.
  repeat split; try assumption. lra.
Qed.

Lemma calculate_iou_meets (a b : Box) :
  meets a b -> calculate_iou a b = Ok (iou_value a b).
Proof.
  intro Hm. pose proof (meets_bounds a b Hm) as (_ & _ & _ & Hu).
  destruct a as [[[x1 y1] w1] h1], b as [[[x2 y2] w2] h2].
  unfold meets, iou_value, intersection_area, area, intersection_edges in *.
  destruct Hm as [Hx Hy]. unfold calculate_iou.
  apply Qltb_lt in Hx. apply Qltb_lt in Hy. rewrite Hx, Hy. cbn [andb].
  cbv zeta. pose proof Hu as Hu'. apply Qltb_lt in Hu'. rewrite Hu'.
  rewrite (pydiv_pos _ _ Hu). reflexivity.
Qed.

Lemma calculate_iou_apart (a b : Box) :
  ~ meets a b -> calculate_iou a b = Ok 0.
Proof.
  destruct a as [[[x1 y1] w1] h1], b as [[[x2 y2] w2] h2].
  unfold meets, intersection_edges, calculate_iou. intro Hn.
  destruct (Qltb (Qmax x1 x2) (Qmin (x1 + w1) (x2 + w2))) eqn:Hx; [|reflexivity].
  destruct (Qltb (Qmax y1 y2) (Qmin (y1 + h1) (y2 + h2))) eqn:Hy; [|reflexivity].
  exfalso. apply Hn. split; apply Qltb_lt; assumption.
Qed.

Lemma iou_value_bounds (a b : Box) :
  meets a b -> 0 < iou_value a b /\ iou_value a b <= 1.
Proof.
  intro Hm. destruct (meets_bounds a b Hm) as (Hi & Ha1 & Ha2 & Hu).
  unfold iou_value. split.
  - apply Qlt_shift_div_l; [assumption|]. lra.
  - apply Qle_shift_div_r; [assumption|]. lra.
Qed.

Lemma meets_dec (a b : Box) : {meets a b} + {~ meets a b}.
Proof.
  destruct a as [[[x1 y1] w1] h1], b as [[[x2 y2] w2] h2].
  unfold meets, intersection_edges.
  destruct (Qlt_le_dec (Qmax x1 x2) (Qmin (x1 + w1) (x2 + w2))) as [Hx|Hx];
    [destruct (Qlt_le_dec (Qmax y1 y2) (Qmin (y1 + h1) (y2 + h2))) as [Hy|Hy]|].
  - left. split; assumption.
  - right. intros [_ Hlt]. apply (Qlt_not_le _ _ Hlt Hy).
  - right. intros [Hlt _]. apply (Qlt_not_le _ _ Hlt Hx).
Qed.

Lemma overlap_value_meets (a b : Box) :
  meets a b -> overlap_value a b = iou_value a b.
Proof.
  unfold overlap_value, meets.
  destruct (intersection_edges a b) as [[[l t] r] bt]. intros [Hx Hy].
  apply Qltb_lt in Hx. apply Qltb_lt in Hy. rewrite Hx, Hy. reflexivity.
Qed.

Lemma overlap_value_apart (a b : Box) :
  ~ meets a b -> overlap_value a b = 0.
Proof.
  unfold overlap_value, meets.
  destruct (intersection_edges a b) as [[[l t] r] bt]. intro Hn.
  destruct (Qltb l r) eqn:Hx; [|reflexivity].
  destruct (Qltb t bt) eqn:Hy; [|reflexivity].
  exfalso. apply Hn. split; apply Qltb_lt; assumption.
Qed.

(** The code never raises: it returns the overlap as a number. *)
Lemma calculate_iou_value (a b : Box) : calculate_iou a b = Ok (overlap_value a b).
Proof.
  destruct (meets_dec a b) as [Hm|Hm].
  - rewrite (overlap_value_meets a b Hm). apply calculate_iou_meets, Hm.
  - rewrite (overlap_value_apart a b Hm). apply calculate_iou_apart, Hm.
Qed.

Lemma overlap_value_bounds (a b : Box) :
  0 <= overlap_value a b /\ overlap_value a b <= 1.
Proof.
  destruct (meets_dec a b) as [Hm|Hm].
  - rewrite (overlap_value_meets a b Hm).
    destruct (iou_value_bounds a b Hm). split; [apply Qlt_le_weak|]; assumption.
  - rewrite (overlap_value_apart a b Hm). split; [apply Qle_refl | discriminate].
Qed.

Lemma meets_sym (a b : Box) : meets a b -> meets b a.
Proof.
  destruct a as [[[x1 y1] w1] h1], b as [[[x2 y2] w2] h2].
  unfold meets, intersection_edges.
  rewrite (Q.max_comm x2 x1), (Q.max_comm y2 y1).
  rewrite (Q.min_comm (x2 + w2) (x1 + w1)), (Q.min_comm (y2 + h2) (y1 + h1)).
  tauto.
Qed.

Lemma iou_value_sym (a b : Box) : iou_value a b == iou_value b a.
Proof.
  destruct a as [[[x1 y1] w1] h1], b as [[[x2 y2] w2] h2].
  unfold iou_value, intersection_area, area, intersection_edges.
  rewrite (Q.max_comm x2 x1), (Q.max_comm y2 y1).
  rewrite (Q.min_comm (x2 + w2) (x1 + w1)), (Q.min_comm (y2 + h2) (y1 + h1)).
  rewrite (Qplus_comm (w2 * h2) (w1 * h1)). reflexivity.
Qed.

Lemma overlap_value_sym (a b : Box) : overlap_value a b == overlap_value b a.
Proof.
  destruct (meets_dec a b) as [Hm|Hm].
  - rewrite (overlap_value_meets a b Hm).
    rewrite (overlap_value_meets b a (meets_sym a b Hm)). apply iou_value_sym.
  - rewrite (overlap_value_apart a b Hm). rewrite overlap_value_apart; [reflexivity|].
    intro Hm'. apply Hm, meets_sym, Hm'.
Qed.

Lemma meets_positive (a b : Box) : meets a b -> positive_box a /\ positive_box b.
Proof.
  destruct a as [[[x1 y1] w1] h1], b as [[[x2 y2] w2] h2].
  unfold meets, intersection_edges, positive_box. intros [Hx Hy].
  pose proof (Q.le_max_l x1 x2). pose proof (Q.le_max_r x1 x2).
  pose proof (Q.le_max_l y1 y2). pose proof (Q.le_max_r y1 y2).
  pose proof (Q.le_min_l (x1 + w1) (x2 + w2)).
  pose proof (Q.le_min_r (x1 + w1) (x2 + w2)).
  pose proof (Q.le_min_l (y1 + h1) (y2 + h2)).
  pose proof (Q.le_min_r (y1 + h1) (y2 + h2)).
  repeat split; lra.
Qed.

Lemma meets_intersecting (a b : Box) : meets a b -> intersecting a b.
Proof.
  destruct a as [[[x1 y1] w1] h1], b as [[[x2 y2] w2] h2].
  unfold meets, intersection_edges, intersecting, inside. intros [Hx Hy].
  pose proof (Q.le_max_l x1 x2). pose proof (Q.le_max_r x1 x2).
  pose proof (Q.le_max_l y1 y2). pose proof (Q.le_max_r y1 y2).
  pose proof (Q.le_min_l (x1 + w1) (x2 + w2)).
  pose proof (Q.le_min_r (x1 + w1) (x2 + w2)).
  pose proof (Q.le_min_l (y1 + h1) (y2 + h2)).
  pose proof (Q.le_min_r (y1 + h1) (y2 + h2)).
  exists ((Qmax x1 x2 + Qmin (x1 + w1) (x2 + w2)) / 2).
  exists ((Qmax y1 y2 + Qmin (y1 + h1) (y2 + h2)) / 2).
  set (l := Qmax x1 x2) in *. set (r := Qmin (x1 + w1) (x2 + w2)) in *.
  set (t := Qmax y1 y2) in *. set (bt := Qmin (y1 + h1) (y2 + h2)) in *.
  assert (Hmx : l < (l + r) / 2 /\ (l + r) / 2 < r).
  { split; [apply Qlt_shift_div_l | apply Qlt_shift_div_r]; lra. }
  assert (Hmy : t < (t + bt) / 2 /\ (t + bt) / 2 < bt).
  { split; [apply Qlt_shift_div_l | apply Qlt_shift_div_r]; lra. }
  destruct Hmx, Hmy. repeat split; lra.
Qed.

Lemma positive_meets_self (a : Box) : positive_box a -> meets a a.
Proof.
  destruct a as [[[x1 y1] w1] h1]. unfold positive_box, meets, intersection_edges.
  intros [Hw Hh].
  rewrite (Q.max_l x1 x1), (Q.max_l y1 y1) by apply Qle_refl.
  rewrite (Q.min_l (x1 + w1) (x1 + w1)), (Q.min_l (y1 + h1) (y1 + h1)) by apply Qle_refl.
  split; lra.
Qed.

Lemma iou_value_self (a : Box) : positive_box a -> iou_value a a == 1.
Proof.
  destruct a as [[[x1 y1] w1] h1].
  unfold positive_box, iou_value, intersection_area, area, intersection_edges.
  intros [Hw Hh].
  rewrite (Q.max_l x1 x1), (Q.max_l y1 y1) by apply Qle_refl.
  rewrite (Q.min_l (x1 + w1) (x1 + w1)), (Q.min_l (y1 + h1) (y1 + h1)) by apply Qle_refl.
  assert (0 < w1 * h1) by nra.
  field. lra.
Qed.

Lemma calculate_iou_contract : overlap_contract calculate_iou.
Proof.
  unfold overlap_contract. repeat split.
  - intros a b. exists (overlap_value a b), (overlap_value b a).
    destruct (overlap_value_bounds a b).
    repeat split; try apply calculate_iou_value; try assumption.
    apply overlap_value_sym.
  - intros a Ha. exists (iou_value a a). split.
    + apply calculate_iou_meets, positive_meets_self, Ha.
    + apply iou_value_self, Ha.
  - intros a b Hn. apply calculate_iou_apart. intro Hm.
    apply Hn, meets_intersecting, Hm.
  - intros a b Hd. apply calculate_iou_apart. intro Hm.
    destruct (meets_positive a b Hm) as [Ha Hb].
    destruct a as [[[x1 y1] w1] h1], b as [[[x2 y2] w2] h2].
    unfold positive_box, degenerate_box in *. lra.
Qed.

Lemma video_overlap_is_iou (a b : Box) :
  VideoProcessor._calculate_overlap a b = calculate_iou a b.
Proof. reflexivity. Qed.

Lemma detector_overlap_is_iou (a b : Box) :
  ParkingDetector._calculate_overlap a b = calculate_iou a b.
Proof. reflexivity. Qed.

(** C7. In the binary64 arithmetic the code computes in, the overlap of
    the rectangle [(0.1, 0.1, 0.2, 0.2)] (positive width and height) with
    itself is 1.0000000000000004 in both copies of the utility,
    [utils.calculate_iou] and [VideoProcessor._calculate_overlap]: the
    value is above 1, so it is neither 1 nor within [[0, 1]].  The
    rectangles [(0.1, 0, 0.2, 1)] and [(0.3, 0, 1, 1)], which touch along
    an edge in decimal, get the positive overlap 4.6e-17.  In exact
    arithmetic the same text gives 1 and 0 on these inputs. *)
#[warnings="-inexact-float"] Theorem overlap_exceeds_one_in_binary64 :
  Float64.calculate_iou fifth_box fifth_box = Ok 1.0000000000000004%float /\
  Float64._calculate_overlap fifth_box fifth_box = Ok 1.0000000000000004%float /\
  PrimFloat.ltb 1 1.0000000000000004 = true /\
  Float64.in_unit 1.0000000000000004 = false /\
  Float64.calculate_iou (0.1, 0, 0.2, 1)%float (0.3, 0, 1, 1)%float
  = Ok 4.6259292692714858e-17%float /\
  PrimFloat.ltb 0 4.6259292692714858e-17 = true /\
  (exists v, calculate_iou (0.1, 0.1, 0.2, 0.2) (0.1, 0.1, 0.2, 0.2) = Ok v /\ v == 1) /\
  calculate_iou (0.1, 0, 0.2, 1) (0.3, 0, 1, 1) = Ok 0.
Proof.
  split; [vm_compute; reflexivity|]. split; [vm_compute; reflexivity|].
  split; [vm_compute; reflexivity|]. split; [vm_compute; reflexivity|].
  split; [vm_compute; reflexivity|]. split; [vm_compute; reflexivity|].
  split.
  - destruct calculate_iou_contract as (_ & Hself & _).
    apply Hself. split; reflexivity.
  - vm_compute. reflexivity.
Qed.

(** ** The duration/stability estimator *)

Lemma len_cons_pos {A} (a : A) (l : list A) : 0 < len (a :: l).
Proof.
  unfold len, Qlt. cbn [Qnum Qden inject_Z]. rewrite Z.mul_1_r.
  cbn [List.length]. lia.
Qed.

Lemma count_changes_flips (a : TimelineEntry.t) (rest : list TimelineEntry.t) (n : nat) :
  VideoProcessor.count_changes (TimelineEntry.is_occupied a) rest n
  = (n + adjacent_flips (a :: rest))%nat.
Proof.
  revert a n. induction rest as [|b rest IH]; intros a n.
  - cbn. lia.
  - cbn [VideoProcessor.count_changes].
    change (adjacent_flips (a :: b :: rest))
      with ((if Bool.eqb (TimelineEntry.is_occupied a) (TimelineEntry.is_occupied b)
             then 0 else 1) + adjacent_flips (b :: rest))%nat.
    destruct (TimelineEntry.is_occupied a) eqn:Ea,
             (TimelineEntry.is_occupied b) eqn:Eb; cbn [Bool.eqb negb].
    + rewrite <- Eb, IH. lia.
    + rewrite <- Eb, IH. lia.
    + rewrite <- Eb, IH. lia.
    + rewrite <- Eb, IH. lia.
Qed.

Lemma filter_length_occupied (timeline : list TimelineEntry.t) :
  List.length (filter TimelineEntry.is_occupied timeline) = occupied_entries timeline.
Proof.
  unfold occupied_entries. induction timeline as [|a tl IH]; [reflexivity|].
  cbn [filter map count_occ]. destruct (TimelineEntry.is_occupied a).
  - destruct (bool_dec true true); [|congruence]. cbn. rewrite IH. reflexivity.
  - destruct (bool_dec false true); [congruence|]. exact IH.
Qed.

Lemma majority_test (n k : nat) :
  Qltb (inject_Z (Z.of_nat n) / 2) (VideoProcessor.of_nat k) = (n <? 2 * k)%nat.
Proof.
  unfold VideoProcessor.of_nat.
  destruct (n <? 2 * k)%nat eqn:E.
  - apply Nat.ltb_lt in E. apply Qltb_lt.
    apply Qlt_shift_div_r; [reflexivity|].
    unfold Qlt, Qmult. cbn. lia.
  - apply Nat.ltb_ge in E. apply Qltb_ge.
    apply Qle_shift_div_l; [reflexivity|].
    unfold Qle, Qmult. cbn. lia.
Qed.

Lemma analyze_slot_duration_eq (timeline : list TimelineEntry.t) :
  VideoProcessor._analyze_slot_duration timeline = Ok (reference_estimate timeline).
Proof.
  destruct timeline as [|a tl]; [reflexivity|].
  unfold VideoProcessor._analyze_slot_duration, reference_estimate.
  rewrite count_changes_flips, Nat.add_0_l.
  rewrite !(pydiv_pos _ _ (len_cons_pos a tl)). cbn [rbind].
  rewrite filter_length_occupied.
  change (len (a :: tl) / 2) with (inject_Z (Z.of_nat (List.length (a :: tl))) / 2).
  rewrite majority_test.
  unfold mean_confidence.
  destruct (List.length (a :: tl) <? 2 * occupied_entries (a :: tl))%nat;
    [|reflexivity].
  cbn [andb].
  destruct (Qltb 0.8 (Qmax 0 (1 - VideoProcessor.of_nat (adjacent_flips (a :: tl)) / len (a :: tl))));
    reflexivity.
Qed.

(** C1. For every timeline the estimator returns exactly the reference
    estimate: [changes] counts the adjacent entries whose [is_occupied]
    differs, [stability = max(0, 1 - changes/len)], [final_status] holds iff
    strictly more than half of the entries are occupied,
    [predicted_duration] is 3600 when occupied with stability above 0.8,
    1800 when occupied otherwise and 0 when unoccupied, [confidence] is
    the mean confidence times the stability; seven entries of which four
    are occupied give [final_status = true]; the empty timeline gives
    stability 0, unoccupied, confidence 0.5 and duration 1800. *)
Theorem analyze_slot_duration_reference :
  (forall timeline,
      VideoProcessor._analyze_slot_duration timeline
      = Ok (reference_estimate timeline))
  /\ (forall timeline,
         List.length timeline = 7%nat -> occupied_entries timeline = 4%nat ->
         exists r, VideoProcessor._analyze_slot_duration timeline = Ok r
                   /\ DurationAnalysis.final_status r = true)
  /\ VideoProcessor._analyze_slot_duration []
     = Ok (DurationAnalysis.mk false 0.5 1800 0 0).
Proof.
  split; [exact analyze_slot_duration_eq|]. split; [|reflexivity].
  intros timeline Hlen Hocc. exists (reference_estimate timeline).
  split; [apply analyze_slot_duration_eq|].
  destruct timeline as [|a tl]; [discriminate|].
  unfold reference_estimate. cbn [DurationAnalysis.final_status].
  rewrite Hlen, Hocc. reflexivity.
Qed.

Lemma analyze_slot_duration_reference_witness :
  exists r, VideoProcessor._analyze_slot_duration sample_timeline = Ok r
            /\ DurationAnalysis.final_status r = true.
Proof.
  apply (proj1 (proj2 analyze_slot_duration_reference)); reflexivity.
Defined.

(** ** The slot occupancy classifier *)

Lemma scan_detections_step (slot : Slot.t) (d : Detection.t)
    (rest : list Detection.t) (st : VideoProcessor.ScanState) :
  VideoProcessor.scan_detections (slot_box slot) (d :: rest) st
  = if Qltb 0.5 (slot_overlap slot d) && Qltb (snd (fst (fst st))) (Detection.confidence d)
    then VideoProcessor.scan_detections (slot_box slot) rest (chosen d)
    else VideoProcessor.scan_detections (slot_box slot) rest st.
Proof.
  destruct st as [[[is_occupied best] vt] db].
  cbn [VideoProcessor.scan_detections fst snd].
  unfold slot_overlap, chosen.
  destruct (Detection.bbox d) as [[[dx dy] dw] dh] eqn:Eb.
  change (VideoProcessor._calculate_overlap (slot_box slot) (dx, dy, dw, dh))
    with (calculate_iou (slot_box slot) (dx, dy, dw, dh)).
  rewrite calculate_iou_value. reflexivity.
Qed.

Lemma scan_detections_spec (slot : Slot.t) (dets : list Detection.t) :
  forall st : VideoProcessor.ScanState,
  exists st',
    VideoProcessor.scan_detections (slot_box slot) dets st = Ok st' /\
    ((st' = st /\
      forall e, In e dets -> qualifies slot e ->
                Detection.confidence e <= snd (fst (fst st)))
     \/
     (exists l1 d l2,
         dets = l1 ++ d :: l2 /\ qualifies slot d /\
         snd (fst (fst st)) < Detection.confidence d /\
         (forall e, In e l1 -> qualifies slot e ->
                    Detection.confidence e < Detection.confidence d) /\
         (forall e, In e l2 -> qualifies slot e ->
                    Detection.confidence e <= Detection.confidence d) /\
         st' = chosen d)).
Proof.
  induction dets as [|d rest IH]; intro st.
  - exists st. split; [reflexivity|]. left. split; [reflexivity|]. intros e [].
  - rewrite scan_detections_step.
    destruct (Qltb 0.5 (slot_overlap slot d)) eqn:Ho;
      [destruct (Qltb (snd (fst (fst st))) (Detection.confidence d)) eqn:Hc|];
      cbn [andb].
    + apply Qltb_lt in Ho, Hc.
      destruct (IH (chosen d)) as (st' & Hrun & [[Heq Hall] | Hex]).
      * exists st'. split; [exact Hrun|]. right.
        exists [], d, rest. repeat split; try assumption.
        intros e [].
      * destruct Hex as (l1 & d' & l2 & Hsplit & Hq & Hgt & Hl1 & Hl2 & Heq).
        cbn [chosen fst snd] in Hgt.
        exists st'. split; [exact Hrun|]. right.
        exists (d :: l1), d', l2. rewrite Hsplit. repeat split; try assumption.
        -- eapply Qlt_trans; eassumption.
        -- intros e [->|Hin] Hqe; [exact Hgt | apply Hl1; assumption].
    + apply Qltb_lt in Ho. apply Qltb_ge in Hc.
      destruct (IH st) as (st' & Hrun & [[Heq Hall] | Hex]).
      * exists st'. split; [exact Hrun|]. left. split; [exact Heq|].
        intros e [->|Hin] Hqe; [exact Hc | apply Hall; assumption].
      * destruct Hex as (l1 & d' & l2 & Hsplit & Hq & Hgt & Hl1 & Hl2 & Heq).
        exists st'. split; [exact Hrun|]. right.
        exists (d :: l1), d', l2. rewrite Hsplit. repeat split; try assumption.
        intros e [->|Hin] Hqe; [|apply Hl1; assumption].
        eapply Qle_lt_trans; eassumption.
    + apply Qltb_ge in Ho.
      assert (Hnq : ~ qualifies slot d).
      { unfold qualifies. intro Hq. apply (Qlt_not_le _ _ Hq Ho). }
      destruct (IH st) as (st' & Hrun & [[Heq Hall] | Hex]).
      * exists st'. split; [exact Hrun|]. left. split; [exact Heq|].
        intros e [->|Hin] Hqe; [contradiction | apply Hall; assumption].
      * destruct Hex as (l1 & d' & l2 & Hsplit & Hq & Hgt & Hl1 & Hl2 & Heq).
        exists st'. split; [exact Hrun|]. right.
        exists (d :: l1), d', l2. rewrite Hsplit. repeat split; try assumption.
        intros e [->|Hin] Hqe; [contradiction | apply Hl1; assumption].
Qed.

Section Classifier.
Context {E : External}.

Lemma analyze_slot_occupancy_unfold (frame : Image) (slot : Slot.t)
    (dets : list Detection.t) :
  VideoProcessor._analyze_slot_occupancy frame slot dets
  = rbind (VideoProcessor.scan_detections (slot_box slot) dets (false, 0, None, None))
      (fun state =>
         let '(is_occupied, best_confidence, vehicle_type, detection_box) := state in
         let '(is_occupied, best_confidence) :=
           if negb is_occupied
           then (Qltb 0.6 (fallback_score frame slot), fallback_score frame slot)
           else (is_occupied, best_confidence) in
         Ok (SlotDetection.mk (Slot.id slot) (Slot.slot_number slot)
               is_occupied best_confidence
               (Some vehicle_type) (Some detection_box) None None None)).
Proof. reflexivity. Qed.

(** The two ways a verdict comes about. *)
Lemma analyze_slot_occupancy_cases (frame : Image) (slot : Slot.t)
    (dets : list Detection.t) :
  exists v,
    VideoProcessor._analyze_slot_occupancy frame slot dets = Ok v /\
    SlotDetection.slot_id v = Slot.id slot /\
    SlotDetection.slot_number v = Slot.slot_number slot /\
    ((exists l1 d l2,
         dets = l1 ++ d :: l2 /\ qualifies slot d /\
         0 < Detection.confidence d /\
         (forall e, In e l1 -> qualifies slot e ->
                    Detection.confidence e < Detection.confidence d) /\
         (forall e, In e l2 -> qualifies slot e ->
                    Detection.confidence e <= Detection.confidence d) /\
         records v d)
     \/
     ((forall e, In e dets -> qualifies slot e -> Detection.confidence e <= 0) /\
      SlotDetection.vehicle_type v = Some None /\
      SlotDetection.detection_box v = Some None /\
      SlotDetection.confidence v = fallback_score frame slot /\
      SlotDetection.is_occupied v = Qltb 0.6 (fallback_score frame slot))).
Proof.
  rewrite analyze_slot_occupancy_unfold.
  destruct (scan_detections_spec slot dets (false, 0, None, None))
    as (st' & Hrun & [[Heq Hall] | Hex]); rewrite Hrun; cbn [rbind].
  - subst st'. cbn [negb fst snd] in *. eexists. split; [reflexivity|].
    cbn. split; [reflexivity|]. split; [reflexivity|].
    right. repeat split. exact Hall.
  - destruct Hex as (l1 & d & l2 & Hsplit & Hq & Hgt & Hl1 & Hl2 & Heq).
    subst st'. unfold chosen. cbn [negb fst snd] in *.
    eexists. split; [reflexivity|].
    cbn. split; [reflexivity|]. split; [reflexivity|].
    left. exists l1, d, l2. repeat split; assumption.
Qed.
End Classifier.

(** *** The region-association variant *)

Lemma region_vehicles_spec (region : Slot.t) (dets : list Detection.t) :
  ParkingDetector.region_vehicles region dets
  = Ok (map (fun d => RegionVehicle.mk d (slot_overlap region d)
                        (Slot.id region) (Slot.slot_number region))
            (filter (fun d => Qltb 0.3 (slot_overlap region d)) dets)).
Proof.
  induction dets as [|d rest IH]; [reflexivity|].
  cbn [ParkingDetector.region_vehicles filter map].
  destruct (Detection.bbox d) as [[[dx dy] dw] dh] eqn:Eb.
  assert (Hov : ParkingDetector._calculate_overlap (slot_box region) (dx, dy, dw, dh)
                = Ok (slot_overlap region d)).
  { unfold slot_overlap. rewrite Eb. apply calculate_iou_value. }
  unfold slot_box in Hov. rewrite Hov. cbn [rbind]. rewrite IH. cbn [rbind].
  destruct (Qltb 0.3 (slot_overlap region d)); reflexivity.
Qed.

Lemma max_by_overlap_spec (others : list RegionVehicle.t) :
  forall first,
    In (ParkingDetector.max_by_overlap first others) (first :: others) /\
    forall v, In v (first :: others) ->
              RegionVehicle.overlap v
              <= RegionVehicle.overlap (ParkingDetector.max_by_overlap first others).
Proof.
  unfold ParkingDetector.max_by_overlap.
  induction others as [|c others IH]; intro first.
  - cbn. split; [left; reflexivity|]. intros v [<-|[]]. apply Qle_refl.
  - cbn [fold_left].
    destruct (Qltb (RegionVehicle.overlap first) (RegionVehicle.overlap c)) eqn:E.
    + apply Qltb_lt in E. destruct (IH c) as [Hin Hmax]. split.
      * destruct Hin as [Heq|Hin]; [right; left; exact Heq | right; right; exact Hin].
      * intros v [<-|[<-|Hv]].
        -- eapply Qle_trans; [apply Qlt_le_weak, E|]. apply Hmax. left. reflexivity.
        -- apply Hmax. left. reflexivity.
        -- apply Hmax. right. exact Hv.
    + apply Qltb_ge in E. destruct (IH first) as [Hin Hmax]. split.
      * destruct Hin as [Heq|Hin]; [left; exact Heq | right; right; exact Hin].
      * intros v [<-|[<-|Hv]].
        -- apply Hmax. left. reflexivity.
        -- eapply Qle_trans; [exact E|]. apply Hmax. left. reflexivity.
        -- apply Hmax. right. exact Hv.
Qed.

Lemma region_detection_spec (region : Slot.t) (dets : list Detection.t) :
  exists r, ParkingDetector.region_detection region dets = Ok r
            /\ region_verdict region dets r.
Proof.
  unfold ParkingDetector.region_detection. rewrite region_vehicles_spec.
  cbn [rbind].
  set (f := fun d => RegionVehicle.mk d (slot_overlap region d)
                       (Slot.id region) (Slot.slot_number region)).
  set (p := fun d => Qltb 0.3 (slot_overlap region d)).
  destruct (map f (filter p dets)) as [|first others] eqn:Ev.
  - eexists. split; [reflexivity|]. unfold region_verdict. cbn.
    repeat split; try discriminate.
    intros (d & Hin & Hd). exfalso.
    assert (Hf : In d (filter p dets)).
    { apply filter_In. split; [exact Hin|]. apply Qltb_lt, Hd. }
    apply (in_map f) in Hf. rewrite Ev in Hf. exact Hf.
  - eexists. split; [reflexivity|]. unfold region_verdict. cbn.
    destruct (max_by_overlap_spec others first) as [Hin Hmax].
    rewrite <- Ev in Hin.
    apply in_map_iff in Hin. destruct Hin as (b & Hb & Hbin).
    apply filter_In in Hbin. destruct Hbin as [Hbin Hbp].
    apply Qltb_lt in Hbp.
    assert (Hex : exists d, In d dets /\ 0.3 < slot_overlap region d)
      by (exists b; split; assumption).
    repeat split; try discriminate; try (intros _; exact Hex).
    intros _. exists (ParkingDetector.max_by_overlap first others).
    rewrite <- Hb. cbn. repeat split; try assumption.
    intros d Hd.
    destruct (Qlt_le_dec 0.3 (slot_overlap region d)) as [Hq|Hq].
    + assert (Hf : In (f d) (first :: others)).
      { rewrite <- Ev. apply in_map, filter_In. split; [exact Hd|].
        apply Qltb_lt, Hq. }
      apply Hmax in Hf. rewrite <- Hb in Hf. exact Hf.
    + eapply Qle_trans; [exact Hq|]. apply Qlt_le_weak, Hbp.
Qed.

Lemma region_detections_spec (regions : list Slot.t) (dets : list Detection.t) :
  exists rs, ParkingDetector.region_detections regions dets = Ok rs
             /\ Forall2 (fun region r => region_verdict region dets r) regions rs.
Proof.
  induction regions as [|region rest IH].
  - exists []. split; [reflexivity | constructor].
  - destruct (region_detection_spec region dets) as (r & Hr & Hv).
    destruct IH as (rs & Hrs & Hall).
    exists (r :: rs). cbn [ParkingDetector.region_detections].
    rewrite Hr. cbn [rbind]. rewrite Hrs. cbn [rbind].
    split; [reflexivity | constructor; assumption].
Qed.

(** C2 (amended). On the primary path of the classifier a verdict is
    decided by a detection iff some detection overlaps the slot by more
    than 0.5 and has positive confidence; the detection recorded then is
    the first one of highest confidence among the detections that overlap
    by more than 0.5 (not the one of highest overlap).  The
    region-association variant marks a region occupied iff some detection
    overlaps it by more than 0.3 and reports a detection of greatest
    overlap. *)
Theorem classifier_keeps_most_confident :
  (forall (E : External) (frame : Image) (slot : Slot.t) (dets : list Detection.t),
      exists v,
        VideoProcessor._analyze_slot_occupancy frame slot dets = Ok v /\
        (by_detection v <->
         exists d, In d dets /\ qualifies slot d /\ 0 < Detection.confidence d) /\
        (by_detection v ->
         exists l1 d l2,
           dets = l1 ++ d :: l2 /\ qualifies slot d /\ records v d /\
           (forall e, In e l1 -> qualifies slot e ->
                      Detection.confidence e < Detection.confidence d) /\
           (forall e, In e l2 -> qualifies slot e ->
                      Detection.confidence e <= Detection.confidence d)))
  /\
  (forall (E : External) (frame : Image) (regions : list Slot.t)
          (w w' : World) (dets : list Detection.t),
      ParkingDetector.detect_vehicles frame w = (Ok dets, w') ->
      exists rs,
        ParkingDetector.detect_in_regions frame regions w = (Ok rs, w') /\
        Forall2 (fun region r => region_verdict region dets r) regions rs).
Proof.
  split.
  - intros E frame slot dets.
    destruct (analyze_slot_occupancy_cases frame slot dets)
      as (v & Hv & _ & _ & [Hprim | Hfall]).
    + destruct Hprim as (l1 & d & l2 & Hsplit & Hq & Hpos & Hl1 & Hl2 & Hrec).
      exists v. split; [exact Hv|].
      assert (Hby : by_detection v).
      { exists (Detection.bbox d). apply Hrec. }
      split.
      * split; [|intros _; exact Hby].
        intros _. exists d. split; [|split; assumption].
        rewrite Hsplit. apply in_elt.
      * intros _. exists l1, d, l2. repeat split; try assumption; apply Hrec.
    + destruct Hfall as (Hall & Hvt & Hdb & _ & _).
      exists v. split; [exact Hv|].
      assert (Hnot : ~ by_detection v).
      { intros [b Hb]. rewrite Hdb in Hb. discriminate. }
      split.
      * split; [intro Hby; contradiction|].
        intros (d & Hin & Hq & Hpos). exfalso.
        apply (Qlt_not_le _ _ Hpos). apply Hall; assumption.
      * intro Hby. contradiction.
  - intros E frame regions w w' dets Hdet.
    destruct (region_detections_spec regions dets) as (rs & Hrs & Hall).
    exists rs. split; [|exact Hall].
    unfold ParkingDetector.detect_in_regions, bind. rewrite Hdet.
    unfold lift. rewrite Hrs. reflexivity.
Qed.

Lemma classifier_picks_lower_overlap :
  ~ representative_has_highest_overlap.
Proof.
  intro Hall.
  assert (Hle : slot_overlap sample_slot exact_detection
                <= slot_overlap sample_slot partial_detection).
  { apply (Hall sample_external 0%nat sample_slot
                  [exact_detection; partial_detection]
                  (SlotDetection.mk 1 "A1" true 0.9 (Some (Some "truck"%string))
                     (Some (Some (0, 0, 10, 8))) None None None)
                  partial_detection).
    - vm_compute. reflexivity.
    - right. left. reflexivity.
    - repeat split.
    - left. reflexivity. }
  vm_compute in Hle. apply Hle. reflexivity.
Qed.

(** A detection of confidence 0 never decides a verdict, whatever its
    overlap. *)
Lemma zero_confidence_detection_is_ignored :
  exists v,
    @VideoProcessor._analyze_slot_occupancy sample_external 0%nat sample_slot
      [Detection.mk (0, 0, 10, 10) 0 2 (Some "car"%string)] = Ok v /\
    qualifies sample_slot (Detection.mk (0, 0, 10, 10) 0 2 (Some "car"%string)) /\
    SlotDetection.detection_box v = Some None.
Proof.
  eexists. split; [vm_compute; reflexivity|]. split; [|reflexivity].
  vm_compute. reflexivity.
Qed.

Lemma classifier_keeps_most_confident_witness :
  (exists v,
      @VideoProcessor._analyze_slot_occupancy busy_external 0%nat sample_slot
        (busy_detections 0) = Ok v /\
      (by_detection v <->
       exists d, In d (busy_detections 0) /\ qualifies sample_slot d /\
                 0 < Detection.confidence d) /\
      (by_detection v ->
       exists l1 d l2,
         busy_detections 0 = l1 ++ d :: l2 /\ qualifies sample_slot d /\ records v d /\
         (forall e, In e l1 -> qualifies sample_slot e ->
                    Detection.confidence e < Detection.confidence d) /\
         (forall e, In e l2 -> qualifies sample_slot e ->
                    Detection.confidence e <= Detection.confidence d)) /\
      SlotDetection.vehicle_type v = Some (Some "truck"%string))
  /\
  (exists rs,
      @ParkingDetector.detect_in_regions busy_external 0%nat
        [sample_slot; half_slot; far_slot] busy_world
      = (Ok rs, @mkWorld busy_external (fun _ => None) true (fun _ => 0) 0 0 0
                         [@EvDetect busy_external 0%nat]) /\
      Forall2 (fun region r => region_verdict region (busy_detections 0) r)
              [sample_slot; half_slot; far_slot] rs /\
      map RegionDetection.is_occupied rs = [true; true; false] /\
      map (fun r => option_map (fun best => Detection.class
                                              (RegionVehicle.detection best))
                               (RegionDetection.detection r)) rs
      = [Some (Some "car"%string); Some (Some "truck"%string); None]).
Proof.
  split.
  - destruct (proj1 classifier_keeps_most_confident busy_external 0%nat sample_slot
                    (busy_detections 0)) as (v & Hv & Hiff & Hrec).
    exists v. split; [exact Hv|]. split; [exact Hiff|]. split; [exact Hrec|].
    vm_compute in Hv. inversion Hv. reflexivity.
  - destruct (proj2 classifier_keeps_most_confident busy_external 0%nat
                    [sample_slot; half_slot; far_slot] busy_world
                    (@mkWorld busy_external (fun _ => None) true (fun _ => 0) 0 0 0
                              [@EvDetect busy_external 0%nat])
                    (busy_detections 0))
      as (rs & Hrun & Hall); [vm_compute; reflexivity|].
    exists rs. split; [exact Hrun|]. split; [exact Hall|].
    vm_compute in Hrun. inversion Hrun. split; vm_compute; reflexivity.
Defined.

(** C10. When no detection decides the verdict (every detection that
    overlaps the slot by more than 0.5 has confidence at most 0, in
    particular when none overlaps that much), the verdict carries neither
    a vehicle type nor a detection box, its confidence is the image score
    and it is occupied iff that score exceeds 0.6; such a verdict can be
    occupied. *)
Theorem fallback_verdict_carries_no_detection :
  (forall (E : External) (frame : Image) (slot : Slot.t) (dets : list Detection.t),
      (forall e, In e dets -> qualifies slot e -> Detection.confidence e <= 0) ->
      exists v,
        VideoProcessor._analyze_slot_occupancy frame slot dets = Ok v /\
        SlotDetection.vehicle_type v = Some None /\
        SlotDetection.detection_box v = Some None /\
        SlotDetection.confidence v = fallback_score frame slot /\
        SlotDetection.is_occupied v = Qltb 0.6 (fallback_score frame slot))
  /\
  (exists (E : External) (frame : Image) (slot : Slot.t) (v : SlotDetection.t),
      VideoProcessor._analyze_slot_occupancy frame slot [] = Ok v /\
      SlotDetection.is_occupied v = true /\
      SlotDetection.vehicle_type v = Some None /\
      SlotDetection.detection_box v = Some None).
Proof.
  split.
  - intros E frame slot dets Hnone.
    destruct (analyze_slot_occupancy_cases frame slot dets)
      as (v & Hv & _ & _ & [Hprim | Hfall]).
    + destruct Hprim as (l1 & d & l2 & Hsplit & Hq & Hpos & _).
      exfalso. apply (Qlt_not_le _ _ Hpos). apply Hnone; [|exact Hq].
      rewrite Hsplit. apply in_elt.
    + destruct Hfall as (_ & Hvt & Hdb & Hc & Ho).
      exists v. repeat split; assumption.
  - exists sample_external, 0%nat, sample_slot.
    eexists. split; [vm_compute; reflexivity|]. repeat split.
Qed.

Lemma fallback_verdict_carries_no_detection_witness :
  exists v,
    @VideoProcessor._analyze_slot_occupancy sample_external 0%nat sample_slot
      [Detection.mk (20, 20, 5, 5) 0.9 2 None] = Ok v /\
    SlotDetection.vehicle_type v = Some None /\
    SlotDetection.detection_box v = Some None /\
    SlotDetection.confidence v = @fallback_score sample_external 0%nat sample_slot /\
    SlotDetection.is_occupied v
    = Qltb 0.6 (@fallback_score sample_external 0%nat sample_slot).
Proof.
  apply (proj1 fallback_verdict_carries_no_detection sample_external).
  intros e [<-|[]] Hq. vm_compute in Hq. discriminate Hq.
Defined.

(** ** Non-max suppression *)

Lemma Qle_bool_not_lt (a b : Q) : Qle_bool a b = negb (Qltb b a).
Proof. unfold Qltb. rewrite negb_involutive. reflexivity. Qed.

Lemma nms_remaining_filter (current : Detection.t) (dets : list Detection.t) (thr : Q) :
  nms_remaining current dets thr
  = Ok (filter (fun d => negb (Qltb thr (detection_iou current d))) dets).
Proof.
  induction dets as [|d rest IH]; [reflexivity|].
  cbn [nms_remaining filter]. rewrite calculate_iou_value. cbn [rbind].
  rewrite IH. cbn [rbind]. rewrite Qle_bool_not_lt. reflexivity.
Qed.

Lemma filter_length_le {A} (p : A -> bool) (l : list A) :
  (List.length (filter p l) <= List.length l)%nat.
Proof.
  induction l as [|a l IH]; [reflexivity|].
  cbn. destruct (p a); cbn; lia.
Qed.

Lemma filter_strongly_sorted {A} (R : A -> A -> Prop) (p : A -> bool) (l : list A) :
  StronglySorted R l -> StronglySorted R (filter p l).
Proof.
  induction 1 as [|a l Hs IH Hall]; [constructor|].
  cbn. destruct (p a); [|exact IH].
  constructor; [exact IH|].
  apply Forall_forall. intros x Hx. apply filter_In in Hx.
  rewrite Forall_forall in Hall. apply Hall, Hx.
Qed.

(** With enough fuel the loop performs the greedy selection; what it keeps
    comes from the candidates, in their order. *)
Lemma nms_loop_greedy (thr : Q) (fuel : nat) :
  forall dets,
    (List.length dets <= fuel)%nat ->
    exists keep,
      nms_loop fuel dets thr = Ok keep /\
      greedy thr dets keep /\
      incl keep dets /\
      separated thr keep /\
      (forall R : Detection.t -> Detection.t -> Prop,
          StronglySorted R dets -> StronglySorted R keep).
Proof.
  induction fuel as [|fuel IH]; intros dets Hlen.
  - destruct dets; [|cbn in Hlen; lia].
    exists []. repeat split; try constructor. intros x [].
  - destruct dets as [|top rest].
    + exists []. repeat split; try constructor. intros x [].
    + cbn [nms_loop]. rewrite nms_remaining_filter. cbn [rbind].
      set (remaining := filter (fun d => negb (Qltb thr (detection_iou top d))) rest).
      destruct (IH remaining) as (keep & Hrun & Hg & Hincl & Hsep & Hsorted).
      { pose proof (filter_length_le
                      (fun d => negb (Qltb thr (detection_iou top d))) rest).
        cbn in Hlen. fold remaining in H. lia. }
      rewrite Hrun. cbn [rbind]. exists (top :: keep).
      split; [reflexivity|]. split; [constructor; exact Hg|].
      assert (Hsub : incl keep rest).
      { intros x Hx. apply Hincl in Hx. apply filter_In in Hx. apply Hx. }
      split; [|split].
      * intros x [<-|Hx]; [left; reflexivity | right; apply Hsub, Hx].
      * constructor; [exact Hsep|].
        apply Forall_forall. intros x Hx. apply Hincl in Hx.
        apply filter_In in Hx. destruct Hx as [_ Hx].
        apply negb_true_iff, Qltb_ge in Hx. exact Hx.
      * intros R HR. inversion HR as [|a l Hs Hall]; subst.
        constructor.
        -- apply Hsorted. apply filter_strongly_sorted, Hs.
        -- apply Forall_forall. intros x Hx. rewrite Forall_forall in Hall.
           apply Hall, Hsub, Hx.
Qed.

(** On candidates that are already separated the loop keeps everything. *)
Lemma nms_loop_separated (thr : Q) (fuel : nat) :
  forall dets,
    (List.length dets <= fuel)%nat -> separated thr dets ->
    nms_loop fuel dets thr = Ok dets.
Proof.
  induction fuel as [|fuel IH]; intros dets Hlen Hsep.
  - destruct dets; [reflexivity | cbn in Hlen; lia].
  - destruct dets as [|top rest]; [reflexivity|].
    inversion Hsep as [|a l Hs Hall]; subst.
    cbn [nms_loop]. rewrite nms_remaining_filter. cbn [rbind].
    assert (Hf : filter (fun d => negb (Qltb thr (detection_iou top d))) rest = rest).
    { apply forallb_filter_id. apply forallb_forall. intros x Hx.
      rewrite Forall_forall in Hall. apply negb_true_iff, Qltb_ge, Hall, Hx. }
    rewrite Hf, (IH rest); [reflexivity | cbn in Hlen; lia | exact Hs].
Qed.

(** *** The stable descending sort *)

Lemma insert_by_confidence_perm (d : Detection.t) (l : list Detection.t) :
  Permutation (d :: l) (insert_by_confidence d l).
Proof.
  induction l as [|e l IH]; [apply Permutation_refl|].
  cbn. destruct (Qle_bool (Detection.confidence e) (Detection.confidence d)).
  - apply Permutation_refl.
  - eapply Permutation_trans; [apply perm_swap|]. apply perm_skip, IH.
Qed.

Lemma sorted_by_confidence_perm (l : list Detection.t) :
  Permutation l (sorted_by_confidence l).
Proof.
  induction l as [|d l IH]; [constructor|].
  change (sorted_by_confidence (d :: l))
    with (insert_by_confidence d (sorted_by_confidence l)).
  eapply Permutation_trans; [apply perm_skip, IH|].
  apply insert_by_confidence_perm.
Qed.

Lemma insert_by_confidence_descending (d : Detection.t) (l : list Detection.t) :
  descending l -> descending (insert_by_confidence d l).
Proof.
  unfold descending. induction 1 as [|e l Hs IH Hall].
  - constructor; constructor.
  - cbn. destruct (Qle_bool (Detection.confidence e) (Detection.confidence d)) eqn:E.
    + apply Qle_bool_iff in E. constructor; [constructor; assumption|].
      constructor; [exact E|].
      eapply Forall_impl; [|exact Hall]. intros x Hx. cbn in Hx.
      eapply Qle_trans; eassumption.
    + constructor; [exact IH|].
      assert (Hlt : Detection.confidence d <= Detection.confidence e).
      { apply Qlt_le_weak, Qnot_le_lt. intro Hle.
        apply Qle_bool_iff in Hle. congruence. }
      apply Forall_forall. intros x Hx.
      apply (Permutation_in _ (Permutation_sym (insert_by_confidence_perm d l))) in Hx.
      destruct Hx as [<-|Hx]; [exact Hlt|].
      rewrite Forall_forall in Hall. apply Hall, Hx.
Qed.

Lemma sorted_by_confidence_descending (l : list Detection.t) :
  descending (sorted_by_confidence l).
Proof.
  induction l as [|d l IH]; [constructor|].
  change (sorted_by_confidence (d :: l))
    with (insert_by_confidence d (sorted_by_confidence l)).
  apply insert_by_confidence_descending, IH.
Qed.

(** The sort is stable: a descending list is left as it is. *)
Lemma sorted_by_confidence_fixed (l : list Detection.t) :
  descending l -> sorted_by_confidence l = l.
Proof.
  unfold descending. induction 1 as [|d l Hs IH Hall]; [reflexivity|].
  change (sorted_by_confidence (d :: l))
    with (insert_by_confidence d (sorted_by_confidence l)).
  rewrite IH. destruct l as [|e l]; [reflexivity|].
  cbn [insert_by_confidence]. inversion Hall as [|x xs He _]; subst.
  apply Qle_bool_iff in He. rewrite He. reflexivity.
Qed.

Lemma non_max_suppression_unfold (dets : list Detection.t) (thr : Q) :
  non_max_suppression dets thr
  = nms_loop (List.length (sorted_by_confidence dets)) (sorted_by_confidence dets) thr.
Proof. destruct dets; reflexivity. Qed.

(** C8. Non-max suppression returns the greedy selection on the detections
    sorted by descending confidence (keep the top one, discard the
    remaining ones whose IoU with it exceeds the threshold, repeat until no
    candidate is left), and applying it to its own output returns that
    output, for every detection list and every threshold. *)
Theorem non_max_suppression_greedy_idempotent :
  forall (dets : list Detection.t) (iou_threshold : Q),
  exists keep,
    non_max_suppression dets iou_threshold = Ok keep /\
    (exists candidates,
        Permutation dets candidates /\ descending candidates /\
        greedy iou_threshold candidates keep) /\
    non_max_suppression keep iou_threshold = Ok keep.
Proof.
  intros dets thr.
  destruct (nms_loop_greedy thr (List.length (sorted_by_confidence dets))
              (sorted_by_confidence dets) (le_n _))
    as (keep & Hrun & Hg & _ & Hsep & Hsorted).
  exists keep. rewrite non_max_suppression_unfold. split; [exact Hrun|].
  split.
  - exists (sorted_by_confidence dets).
    split; [apply sorted_by_confidence_perm|].
    split; [apply sorted_by_confidence_descending | exact Hg].
  - rewrite non_max_suppression_unfold.
    assert (Hdesc : descending keep)
      by (apply Hsorted, sorted_by_confidence_descending).
    rewrite (sorted_by_confidence_fixed keep Hdesc).
    apply nms_loop_separated; [apply le_n | exact Hsep].
Qed.

(** ** Reasoning in the monad *)

Section MonadFacts.
Context {E : External}.

Lemma bind_ok {A B} (m : M A) (k : A -> M B) (w w1 : World) (a : A) :
  m w = (Ok a, w1) -> bind m k w = k a w1.
Proof. intro Hm. unfold bind. rewrite Hm. reflexivity. Qed.

Lemma bind_raise {A B} (m : M A) (k : A -> M B) (w w1 : World) (e : exn) :
  m w = (Raise e, w1) -> bind m k w = (Raise e, w1).
Proof. intro Hm. unfold bind. rewrite Hm. reflexivity. Qed.

Lemma bind_inv {A B} (m : M A) (k : A -> M B) (w w2 : World) (b : B) :
  bind m k w = (Ok b, w2) ->
  exists a w1, m w = (Ok a, w1) /\ k a w1 = (Ok b, w2).
Proof.
  unfold bind. destruct (m w) as [[a|e] w1]; intro Hk.
  - exists a, w1. split; [reflexivity | exact Hk].
  - discriminate.
Qed.

Lemma lift_inv {A} (r : result A) (w w' : World) (a : A) :
  lift r w = (Ok a, w') -> r = Ok a /\ w' = w.
Proof. unfold lift. intro Heq. inversion Heq. split; reflexivity. Qed.

Lemma draws_only_refl (w : World) : draws_only w w.
Proof. repeat split. Qed.

Lemma draws_only_trans (w1 w2 w3 : World) :
  draws_only w1 w2 -> draws_only w2 w3 -> draws_only w1 w3.
Proof.
  unfold draws_only. intros (?&?&?&?&?&?) (?&?&?&?&?&?).
  repeat split; congruence.
Qed.

Lemma only_draws_ret {A} (a : A) : only_draws (ret a).
Proof. intro w. apply draws_only_refl. Qed.

Lemma only_draws_raise {A} (e : exn) : only_draws (@raise _ A e).
Proof. intro w. apply draws_only_refl. Qed.

Lemma only_draws_bind {A B} (m : M A) (k : A -> M B) :
  only_draws m -> (forall a, only_draws (k a)) -> only_draws (bind m k).
Proof.
  intros Hm Hk w. unfold bind. specialize (Hm w).
  destruct (m w) as [[a|e] w1]; cbn [snd] in *.
  - eapply draws_only_trans; [exact Hm | apply Hk].
  - exact Hm.
Qed.

Lemma only_draws_next_draw : only_draws next_draw.
Proof. intro w. repeat split. Qed.

Lemma only_draws_randint (low high : Z) : only_draws (ParkingDetector.randint low high).
Proof.
  unfold ParkingDetector.randint. destruct (low <? high)%Z.
  - apply only_draws_bind; [apply only_draws_next_draw|].
    intro. apply only_draws_ret.
  - apply only_draws_raise.
Qed.

Lemma only_draws_uniform (low high : Q) : only_draws (ParkingDetector.uniform low high).
Proof.
  apply only_draws_bind; [apply only_draws_next_draw|].
  intro. apply only_draws_ret.
Qed.

Lemma only_draws_mock_detections (n : nat) (width height : Z) :
  only_draws (ParkingDetector.mock_detections n width height).
Proof.
  induction n as [|n IH]; [apply only_draws_ret|].
  cbn [ParkingDetector.mock_detections].
  repeat (apply only_draws_bind;
          [first [apply only_draws_randint | apply only_draws_uniform | exact IH]
          | intro]).
  apply only_draws_ret.
Qed.

Lemma only_draws_mock (frame : Image) :
  only_draws (ParkingDetector._mock_detect_vehicles frame).
Proof.
  unfold ParkingDetector._mock_detect_vehicles. destruct (shape frame) as [h wd].
  apply only_draws_bind; [apply only_draws_randint|].
  intro. apply only_draws_mock_detections.
Qed.

(** A detector call appends one [EvDetect] to the trace and leaves the
    frame counter alone, whatever it returns. *)
Lemma detect_vehicles_effect (frame : Image) (w : World) :
  let w' := snd (ParkingDetector.detect_vehicles frame w) in
  trace w' = trace w ++ [EvDetect frame] /\
  processed_frames w' = processed_frames w /\
  fs w' = fs w /\ model_loaded w' = model_loaded w.
Proof.
  unfold ParkingDetector.detect_vehicles, bind, log, get. cbn [fst snd].
  set (w1 := mkWorld _ _ _ _ _ _ _ _).
  assert (Hmock : draws_only w1 (snd (ParkingDetector._mock_detect_vehicles frame w1)))
    by apply only_draws_mock.
  destruct (negb (model_loaded w1)).
  - destruct (ParkingDetector._mock_detect_vehicles frame w1) as [[a|e] w2];
      destruct Hmock as (?&?&?&?&?&?); cbn [snd] in *; repeat split; assumption.
  - destruct (yolo frame).
    + cbn. repeat split.
    + destruct (ParkingDetector._mock_detect_vehicles frame w1) as [[a|e] w2];
        destruct Hmock as (?&?&?&?&?&?); cbn [snd] in *; repeat split; assumption.
Qed.

(** With the model loaded and inference succeeding, the detector returns. *)
Lemma detect_vehicles_ok (frame : Image) (w : World) (results : _) :
  model_loaded w = true -> yolo frame = Some results ->
  exists w', ParkingDetector.detect_vehicles frame w
             = (Ok (ParkingDetector.yolo_detections results), w').
Proof.
  intros Hm Hy. unfold ParkingDetector.detect_vehicles, bind, log, get.
  cbn [model_loaded]. rewrite Hm, Hy. cbn. eexists. reflexivity.
Qed.

End MonadFacts.

(** ** The frame loops *)

Lemma sampled_nil {A} (n c : nat) : @sampled A n c [] = [].
Proof. reflexivity. Qed.

Lemma sampled_cons {A} (n c : nat) (frame : A) (rest : list A) :
  sampled n c (frame :: rest)
  = if (c mod n =? 0)%nat then (c, frame) :: sampled n (S c) rest
    else sampled n (S c) rest.
Proof. unfold sampled. cbn [List.length seq combine filter fst]. reflexivity. Qed.

Section Loops.
Context {E : External}.

Lemma detected_app (t1 t2 : list Event) :
  detected (t1 ++ t2) = detected t1 ++ detected t2.
Proof. apply flat_map_app. Qed.

Lemma frame_reads_app (t1 t2 : list Event) :
  frame_reads (t1 ++ t2) = (frame_reads t1 + frame_reads t2)%nat.
Proof. unfold frame_reads. rewrite filter_app, length_app. reflexivity. Qed.

Lemma advances_refl (w : World) : advances w w [] 0 0.
Proof.
  unfold advances. rewrite app_nil_r, !Nat.add_0_r. repeat split.
Qed.

Lemma advances_trans (w1 w2 w3 : World) d1 d2 r1 r2 p1 p2 :
  advances w1 w2 d1 r1 p1 -> advances w2 w3 d2 r2 p2 ->
  advances w1 w3 (d1 ++ d2) (r1 + r2) (p1 + p2).
Proof.
  unfold advances. intros (Hd1&Hr1&Hp1&Hf1&Hm1) (Hd2&Hr2&Hp2&Hf2&Hm2).
  rewrite Hd2, Hd1, Hr2, Hr1, Hp2, Hp1, Hf2, Hf1, Hm2, Hm1, app_assoc.
  repeat split; lia.
Qed.

Lemma log_read_advances (w : World) : advances w (snd (log EvRead w)) [] 1 0.
Proof.
  unfold advances, log. cbn [snd trace processed_frames fs model_loaded].
  rewrite detected_app, frame_reads_app, Nat.add_0_r. repeat split.
Qed.

Lemma log_advances (e : Event) (w : World) :
  match e with
  | EvRead | EvDetect _ => False
  | _ => True
  end ->
  advances w (snd (log e w)) [] 0 0.
Proof.
  intro He. unfold advances, log.
  cbn [snd trace processed_frames fs model_loaded].
  rewrite detected_app, frame_reads_app, !Nat.add_0_r.
  destruct e as [p|p| |n| |f]; try contradiction;
    cbn; rewrite app_nil_r, Nat.add_0_r; repeat split.
Qed.

Lemma detect_advances (frame : Image) (w : World) :
  advances w (snd (ParkingDetector.detect_vehicles frame w)) [frame] 0 0.
Proof.
  destruct (detect_vehicles_effect frame w) as (Ht & Hp & Hf & Hm).
  unfold advances. rewrite Ht, Hp, Hf, Hm, detected_app, frame_reads_app.
  rewrite !Nat.add_0_r. repeat split.
Qed.

Lemma incr_advances (w : World) : advances w (snd (incr_processed_frames w)) [] 0 1.
Proof.
  unfold advances, incr_processed_frames.
  cbn [snd trace processed_frames fs model_loaded].
  rewrite app_nil_r, Nat.add_0_r, Nat.add_1_r. repeat split.
Qed.

(** One sampled frame of the occupancy pass. *)
Lemma occupancy_sample_run (cfg : list Slot.t) (frame : Image)
    (acc acc' : list SlotDetection.t) (w w' : World) :
  bind (ParkingDetector.detect_vehicles frame)
       (fun detections =>
          bind (lift (VideoProcessor.occupancy_slots frame detections cfg acc))
               (fun slot_detections =>
                  bind incr_processed_frames (fun _ => ret slot_detections))) w
  = (Ok acc', w') ->
  exists dets,
    (exists w1 w2, ParkingDetector.detect_vehicles frame w1 = (Ok dets, w2)) /\
    VideoProcessor.occupancy_slots frame dets cfg acc = Ok acc' /\
    advances w w' [frame] 0 1.
Proof.
  intro Hrun.
  apply bind_inv in Hrun. destruct Hrun as (dets & w1 & Hdet & Hrun).
  apply bind_inv in Hrun. destruct Hrun as (sd & w2 & Hslots & Hrun).
  apply lift_inv in Hslots. destruct Hslots as [Hslots ->].
  apply bind_inv in Hrun. destruct Hrun as ([] & w3 & Hincr & Hrun).
  unfold ret in Hrun. inversion Hrun; subst sd w3. clear Hrun.
  exists dets. split; [exists w, w1; exact Hdet|]. split; [exact Hslots|].
  pose proof (detect_advances frame w) as H1. rewrite Hdet in H1. cbn [snd] in H1.
  pose proof (incr_advances w1) as H2. rewrite Hincr in H2. cbn [snd] in H2.
  apply (advances_trans _ _ _ _ _ _ _ _ _ H1 H2).
Qed.

Lemma occupancy_frames_run (n : nat) (cfg : list Slot.t) :
  forall (remaining : list Image) (c : nat) (acc acc' : list SlotDetection.t)
         (w w' : World),
    VideoProcessor.occupancy_frames n cfg remaining c acc w = (Ok acc', w') ->
    exists obs : list Observation,
      map fst obs = sampled n c remaining /\
      Forall (fun o => exists w1 w2,
                  ParkingDetector.detect_vehicles (snd (fst o)) w1 = (Ok (snd o), w2))
             obs /\
      absorb_occupancy cfg obs acc = Ok acc' /\
      advances w w' (map (fun o => snd (fst o)) obs)
               (S (List.length remaining)) (List.length obs).
Proof.
  induction remaining as [|frame rest IH]; intros c acc acc' w w' Hrun.
  - cbn [VideoProcessor.occupancy_frames] in Hrun.
    apply bind_inv in Hrun. destruct Hrun as ([] & w1 & Hlog & Hrun).
    unfold ret in Hrun. inversion Hrun; subst. clear Hrun.
    exists []. split; [reflexivity|]. split; [constructor|]. split; [reflexivity|].
    pose proof (log_read_advances w) as H1. rewrite Hlog in H1. exact H1.
  - cbn [VideoProcessor.occupancy_frames] in Hrun.
    apply bind_inv in Hrun. destruct Hrun as ([] & w1 & Hlog & Hrun).
    pose proof (log_read_advances w) as H1. rewrite Hlog in H1. cbn [snd] in H1.
    apply bind_inv in Hrun. destruct Hrun as (acc1 & w2 & Hbody & Hrun).
    rewrite sampled_cons.
    destruct (c mod n =? 0)%nat.
    + apply occupancy_sample_run in Hbody.
      destruct Hbody as (dets & Hdet & Hslots & H2).
      destruct (IH _ _ _ _ _ Hrun) as (obs & Hobs & Hall & Habs & H3).
      exists ((c, frame, dets) :: obs). split; [cbn; rewrite Hobs; reflexivity|].
      split; [constructor; assumption|].
      split; [cbn [absorb_occupancy]; rewrite Hslots; exact Habs|].
      pose proof (advances_trans _ _ _ _ _ _ _ _ _
                    (advances_trans _ _ _ _ _ _ _ _ _ H1 H2) H3) as H4.
      cbn in H4. cbn. exact H4.
    + unfold ret in Hbody. inversion Hbody; subst acc1 w2. clear Hbody.
      destruct (IH _ _ _ _ _ Hrun) as (obs & Hobs & Hall & Habs & H3).
      exists obs. split; [exact Hobs|]. split; [exact Hall|]. split; [exact Habs|].
      pose proof (advances_trans _ _ _ _ _ _ _ _ _ H1 H3) as H4.
      cbn in H4. cbn. exact H4.
Qed.

(** One sampled frame of the duration pass. *)
Lemma duration_sample_run (cfg : list Slot.t) (frame : Image) (c : nat)
    (acc acc' : VideoProcessor.Timelines) (w w' : World) :
  bind (ParkingDetector.detect_vehicles frame)
       (fun detections =>
          bind (lift (VideoProcessor.duration_slots frame c detections cfg acc))
               (fun slot_timeline =>
                  bind incr_processed_frames (fun _ => ret slot_timeline))) w
  = (Ok acc', w') ->
  exists dets,
    (exists w1 w2, ParkingDetector.detect_vehicles frame w1 = (Ok dets, w2)) /\
    VideoProcessor.duration_slots frame c dets cfg acc = Ok acc' /\
    advances w w' [frame] 0 1.
Proof.
  intro Hrun.
  apply bind_inv in Hrun. destruct Hrun as (dets & w1 & Hdet & Hrun).
  apply bind_inv in Hrun. destruct Hrun as (sd & w2 & Hslots & Hrun).
  apply lift_inv in Hslots. destruct Hslots as [Hslots ->].
  apply bind_inv in Hrun. destruct Hrun as ([] & w3 & Hincr & Hrun).
  unfold ret in Hrun. inversion Hrun; subst sd w3. clear Hrun.
  exists dets. split; [exists w, w1; exact Hdet|]. split; [exact Hslots|].
  pose proof (detect_advances frame w) as H1. rewrite Hdet in H1. cbn [snd] in H1.
  pose proof (incr_advances w1) as H2. rewrite Hincr in H2. cbn [snd] in H2.
  apply (advances_trans _ _ _ _ _ _ _ _ _ H1 H2).
Qed.

Lemma duration_frames_run (n : nat) (cfg : list Slot.t) :
  forall (remaining : list Image) (c : nat) (acc acc' : VideoProcessor.Timelines)
         (w w' : World),
    VideoProcessor.duration_frames n cfg remaining c acc w = (Ok acc', w') ->
    exists obs : list Observation,
      map fst obs = sampled n c remaining /\
      Forall (fun o => exists w1 w2,
                  ParkingDetector.detect_vehicles (snd (fst o)) w1 = (Ok (snd o), w2))
             obs /\
      absorb_duration cfg obs acc = Ok acc' /\
      advances w w' (map (fun o => snd (fst o)) obs)
               (S (List.length remaining)) (List.length obs).
Proof.
  induction remaining as [|frame rest IH]; intros c acc acc' w w' Hrun.
  - cbn [VideoProcessor.duration_frames] in Hrun.
    apply bind_inv in Hrun. destruct Hrun as ([] & w1 & Hlog & Hrun).
    unfold ret in Hrun. inversion Hrun; subst. clear Hrun.
    exists []. split; [reflexivity|]. split; [constructor|]. split; [reflexivity|].
    pose proof (log_read_advances w) as H1. rewrite Hlog in H1. exact H1.
  - cbn [VideoProcessor.duration_frames] in Hrun.
    apply bind_inv in Hrun. destruct Hrun as ([] & w1 & Hlog & Hrun).
    pose proof (log_read_advances w) as H1. rewrite Hlog in H1. cbn [snd] in H1.
    apply bind_inv in Hrun. destruct Hrun as (acc1 & w2 & Hbody & Hrun).
    rewrite sampled_cons.
    destruct (c mod n =? 0)%nat.
    + apply duration_sample_run in Hbody.
      destruct Hbody as (dets & Hdet & Hslots & H2).
      destruct (IH _ _ _ _ _ Hrun) as (obs & Hobs & Hall & Habs & H3).
      exists ((c, frame, dets) :: obs). split; [cbn; rewrite Hobs; reflexivity|].
      split; [constructor; assumption|].
      split; [cbn [absorb_duration]; rewrite Hslots; exact Habs|].
      pose proof (advances_trans _ _ _ _ _ _ _ _ _
                    (advances_trans _ _ _ _ _ _ _ _ _ H1 H2) H3) as H4.
      cbn in H4. cbn. exact H4.
    + unfold ret in Hbody. inversion Hbody; subst acc1 w2. clear Hbody.
      destruct (IH _ _ _ _ _ Hrun) as (obs & Hobs & Hall & Habs & H3).
      exists obs. split; [exact Hobs|]. split; [exact Hall|]. split; [exact Habs|].
      pose proof (advances_trans _ _ _ _ _ _ _ _ _ H1 H3) as H4.
      cbn in H4. cbn. exact H4.
Qed.

End Loops.

(** ** The occupancy aggregation *)

Lemma find_split {A} (p : A -> bool) (l : list A) (e : A) :
  find p l = Some e ->
  exists l1 l2, l = l1 ++ e :: l2 /\ p e = true /\ forall x, In x l1 -> p x = false.
Proof.
  induction l as [|a l IH]; [discriminate|].
  cbn. destruct (p a) eqn:Ea.
  - intro Heq. inversion Heq; subst. exists [], l.
    split; [reflexivity|]. split; [exact Ea|]. intros x [].
  - intro Hf. destruct (IH Hf) as (l1 & l2 & -> & He & Hl1).
    exists (a :: l1), l2. split; [reflexivity|]. split; [exact He|].
    intros x [<-|Hx]; [exact Ea | apply Hl1, Hx].
Qed.

Lemma update_existing_split (slot_id : Z) (v e : SlotDetection.t)
    (l1 l2 : list SlotDetection.t) :
  (forall x, In x l1 -> (SlotDetection.slot_id x =? slot_id)%Z = false) ->
  (SlotDetection.slot_id e =? slot_id)%Z = true ->
  VideoProcessor.update_existing slot_id v (l1 ++ e :: l2)
  = l1 ++ SlotDetection.update e v :: l2.
Proof.
  intros Hl1 He. induction l1 as [|a l1 IH].
  - cbn. rewrite He. reflexivity.
  - cbn. rewrite (Hl1 a (or_introl eq_refl)). rewrite IH; [reflexivity|].
    intros x Hx. apply Hl1. right. exact Hx.
Qed.

Section Aggregation.
Context {E : External}.

(** The keys a verdict of the classifier carries. *)
Lemma verdict_shape (frame : Image) (slot : Slot.t) (dets : list Detection.t)
    (v : SlotDetection.t) :
  VideoProcessor._analyze_slot_occupancy frame slot dets = Ok v ->
  SlotDetection.slot_id v = Slot.id slot /\
  SlotDetection.slot_number v = Slot.slot_number slot /\
  (exists t, SlotDetection.vehicle_type v = Some t) /\
  (exists b, SlotDetection.detection_box v = Some b) /\
  SlotDetection.predicted_duration v = None /\
  SlotDetection.occupancy_changes v = None /\
  SlotDetection.stability_score v = None.
Proof.
  rewrite analyze_slot_occupancy_unfold.
  destruct (VideoProcessor.scan_detections _ _ _) as [[[[o c] t] b]|e];
    [|discriminate].
  cbn [rbind]. destruct (negb o); intro Heq; inversion Heq; subst; cbn;
    repeat split; eexists; reflexivity.
Qed.

Lemma seen_shape (vis : list Visit) (slot_id : Z) (v : SlotDetection.t) :
  seen vis slot_id v ->
  SlotDetection.slot_id v = slot_id /\
  (exists t, SlotDetection.vehicle_type v = Some t) /\
  (exists b, SlotDetection.detection_box v = Some b) /\
  SlotDetection.predicted_duration v = None /\
  SlotDetection.occupancy_changes v = None /\
  SlotDetection.stability_score v = None.
Proof.
  intros (frame & dets & slot & _ & Hid & Hv).
  destruct (verdict_shape _ _ _ _ Hv) as (H1 & _ & H3 & H4 & H5 & H6 & H7).
  rewrite <- Hid. repeat split; assumption.
Qed.

(** Overwriting a verdict with a verdict leaves the new verdict. *)
Lemma update_verdict (vis vis' : list Visit) (i j : Z) (e v : SlotDetection.t) :
  seen vis i e -> seen vis' j v -> SlotDetection.update e v = v.
Proof.
  intros He Hv.
  destruct (seen_shape _ _ _ He) as (_ & _ & _ & He5 & He6 & He7).
  destruct (seen_shape _ _ _ Hv) as (_ & [t Ht] & [b Hb] & Hv5 & Hv6 & Hv7).
  destruct v, e; cbn in *; subst. reflexivity.
Qed.

Lemma seen_app_l (vis extra : list Visit) (i : Z) (v : SlotDetection.t) :
  seen vis i v -> seen (vis ++ extra) i v.
Proof.
  intros (frame & dets & slot & Hin & Hrest).
  exists frame, dets, slot. split; [apply in_or_app; left; exact Hin | exact Hrest].
Qed.

Lemma seen_app_inv (vis : list Visit) (frame : Image) (dets : list Detection.t)
    (slot : Slot.t) (v : SlotDetection.t) (i : Z) (v' : SlotDetection.t) :
  VideoProcessor._analyze_slot_occupancy frame slot dets = Ok v ->
  seen (vis ++ [(frame, dets, slot)]) i v' ->
  seen vis i v' \/ (i = Slot.id slot /\ v' = v).
Proof.
  intros Hv (f & d & s & Hin & Hid & Hv').
  apply in_app_or in Hin. destruct Hin as [Hin|[Heq|[]]].
  - left. exists f, d, s. repeat split; assumption.
  - right. inversion Heq; subst. split; [reflexivity | congruence].
Qed.

Lemma seen_last (vis : list Visit) (frame : Image) (dets : list Detection.t)
    (slot : Slot.t) (v : SlotDetection.t) :
  VideoProcessor._analyze_slot_occupancy frame slot dets = Ok v ->
  seen (vis ++ [(frame, dets, slot)]) (Slot.id slot) v.
Proof.
  intro Hv. exists frame, dets, slot.
  split; [apply in_or_app; right; left; reflexivity|]. split; [reflexivity | exact Hv].
Qed.

(** Retaining one more verdict keeps the summary. *)
Lemma retain_summarises (vis : list Visit) (frame : Image) (dets : list Detection.t)
    (slot : Slot.t) (v : SlotDetection.t) (acc : list SlotDetection.t) :
  VideoProcessor._analyze_slot_occupancy frame slot dets = Ok v ->
  summarises vis acc ->
  summarises (vis ++ [(frame, dets, slot)]) (VideoProcessor.retain slot v acc).
Proof.
  intros Hv (Hnd & Hseen & Hmax).
  pose proof (seen_last vis frame dets slot v Hv) as Hnew.
  destruct (verdict_shape _ _ _ _ Hv) as (Hid & _).
  unfold VideoProcessor.retain.
  destruct (find _ acc) as [e|] eqn:Hfind.
  - destruct (find_split _ _ _ Hfind) as (l1 & l2 & Hacc & He & Hl1).
    apply Z.eqb_eq in He.
    destruct (Qltb (SlotDetection.confidence e) (SlotDetection.confidence v)) eqn:Hc.
    + apply Qltb_lt in Hc.
      assert (Hein : In e acc) by (rewrite Hacc; apply in_elt).
      rewrite Hacc, update_existing_split;
        [|exact Hl1 | apply Z.eqb_eq; exact He].
      rewrite (update_verdict _ _ _ _ e v (Hseen e Hein) Hnew).
      split; [|split].
      * rewrite Hacc in Hnd. rewrite map_app in *. cbn [map] in *.
        rewrite Hid, <- He. exact Hnd.
      * intros x Hx. apply in_app_or in Hx. destruct Hx as [Hx|[<-|Hx]].
        -- apply seen_app_l, Hseen. rewrite Hacc. apply in_or_app. left. exact Hx.
        -- rewrite Hid. exact Hnew.
        -- apply seen_app_l, Hseen. rewrite Hacc. apply in_or_app.
           right. right. exact Hx.
      * intros i v' Hv'. apply (seen_app_inv _ _ _ _ _ _ _ Hv) in Hv'.
        destruct Hv' as [Hold|[-> ->]].
        -- destruct (Hmax i v' Hold) as (x & Hx & Hxi & Hxc).
           rewrite Hacc in Hx. apply in_app_or in Hx.
           destruct Hx as [Hx|[<-|Hx]].
           ++ exists x. split; [apply in_or_app; left; exact Hx|]. split; assumption.
           ++ exists v. split; [apply in_elt|]. split; [congruence|].
              apply Qlt_le_weak. eapply Qle_lt_trans; eassumption.
           ++ exists x. split; [apply in_or_app; right; right; exact Hx|].
              split; assumption.
        -- exists v. split; [apply in_elt|]. split; [exact Hid | apply Qle_refl].
    + apply Qltb_ge in Hc.
      assert (Hein : In e acc) by (rewrite Hacc; apply in_elt).
      split; [exact Hnd|]. split.
      * intros x Hx. apply seen_app_l, Hseen, Hx.
      * intros i v' Hv'. apply (seen_app_inv _ _ _ _ _ _ _ Hv) in Hv'.
        destruct Hv' as [Hold|[-> ->]]; [apply Hmax, Hold|].
        exists e. split; [exact Hein|]. split; [exact He | exact Hc].
  - assert (Hfresh : ~ In (Slot.id slot) (map SlotDetection.slot_id acc)).
    { intro Hin. apply in_map_iff in Hin. destruct Hin as (x & Hx & Hxin).
      apply (find_none _ _ Hfind) in Hxin. apply Z.eqb_neq in Hxin. contradiction. }
    split; [|split].
    + rewrite map_app. cbn [map]. rewrite Hid.
      apply NoDup_app; [exact Hnd | repeat constructor; intros [] |].
      intros i Hi [<-|[]]. contradiction.
    + intros x Hx. apply in_app_or in Hx. destruct Hx as [Hx|[<-|[]]].
      * apply seen_app_l, Hseen, Hx.
      * rewrite Hid. exact Hnew.
    + intros i v' Hv'. apply (seen_app_inv _ _ _ _ _ _ _ Hv) in Hv'.
      destruct Hv' as [Hold|[-> ->]].
      * destruct (Hmax i v' Hold) as (x & Hx & Hxi & Hxc).
        exists x. split; [apply in_or_app; left; exact Hx|]. split; assumption.
      * exists v. split; [apply in_or_app; right; left; reflexivity|].
        split; [exact Hid | apply Qle_refl].
Qed.


(** The classifier always returns a verdict. *)
Lemma analyze_slot_occupancy_total (frame : Image) (slot : Slot.t)
    (dets : list Detection.t) :
  exists v, VideoProcessor._analyze_slot_occupancy frame slot dets = Ok v.
Proof.
  destruct (analyze_slot_occupancy_cases frame slot dets) as (v & Hv & _).
  exists v. exact Hv.
Qed.

Lemma occupancy_slots_summarises (frame : Image) (dets : list Detection.t)
    (slots : list Slot.t) :
  forall (vis : list Visit) (acc : list SlotDetection.t),
    summarises vis acc ->
    exists acc',
      VideoProcessor.occupancy_slots frame dets slots acc = Ok acc' /\
      summarises (vis ++ map (fun slot => (frame, dets, slot)) slots) acc'.
Proof.
  induction slots as [|slot rest IH]; intros vis acc Hsum.
  - exists acc. split; [reflexivity|]. cbn. rewrite app_nil_r. exact Hsum.
  - destruct (analyze_slot_occupancy_total frame slot dets) as (v & Hv).
    cbn [VideoProcessor.occupancy_slots]. rewrite Hv. cbn [rbind].
    destruct (IH _ _ (retain_summarises vis frame dets slot v acc Hv Hsum))
      as (acc' & Hrun & Hsum').
    exists acc'. split; [exact Hrun|].
    cbn [map]. rewrite <- app_assoc in Hsum'. exact Hsum'.
Qed.

Lemma absorb_occupancy_summarises (cfg : list Slot.t) (obs : list Observation) :
  forall (vis : list Visit) (acc : list SlotDetection.t),
    summarises vis acc ->
    exists acc',
      absorb_occupancy cfg obs acc = Ok acc' /\
      summarises (vis ++ visits cfg obs) acc'.
Proof.
  induction obs as [|[[i frame] dets] obs IH]; intros vis acc Hsum.
  - exists acc. split; [reflexivity|]. cbn. rewrite app_nil_r. exact Hsum.
  - destruct (occupancy_slots_summarises frame dets cfg vis acc Hsum)
      as (acc1 & Hrun1 & Hsum1).
    destruct (IH _ _ Hsum1) as (acc' & Hrun & Hsum').
    exists acc'. cbn [absorb_occupancy]. rewrite Hrun1. cbn [rbind].
    split; [exact Hrun|].
    unfold visits in *. cbn [flat_map fst snd]. rewrite <- app_assoc in Hsum'.
    exact Hsum'.
Qed.

Lemma summarises_nil : summarises [] [].
Proof.
  split; [constructor|]. split; [intros v []|].
  intros i v' (f & d & s & [] & _).
Qed.

Lemma seen_visits (cfg : list Slot.t) (obs : list Observation) (i : Z)
    (v : SlotDetection.t) :
  seen (visits cfg obs) i v <-> observed cfg obs i v.
Proof.
  unfold seen, observed, visits. split.
  - intros (frame & dets & slot & Hin & Hid & Hv).
    apply in_flat_map in Hin. destruct Hin as ([[k f] d] & Hobs & Hin).
    apply in_map_iff in Hin. destruct Hin as (s & Heq & Hs).
    cbn [fst snd] in Heq. inversion Heq; subst.
    exists k, frame, dets, slot. repeat split; assumption.
  - intros (k & frame & dets & slot & Hobs & Hs & Hid & Hv).
    exists frame, dets, slot. split; [|split; assumption].
    apply in_flat_map. exists (k, frame, dets). split; [exact Hobs|].
    apply in_map_iff. exists slot. split; [reflexivity | exact Hs].
Qed.

Lemma filter_none {A} (p : A -> bool) (l : list A) :
  (forall x, In x l -> p x = false) -> filter p l = [].
Proof.
  induction l as [|a l IH]; intro Hall; [reflexivity|].
  cbn. rewrite (Hall a (or_introl eq_refl)). apply IH.
  intros x Hx. apply Hall. right. exact Hx.
Qed.

Lemma entries_of_unique (acc : list SlotDetection.t) (i : Z) (v : SlotDetection.t) :
  NoDup (map SlotDetection.slot_id acc) -> In v acc ->
  SlotDetection.slot_id v = i -> entries_of i acc = [v].
Proof.
  unfold entries_of. induction acc as [|a acc IH]; intros Hnd Hv Hi; [destruct Hv|].
  cbn [map] in Hnd. inversion Hnd as [|x xs Hnotin Hnd']; subst x xs.
  cbn [filter]. destruct Hv as [->|Hv].
  - rewrite Hi, Z.eqb_refl. f_equal. apply filter_none.
    intros x Hx. apply Z.eqb_neq. intro Heq. apply Hnotin.
    rewrite Hi, <- Heq. apply in_map, Hx.
  - assert (Hne : SlotDetection.slot_id a <> i).
    { intro Heq. apply Hnotin. rewrite Heq, <- Hi. apply in_map, Hv. }
    apply Z.eqb_neq in Hne. rewrite Hne. apply IH; assumption.
Qed.

(** With a summary, the entries of a slot id that was visited are exactly
    one verdict, the most confident one computed for that id. *)
Lemma summarises_entries (vis : list Visit) (acc : list SlotDetection.t)
    (i : Z) (v0 : SlotDetection.t) :
  summarises vis acc -> seen vis i v0 ->
  exists v, entries_of i acc = [v] /\ seen vis i v /\
            forall v', seen vis i v' ->
                       SlotDetection.confidence v' <= SlotDetection.confidence v.
Proof.
  intros (Hnd & Hseen & Hmax) H0.
  destruct (Hmax i v0 H0) as (v & Hv & Hvi & _).
  exists v. split; [apply entries_of_unique; assumption|].
  split; [rewrite <- Hvi; apply Hseen, Hv|].
  intros v' Hv'. destruct (Hmax i v' Hv') as (x & Hx & Hxi & Hxc).
  assert (Hxv : [x] = [v]).
  { rewrite <- (entries_of_unique acc i x Hnd Hx Hxi).
    apply entries_of_unique; assumption. }
  inversion Hxv; subst. exact Hxc.
Qed.

(** *** The order of the retained entries *)

Lemma update_existing_ids (i : Z) (v : SlotDetection.t) (acc : list SlotDetection.t) :
  SlotDetection.slot_id v = i ->
  map SlotDetection.slot_id (VideoProcessor.update_existing i v acc)
  = map SlotDetection.slot_id acc.
Proof.
  intro Hv. induction acc as [|a acc IH]; [reflexivity|].
  cbn [VideoProcessor.update_existing].
  destruct (SlotDetection.slot_id a =? i)%Z eqn:Ea.
  - apply Z.eqb_eq in Ea. cbn. rewrite Hv, Ea. reflexivity.
  - cbn. rewrite IH. reflexivity.
Qed.

Lemma find_existsb_ids (i : Z) (acc : list SlotDetection.t) :
  existsb (Z.eqb i) (map SlotDetection.slot_id acc) = true <->
  exists e, find (fun s => (SlotDetection.slot_id s =? i)%Z) acc = Some e.
Proof.
  induction acc as [|a acc IH].
  - cbn. split; [discriminate | intros [e He]; discriminate].
  - cbn. rewrite (Z.eqb_sym i). destruct (SlotDetection.slot_id a =? i)%Z.
    + cbn. split; [intros _; eexists; reflexivity | reflexivity].
    + cbn. exact IH.
Qed.

Lemma retain_ids (slot : Slot.t) (v : SlotDetection.t) (acc : list SlotDetection.t) :
  SlotDetection.slot_id v = Slot.id slot ->
  map SlotDetection.slot_id (VideoProcessor.retain slot v acc)
  = add_id (map SlotDetection.slot_id acc) (Slot.id slot).
Proof.
  intro Hv. unfold VideoProcessor.retain, add_id.
  destruct (find _ acc) as [e|] eqn:Hfind.
  - assert (Hex : existsb (Z.eqb (Slot.id slot)) (map SlotDetection.slot_id acc) = true)
      by (apply find_existsb_ids; exists e; exact Hfind).
    rewrite Hex. destruct (Qltb _ _); [|reflexivity].
    apply update_existing_ids, Hv.
  - destruct (existsb _ _) eqn:Hex.
    + apply find_existsb_ids in Hex. destruct Hex as [e He]. congruence.
    + rewrite map_app. cbn. rewrite Hv. reflexivity.
Qed.

Lemma occupancy_slots_ids (frame : Image) (dets : list Detection.t)
    (slots : list Slot.t) :
  forall acc acc',
    VideoProcessor.occupancy_slots frame dets slots acc = Ok acc' ->
    map SlotDetection.slot_id acc'
    = fold_left add_id (map Slot.id slots) (map SlotDetection.slot_id acc).
Proof.
  induction slots as [|slot rest IH]; intros acc acc' Hrun.
  - cbn in *. congruence.
  - cbn [VideoProcessor.occupancy_slots] in Hrun.
    destruct (VideoProcessor._analyze_slot_occupancy frame slot dets) as [v|e] eqn:Hv;
      [|discriminate].
    cbn [rbind] in Hrun. apply IH in Hrun. rewrite Hrun. cbn [map fold_left].
    rewrite retain_ids; [reflexivity|]. apply (verdict_shape _ _ _ _ Hv).
Qed.

Lemma fold_add_id_fresh (l : list Z) :
  forall ids, NoDup (ids ++ l) -> fold_left add_id l ids = ids ++ l.
Proof.
  induction l as [|i l IH]; intros ids Hnd; [cbn; rewrite app_nil_r; reflexivity|].
  cbn [fold_left]. unfold add_id at 2.
  destruct (existsb (Z.eqb i) ids) eqn:Hex.
  - exfalso. apply existsb_exists in Hex. destruct Hex as (x & Hx & Heq).
    apply Z.eqb_eq in Heq. subst x.
    apply NoDup_remove_2 in Hnd. apply Hnd. apply in_or_app. left. exact Hx.
  - rewrite IH; rewrite <- app_assoc; [reflexivity | exact Hnd].
Qed.

Lemma fold_add_id_present (l : list Z) :
  forall ids, incl l ids -> fold_left add_id l ids = ids.
Proof.
  induction l as [|i l IH]; intros ids Hincl; [reflexivity|].
  cbn [fold_left]. unfold add_id at 2.
  assert (Hex : existsb (Z.eqb i) ids = true).
  { apply existsb_exists. exists i. split; [apply Hincl; left; reflexivity|].
    apply Z.eqb_refl. }
  rewrite Hex. apply IH. intros x Hx. apply Hincl. right. exact Hx.
Qed.

(** With distinct slot ids and at least one observation, the retained
    entries are those of the slots, in the order of the configuration. *)
Lemma absorb_occupancy_ids (cfg : list Slot.t) (obs : list Observation)
    (acc : list SlotDetection.t) :
  NoDup (map Slot.id cfg) -> obs <> [] ->
  absorb_occupancy cfg obs [] = Ok acc ->
  map SlotDetection.slot_id acc = map Slot.id cfg.
Proof.
  intros Hnd Hne Hrun.
  assert (Hkeep : forall obs acc0 acc1,
             map SlotDetection.slot_id acc0 = map Slot.id cfg ->
             absorb_occupancy cfg obs acc0 = Ok acc1 ->
             map SlotDetection.slot_id acc1 = map Slot.id cfg).
  { clear obs Hne Hrun. induction obs as [|[[i f] d] obs IH]; intros acc0 acc1 H0 Hrun.
    - cbn in Hrun. congruence.
    - cbn [absorb_occupancy] in Hrun.
      destruct (VideoProcessor.occupancy_slots f d cfg acc0) as [acc2|e] eqn:Hs;
        [|discriminate].
      cbn [rbind] in Hrun. apply (IH acc2 acc1); [|exact Hrun].
      rewrite (occupancy_slots_ids _ _ _ _ _ Hs), H0.
      apply fold_add_id_present, incl_refl. }
  destruct obs as [|[[i f] d] obs]; [congruence|].
  cbn [absorb_occupancy] in Hrun.
  destruct (VideoProcessor.occupancy_slots f d cfg []) as [acc2|e] eqn:Hs;
    [|discriminate].
  cbn [rbind] in Hrun. apply (Hkeep obs acc2 acc); [|exact Hrun].
  rewrite (occupancy_slots_ids _ _ _ _ _ Hs). cbn [map].
  apply (fold_add_id_fresh (map Slot.id cfg) []). exact Hnd.
Qed.

End Aggregation.

(** ** The analysis passes *)

Lemma sampled_indices {A} (n : nat) (frames : list A) :
  forall c,
    map fst (sampled n c frames)
    = filter (fun i => (i mod n =? 0)%nat) (seq c (List.length frames)).
Proof.
  induction frames as [|f rest IH]; intro c; [reflexivity|].
  rewrite sampled_cons. cbn [List.length seq filter].
  destruct (c mod n =? 0)%nat; cbn [map fst]; rewrite IH; reflexivity.
Qed.

Section Passes.
Context {E : External}.

Lemma occupancy_slots_total (frame : Image) (dets : list Detection.t)
    (slots : list Slot.t) :
  forall acc, exists acc',
    VideoProcessor.occupancy_slots frame dets slots acc = Ok acc'.
Proof.
  induction slots as [|slot rest IH]; intro acc; [exists acc; reflexivity|].
  destruct (analyze_slot_occupancy_total frame slot dets) as (v & Hv).
  cbn [VideoProcessor.occupancy_slots]. rewrite Hv. cbn [rbind]. apply IH.
Qed.

Lemma log_ok (e : Event) (w : World) :
  exists w1, log e w = (Ok tt, w1) /\ model_loaded w1 = model_loaded w.
Proof. eexists. split; reflexivity. Qed.

Lemma incr_ok (w : World) :
  exists w1, incr_processed_frames w = (Ok tt, w1) /\ model_loaded w1 = model_loaded w.
Proof. eexists. split; reflexivity. Qed.

(** With the model loaded and inference succeeding, the detector returns
    and the model stays loaded. *)
Lemma detect_vehicles_returns (frame : Image) (w : World) :
  model_loaded w = true -> yolo frame <> None ->
  exists dets w1, ParkingDetector.detect_vehicles frame w = (Ok dets, w1)
                  /\ model_loaded w1 = true.
Proof.
  intros Hm Hy. destruct (yolo frame) as [results|] eqn:Hres; [|congruence].
  destruct (detect_vehicles_ok frame w results Hm Hres) as (w1 & Hrun).
  exists (ParkingDetector.yolo_detections results), w1. split; [exact Hrun|].
  destruct (detect_vehicles_effect frame w) as (_ & _ & _ & Hml).
  rewrite Hrun in Hml. cbn [snd] in Hml. congruence.
Qed.

Lemma occupancy_frames_ok (n : nat) (cfg : list Slot.t) :
  forall (remaining : list Image) (c : nat) (acc : list SlotDetection.t) (w : World),
    model_loaded w = true ->
    (forall f, In f remaining -> yolo f <> None) ->
    exists acc' w',
      VideoProcessor.occupancy_frames n cfg remaining c acc w = (Ok acc', w')
      /\ model_loaded w' = true.
Proof.
  induction remaining as [|frame rest IH]; intros c acc w Hm Hy.
  - cbn [VideoProcessor.occupancy_frames].
    destruct (log_ok EvRead w) as (w1 & Hlog & Hm1).
    rewrite (bind_ok _ _ _ _ _ Hlog). eexists. eexists.
    split; [reflexivity | congruence].
  - cbn [VideoProcessor.occupancy_frames].
    destruct (log_ok EvRead w) as (w1 & Hlog & Hm1).
    rewrite (bind_ok _ _ _ _ _ Hlog).
    assert (Hrest : forall f, In f rest -> yolo f <> None)
      by (intros f Hf; apply Hy; right; exact Hf).
    destruct (c mod n =? 0)%nat.
    + destruct (detect_vehicles_returns frame w1) as (dets & w2 & Hdet & Hm2);
        [congruence | apply Hy; left; reflexivity|].
      destruct (occupancy_slots_total frame dets cfg acc) as (acc1 & Hslots).
      destruct (incr_ok w2) as (w3 & Hincr & Hm3).
      assert (Hbody :
        bind (ParkingDetector.detect_vehicles frame)
          (fun detections =>
             bind (lift (VideoProcessor.occupancy_slots frame detections cfg acc))
               (fun slot_detections =>
                  bind incr_processed_frames (fun _ => ret slot_detections))) w1
        = (Ok acc1, w3)).
      { rewrite (bind_ok _ _ _ _ _ Hdet). unfold lift at 1.
        unfold bind at 1. rewrite Hslots.
        rewrite (bind_ok _ _ _ _ _ Hincr). reflexivity. }
      rewrite (bind_ok _ _ _ _ _ Hbody).
      apply IH; [congruence | exact Hrest].
    + unfold bind at 1. unfold ret at 1.
      apply IH; [congruence | exact Hrest].
Qed.

Lemma occupancy_rate_total (occupied : nat) (cfg : list Slot.t) :
  exists rate, VideoProcessor.occupancy_rate_of occupied cfg = Ok rate.
Proof.
  destruct cfg as [|s cfg]; [exists 0; reflexivity|].
  unfold VideoProcessor.occupancy_rate_of.
  rewrite (pydiv_pos _ _ (len_cons_pos s cfg)). eexists. reflexivity.
Qed.

Lemma average_total (l : list Q) :
  exists avg, match l with
              | [] => Ok 0
              | _ :: _ => pydiv (pysum l) (len l)
              end = Ok avg.
Proof.
  destruct l as [|q l]; [exists 0; reflexivity|].
  rewrite (pydiv_pos _ _ (len_cons_pos q l)). eexists. reflexivity.
Qed.

(** What a completed occupancy pass did. *)
Lemma occupancy_pass_run (cap : Cap.t) (cfg : list Slot.t) (w w' : World)
    (r : Results.t) :
  VideoProcessor._process_occupancy_analysis cap cfg w = (Ok r, w') ->
  exists obs : list Observation,
    observes 30 (skipn (Cap.pos cap) (Cap.video cap)) obs /\
    absorb_occupancy cfg obs [] = Ok (Results.slot_detections r) /\
    advances w w' (map (fun o => snd (fst o)) obs)
             (S (List.length (skipn (Cap.pos cap) (Cap.video cap))))
             (List.length obs) /\
    Results.vehicle_count r = VideoProcessor.count_occupied (Results.slot_detections r) /\
    (match map SlotDetection.confidence (Results.slot_detections r) with
     | [] => Ok 0
     | _ :: _ => pydiv (pysum (map SlotDetection.confidence (Results.slot_detections r)))
                       (len (map SlotDetection.confidence (Results.slot_detections r)))
     end = Ok (ConfidenceScores.overall (Results.confidence_scores r))).
Proof.
  unfold VideoProcessor._process_occupancy_analysis. intro Hrun.
  apply bind_inv in Hrun. destruct Hrun as (sd & w1 & Hframes & Hrun).
  apply bind_inv in Hrun. destruct Hrun as (rate & w2 & Hrate & Hrun).
  apply lift_inv in Hrate. destruct Hrate as [Hrate ->].
  apply bind_inv in Hrun. destruct Hrun as (avg & w3 & Havg & Hrun).
  apply lift_inv in Havg. destruct Havg as [Havg ->].
  unfold ret in Hrun. inversion Hrun; subst r w'. clear Hrun.
  destruct (occupancy_frames_run _ _ _ _ _ _ _ _ Hframes)
    as (obs & Hobs & Hall & Habs & Hadv).
  exists obs. cbn [Results.slot_detections Results.vehicle_count
                   Results.confidence_scores ConfidenceScores.overall].
  split; [split; assumption|]. split; [exact Habs|]. split; [exact Hadv|].
  split; [reflexivity | exact Havg].
Qed.

Lemma occupancy_pass_ok (cap : Cap.t) (cfg : list Slot.t) (w : World) :
  model_loaded w = true ->
  (forall f, In f (Cap.video cap) -> yolo f <> None) ->
  exists r w',
    VideoProcessor._process_occupancy_analysis cap cfg w = (Ok r, w')
    /\ model_loaded w' = true.
Proof.
  intros Hm Hy. unfold VideoProcessor._process_occupancy_analysis.
  destruct (occupancy_frames_ok 30 cfg (skipn (Cap.pos cap) (Cap.video cap)) 0 [] w Hm)
    as (sd & w1 & Hframes & Hm1).
  { intros f Hf. apply Hy. rewrite <- (firstn_skipn (Cap.pos cap) (Cap.video cap)).
    apply in_or_app. right. exact Hf. }
  rewrite (bind_ok _ _ _ _ _ Hframes).
  destruct (occupancy_rate_total (VideoProcessor.count_occupied sd) cfg) as (rate & Hrate).
  destruct (average_total (map SlotDetection.confidence sd)) as (avg & Havg).
  unfold lift, bind, ret. rewrite Hrate, Havg.
  eexists. eexists. split; [reflexivity | exact Hm1].
Qed.

End Passes.

(** C5. When the capture delivers at least one frame and the occupancy
    pass completes, then for every slot of the configuration the retained
    list holds exactly one entry with the slot's id; that entry is a verdict
    the classifier gave for that slot on a sampled frame, and no verdict
    observed for that slot on any sampled frame has a higher confidence.
    The pass completes whenever the detector returns on every frame. *)
Theorem occupancy_pass_retains_most_confident :
  (forall (E : External) (cap : Cap.t) (slot_config : list Slot.t)
          (w w' : World) (r : Results.t),
      skipn (Cap.pos cap) (Cap.video cap) <> [] ->
      VideoProcessor._process_occupancy_analysis cap slot_config w = (Ok r, w') ->
      exists obs : list Observation,
        observes 30 (skipn (Cap.pos cap) (Cap.video cap)) obs /\
        forall slot, In slot slot_config ->
          exists v,
            entries_of (Slot.id slot) (Results.slot_detections r) = [v] /\
            observed slot_config obs (Slot.id slot) v /\
            forall v', observed slot_config obs (Slot.id slot) v' ->
                       SlotDetection.confidence v' <= SlotDetection.confidence v)
  /\
  (forall (E : External) (cap : Cap.t) (slot_config : list Slot.t) (w : World),
      model_loaded w = true ->
      (forall f, In f (Cap.video cap) -> yolo f <> None) ->
      exists r w',
        VideoProcessor._process_occupancy_analysis cap slot_config w = (Ok r, w')).
Proof.
  split.
  - intros E cap cfg w w' r Hne Hrun.
    destruct (occupancy_pass_run cap cfg w w' r Hrun)
      as (obs & Hobs & Habs & _).
    exists obs. split; [exact Hobs|].
    destruct (absorb_occupancy_summarises cfg obs [] [] summarises_nil)
      as (acc & Habs' & Hsum).
    rewrite Habs in Habs'. inversion Habs'; subst acc. clear Habs'.
    cbn [app] in Hsum.
    intros slot Hslot.
    assert (Hfirst : exists o, In o obs).
    { destruct Hobs as [Hmap _].
      destruct (skipn (Cap.pos cap) (Cap.video cap)) as [|f rest]; [congruence|].
      rewrite sampled_cons in Hmap. cbn in Hmap.
      destruct obs as [|o obs]; [discriminate|]. exists o. left. reflexivity. }
    destruct Hfirst as ([[i frame] dets] & Ho).
    destruct (analyze_slot_occupancy_total frame slot dets) as (v0 & Hv0).
    assert (Hseen0 : seen (visits cfg obs) (Slot.id slot) v0).
    { apply seen_visits. exists i, frame, dets, slot. repeat split; assumption. }
    destruct (summarises_entries _ _ _ _ Hsum Hseen0) as (v & Hent & Hv & Hmax).
    exists v. split; [exact Hent|]. split; [apply seen_visits, Hv|].
    intros v' Hv'. apply Hmax, seen_visits, Hv'.
  - intros E cap cfg w Hm Hy.
    destruct (occupancy_pass_ok cap cfg w Hm Hy) as (r & w' & Hrun & _).
    exists r, w'. exact Hrun.
Qed.

Lemma occupancy_pass_retains_most_confident_witness :
  exists r w',
    @VideoProcessor._process_occupancy_analysis busy_external
      (busy_cap 61) [sample_slot; half_slot] busy_world = (Ok r, w') /\
    (exists obs : list (@Observation busy_external),
        @observes busy_external 30 (skipn 0 (seq 0 61)) obs /\
        List.length obs = 3%nat /\
        forall slot, In slot [sample_slot; half_slot] ->
          exists v,
            entries_of (Slot.id slot) (Results.slot_detections r) = [v] /\
            @observed busy_external [sample_slot; half_slot] obs (Slot.id slot) v /\
            forall v', @observed busy_external [sample_slot; half_slot] obs
                                 (Slot.id slot) v' ->
                       SlotDetection.confidence v' <= SlotDetection.confidence v) /\
    map busy_confidence [0; 30; 60]%nat = [0.6; 0.9; 0.7] /\
    map SlotDetection.confidence (Results.slot_detections r) = [0.9; 0.9].
Proof.
  eexists. eexists. split; [vm_compute; reflexivity|].
  split; [|split; vm_compute; reflexivity].
  lazymatch goal with
  | |- context [Results.slot_detections ?r] =>
      destruct (proj1 occupancy_pass_retains_most_confident busy_external
                      (busy_cap 61) [sample_slot; half_slot] busy_world
                      (snd (@VideoProcessor._process_occupancy_analysis busy_external
                              (busy_cap 61) [sample_slot; half_slot] busy_world)) r)
        as (obs & Hobs & Hall); [discriminate | vm_compute; reflexivity|]
  end.
  exists obs. split; [exact Hobs|]. split; [|exact Hall].
  destruct Hobs as [Hmap _]. apply (f_equal (@List.length _)) in Hmap.
  rewrite length_map in Hmap.
  etransitivity; [exact Hmap | vm_compute; reflexivity].
Defined.


(** ** The duration pass and the merge *)

Lemma has_timeline_set_same (k : Z) (v : list TimelineEntry.t)
    (tl : VideoProcessor.Timelines) :
  VideoProcessor.timeline_get k (VideoProcessor.timeline_set k v tl) = Ok v.
Proof.
  induction tl as [|[j u] tl IH]; cbn.
  - rewrite Z.eqb_refl. reflexivity.
  - destruct (j =? k)%Z eqn:Ej; cbn; rewrite Ej; [reflexivity | exact IH].
Qed.

Lemma has_timeline_set (j k : Z) (v : list TimelineEntry.t)
    (tl : VideoProcessor.Timelines) :
  has_timeline k tl -> has_timeline k (VideoProcessor.timeline_set j v tl).
Proof.
  unfold has_timeline. induction tl as [|[i u] tl IH]; cbn.
  - intros [x Hx]. discriminate.
  - intros [x Hx]. destruct (i =? j)%Z eqn:Eij; cbn.
    + destruct (i =? k)%Z; [eexists; reflexivity | exists x; exact Hx].
    + destruct (i =? k)%Z; [eexists; reflexivity | apply IH; exists x; exact Hx].
Qed.

Lemma empty_timelines_keys (cfg : list Slot.t) :
  forall slot, In slot cfg ->
               has_timeline (Slot.id slot) (VideoProcessor.empty_timelines cfg).
Proof.
  unfold VideoProcessor.empty_timelines.
  assert (Hgen : forall cfg tl0,
             (forall k, has_timeline k tl0 ->
                        has_timeline k
                          (fold_left (fun d slot =>
                                        VideoProcessor.timeline_set (Slot.id slot) [] d)
                                     cfg tl0)) /\
             (forall slot, In slot cfg ->
                           has_timeline (Slot.id slot)
                             (fold_left (fun d slot =>
                                           VideoProcessor.timeline_set (Slot.id slot) [] d)
                                        cfg tl0))).
  { clear cfg. induction cfg as [|s cfg IH]; intro tl0; cbn [fold_left].
    - split; [intros k Hk; exact Hk | intros slot []].
    - destruct (IH (VideoProcessor.timeline_set (Slot.id s) [] tl0)) as [Hkeep Hnew].
      split.
      + intros k Hk. apply Hkeep, has_timeline_set, Hk.
      + intros slot [<-|Hin]; [|apply Hnew, Hin].
        apply Hkeep. exists []. apply has_timeline_set_same. }
  apply Hgen.
Qed.

Section DurationPass.
Context {E : External}.

Lemma duration_slots_total (frame : Image) (c : nat) (dets : list Detection.t)
    (slots : list Slot.t) :
  forall tl,
    (forall slot, In slot slots -> has_timeline (Slot.id slot) tl) ->
    exists tl',
      VideoProcessor.duration_slots frame c dets slots tl = Ok tl' /\
      forall k, has_timeline k tl -> has_timeline k tl'.
Proof.
  induction slots as [|slot rest IH]; intros tl Hkeys.
  - exists tl. split; [reflexivity | intros k Hk; exact Hk].
  - destruct (analyze_slot_occupancy_total frame slot dets) as (v & Hv).
    destruct (Hkeys slot (or_introl eq_refl)) as (t & Ht).
    cbn [VideoProcessor.duration_slots]. rewrite Hv. cbn [rbind].
    rewrite Ht. cbn [rbind].
    set (tl1 := VideoProcessor.timeline_set (Slot.id slot) _ tl).
    destruct (IH tl1) as (tl' & Hrun & Hkeep).
    { intros s Hs. apply has_timeline_set, Hkeys. right. exact Hs. }
    exists tl'. split; [exact Hrun|].
    intros k Hk. apply Hkeep, has_timeline_set, Hk.
Qed.

Lemma duration_frames_ok (n : nat) (cfg : list Slot.t) :
  forall (remaining : list Image) (c : nat) (tl : VideoProcessor.Timelines) (w : World),
    model_loaded w = true ->
    (forall f, In f remaining -> yolo f <> None) ->
    (forall slot, In slot cfg -> has_timeline (Slot.id slot) tl) ->
    exists tl' w',
      VideoProcessor.duration_frames n cfg remaining c tl w = (Ok tl', w')
      /\ model_loaded w' = true
      /\ forall slot, In slot cfg -> has_timeline (Slot.id slot) tl'.
Proof.
  induction remaining as [|frame rest IH]; intros c tl w Hm Hy Hkeys.
  - cbn [VideoProcessor.duration_frames].
    destruct (log_ok EvRead w) as (w1 & Hlog & Hm1).
    rewrite (bind_ok _ _ _ _ _ Hlog). eexists. eexists.
    split; [reflexivity|]. split; [congruence | exact Hkeys].
  - cbn [VideoProcessor.duration_frames].
    destruct (log_ok EvRead w) as (w1 & Hlog & Hm1).
    rewrite (bind_ok _ _ _ _ _ Hlog).
    assert (Hrest : forall f, In f rest -> yolo f <> None)
      by (intros f Hf; apply Hy; right; exact Hf).
    destruct (c mod n =? 0)%nat.
    + destruct (detect_vehicles_returns frame w1) as (dets & w2 & Hdet & Hm2);
        [congruence | apply Hy; left; reflexivity|].
      destruct (duration_slots_total frame c dets cfg tl Hkeys) as (tl1 & Hslots & Hkeep).
      destruct (incr_ok w2) as (w3 & Hincr & Hm3).
      assert (Hbody :
        bind (ParkingDetector.detect_vehicles frame)
          (fun detections =>
             bind (lift (VideoProcessor.duration_slots frame c detections cfg tl))
               (fun slot_timeline =>
                  bind incr_processed_frames (fun _ => ret slot_timeline))) w1
        = (Ok tl1, w3)).
      { rewrite (bind_ok _ _ _ _ _ Hdet). unfold lift at 1.
        unfold bind at 1. rewrite Hslots.
        rewrite (bind_ok _ _ _ _ _ Hincr). reflexivity. }
      rewrite (bind_ok _ _ _ _ _ Hbody).
      apply IH; [congruence | exact Hrest|].
      intros s Hs. apply Hkeep, Hkeys, Hs.
    + unfold bind at 1. unfold ret at 1.
      apply IH; [congruence | exact Hrest | exact Hkeys].
Qed.

(** The reports of the duration pass follow the configuration, slot by
    slot, and carry the estimator's keys. *)
Lemma duration_reports_shape (slots : list Slot.t) (tl : VideoProcessor.Timelines) :
  forall l,
    VideoProcessor.duration_reports slots tl = Ok l ->
    Forall2 (fun slot d =>
               SlotDetection.slot_id d = Slot.id slot /\
               exists timeline,
                 VideoProcessor.timeline_get (Slot.id slot) tl = Ok timeline /\
                 SlotDetection.predicted_duration d
                 = Some (DurationAnalysis.predicted_duration (reference_estimate timeline)) /\
                 SlotDetection.confidence d
                 = DurationAnalysis.confidence (reference_estimate timeline) /\
                 SlotDetection.stability_score d
                 = Some (DurationAnalysis.stability (reference_estimate timeline)))
            slots l.
Proof.
  induction slots as [|slot rest IH]; intros l Hrun.
  - cbn in Hrun. inversion Hrun. constructor.
  - cbn [VideoProcessor.duration_reports] in Hrun.
    destruct (VideoProcessor.timeline_get (Slot.id slot) tl) as [t|e] eqn:Ht;
      [|discriminate].
    cbn [rbind] in Hrun. rewrite analyze_slot_duration_eq in Hrun.
    cbn [rbind] in Hrun.
    destruct (VideoProcessor.duration_reports rest tl) as [others|e] eqn:Ho;
      [|discriminate].
    cbn [rbind] in Hrun. inversion Hrun; subst l. clear Hrun.
    constructor; [|apply IH; reflexivity].
    cbn. split; [reflexivity|]. exists t. split; [exact Ht|]. repeat split.
Qed.

Lemma duration_reports_total (slots : list Slot.t) (tl : VideoProcessor.Timelines) :
  (forall slot, In slot slots -> has_timeline (Slot.id slot) tl) ->
  exists l, VideoProcessor.duration_reports slots tl = Ok l
            /\ List.length l = List.length slots.
Proof.
  induction slots as [|slot rest IH]; intro Hkeys.
  - exists []. split; reflexivity.
  - destruct (Hkeys slot (or_introl eq_refl)) as (t & Ht).
    destruct IH as (others & Ho & Hlen).
    { intros s Hs. apply Hkeys. right. exact Hs. }
    cbn [VideoProcessor.duration_reports]. rewrite Ht. cbn [rbind].
    rewrite analyze_slot_duration_eq. cbn [rbind]. rewrite Ho. cbn [rbind].
    eexists. split; [reflexivity|]. cbn. rewrite Hlen. reflexivity.
Qed.

(** What a completed duration pass returns. *)
Lemma duration_pass_run (cap : Cap.t) (cfg : list Slot.t) (w w' : World)
    (r : Results.t) :
  VideoProcessor._process_duration_analysis cap cfg w = (Ok r, w') ->
  exists tl,
    VideoProcessor.duration_reports cfg tl = Ok (Results.slot_detections r).
Proof.
  unfold VideoProcessor._process_duration_analysis. intro Hrun.
  apply bind_inv in Hrun. destruct Hrun as (tl & w1 & Hframes & Hrun).
  apply bind_inv in Hrun. destruct Hrun as (sd & w2 & Hsd & Hrun).
  apply lift_inv in Hsd. destruct Hsd as [Hsd ->].
  apply bind_inv in Hrun. destruct Hrun as (rate & w3 & Hrate & Hrun).
  apply lift_inv in Hrate. destruct Hrate as [Hrate ->].
  apply bind_inv in Hrun. destruct Hrun as (ov & w4 & Hov & Hrun).
  apply lift_inv in Hov. destruct Hov as [Hov ->].
  unfold ret in Hrun. inversion Hrun; subst r w'. clear Hrun.
  exists tl. exact Hsd.
Qed.

Lemma duration_pass_ok (cap : Cap.t) (cfg : list Slot.t) (w : World) :
  model_loaded w = true ->
  (forall f, In f (Cap.video cap) -> yolo f <> None) ->
  cfg <> [] ->
  exists r w',
    VideoProcessor._process_duration_analysis cap cfg w = (Ok r, w')
    /\ List.length (Results.slot_detections r) = List.length cfg.
Proof.
  intros Hm Hy Hne. unfold VideoProcessor._process_duration_analysis.
  destruct (duration_frames_ok 15 cfg (skipn (Cap.pos cap) (Cap.video cap)) 0
              (VideoProcessor.empty_timelines cfg) w Hm)
    as (tl & w1 & Hframes & Hm1 & Hkeys).
  { intros f Hf. apply Hy. rewrite <- (firstn_skipn (Cap.pos cap) (Cap.video cap)).
    apply in_or_app. right. exact Hf. }
  { apply empty_timelines_keys. }
  rewrite (bind_ok _ _ _ _ _ Hframes).
  destruct (duration_reports_total cfg tl Hkeys) as (sd & Hsd & Hlen).
  destruct (occupancy_rate_total (VideoProcessor.count_occupied sd) cfg) as (rate & Hrate).
  unfold lift, bind, ret. rewrite Hsd, Hrate.
  assert (Hpos : 0 < len sd).
  { destruct sd as [|d sd]; [|apply len_cons_pos].
    destruct cfg; [congruence | discriminate]. }
  rewrite (pydiv_pos _ _ Hpos).
  eexists. eexists. split; [reflexivity | exact Hlen].
Qed.

End DurationPass.

(** ** Full analysis *)

Lemma index_inv {A} (l : list A) (i : nat) (a : A) :
  VideoProcessor.index l i = Ok a -> nth_error l i = Some a.
Proof.
  unfold VideoProcessor.index. destruct (nth_error l i); [|discriminate].
  intro Heq. inversion Heq. reflexivity.
Qed.

Lemma index_ok {A} (l : list A) (i : nat) :
  (i < List.length l)%nat -> exists a, VideoProcessor.index l i = Ok a.
Proof.
  intro Hlt. unfold VideoProcessor.index.
  destruct (nth_error l i) as [a|] eqn:Hn; [exists a; reflexivity|].
  apply nth_error_None in Hn. lia.
Qed.

Lemma merge_slots_spec (slots : list Slot.t) (occ dur : list SlotDetection.t) :
  forall (i : nat) (l : list SlotDetection.t),
    VideoProcessor.merge_slots i slots occ dur = Ok l ->
    List.length l = List.length slots /\
    forall k slot,
      nth_error slots k = Some slot ->
      exists o d m,
        nth_error occ (i + k) = Some o /\ nth_error dur (i + k) = Some d /\
        nth_error l k = Some m /\ merged_from slot o d m.
Proof.
  induction slots as [|s rest IH]; intros i l Hrun.
  - cbn in Hrun. inversion Hrun. split; [reflexivity|].
    intros k slot Hk. destruct k; discriminate.
  - cbn [VideoProcessor.merge_slots] in Hrun.
    destruct (VideoProcessor.index occ i) as [o|e] eqn:Ho; [|discriminate].
    cbn [rbind] in Hrun.
    destruct (VideoProcessor.index dur i) as [d|e] eqn:Hd; [|discriminate].
    cbn [rbind] in Hrun.
    destruct (VideoProcessor.merge_slots (S i) rest occ dur) as [others|e] eqn:Hrest;
      [|discriminate].
    cbn [rbind] in Hrun. inversion Hrun; subst l. clear Hrun.
    destruct (IH (S i) others Hrest) as [Hlen Hnth].
    split; [cbn; rewrite Hlen; reflexivity|].
    intros k slot Hk. destruct k as [|k].
    + cbn in Hk. inversion Hk; subst s. rewrite Nat.add_0_r.
      eexists o, d, _. split; [apply index_inv, Ho|].
      split; [apply index_inv, Hd|]. split; [reflexivity|].
      repeat split.
    + cbn in Hk. destruct (Hnth k slot Hk) as (o' & d' & m & H1 & H2 & H3 & H4).
      exists o', d', m. rewrite Nat.add_succ_r.
      split; [exact H1|]. split; [exact H2|]. split; assumption.
Qed.

Lemma merge_slots_total (slots : list Slot.t) (occ dur : list SlotDetection.t) :
  forall i,
    (i + List.length slots <= List.length occ)%nat ->
    (i + List.length slots <= List.length dur)%nat ->
    exists l, VideoProcessor.merge_slots i slots occ dur = Ok l.
Proof.
  induction slots as [|s rest IH]; intros i Ho Hd; [exists []; reflexivity|].
  cbn [List.length] in Ho, Hd.
  destruct (index_ok occ i) as (o & Hio); [lia|].
  destruct (index_ok dur i) as (d & Hid); [lia|].
  destruct (IH (S i)) as (others & Hrest); [lia | lia |].
  cbn [VideoProcessor.merge_slots]. rewrite Hio, Hid. cbn [rbind].
  rewrite Hrest. cbn [rbind]. eexists. reflexivity.
Qed.

Section FullAnalysis.
Context {E : External}.

Lemma observed_id_in_config (cfg : list Slot.t) (obs : list Observation)
    (i : Z) (v : SlotDetection.t) :
  observed cfg obs i v -> In i (map Slot.id cfg).
Proof.
  intros (k & frame & dets & slot & _ & Hslot & Hid & _).
  rewrite <- Hid. apply in_map, Hslot.
Qed.

(** When the retained list is at least as long as the configuration, the
    slot ids are distinct and the list follows the configuration. *)
Lemma retained_follow_config (cfg : list Slot.t) (obs : list Observation)
    (acc : list SlotDetection.t) :
  absorb_occupancy cfg obs [] = Ok acc ->
  (List.length cfg <= List.length acc)%nat ->
  map SlotDetection.slot_id acc = map Slot.id cfg.
Proof.
  intros Habs Hlen.
  destruct (absorb_occupancy_summarises cfg obs [] [] summarises_nil)
    as (acc' & Habs' & Hsum).
  rewrite Habs in Habs'. inversion Habs'; subst acc'. clear Habs'.
  cbn [app] in Hsum. destruct Hsum as (Hnd & Hseen & _).
  destruct obs as [|o obs].
  - cbn in Habs. inversion Habs; subst acc. cbn in Hlen.
    destruct cfg; [reflexivity | cbn in Hlen; lia].
  - apply (absorb_occupancy_ids cfg (o :: obs) acc); [|discriminate | exact Habs].
    apply NoDup_incl_NoDup with (l := map SlotDetection.slot_id acc).
    + exact Hnd.
    + rewrite !length_map. exact Hlen.
    + intros i Hi. apply in_map_iff in Hi. destruct Hi as (v & <- & Hv).
      apply (observed_id_in_config cfg (o :: obs) _ v), seen_visits, Hseen, Hv.
Qed.

(** What a completed full analysis did. *)
Lemma full_analysis_run (cap : Cap.t) (cfg : list Slot.t) (w w' : World)
    (r : Results.t) :
  VideoProcessor._process_full_analysis cap cfg w = (Ok r, w') ->
  exists occ dur w1 w2,
    VideoProcessor._process_occupancy_analysis cap cfg w = (Ok occ, w1) /\
    VideoProcessor._process_duration_analysis (Cap.mk _ (Cap.video cap) 0) cfg
      (snd (log (EvSeek 0) w1)) = (Ok dur, w2) /\
    VideoProcessor.merge_slots 0 cfg (Results.slot_detections occ)
      (Results.slot_detections dur) = Ok (Results.slot_detections r) /\
    ConfidenceScores.overall (Results.confidence_scores r)
    = (ConfidenceScores.overall (Results.confidence_scores occ) +
       ConfidenceScores.overall (Results.confidence_scores dur)) / 2.
Proof.
  unfold VideoProcessor._process_full_analysis. intro Hrun.
  apply bind_inv in Hrun. destruct Hrun as (occ & w1 & Hocc & Hrun).
  apply bind_inv in Hrun. destruct Hrun as ([] & w1' & Hlog & Hrun).
  apply bind_inv in Hrun. destruct Hrun as (dur & w2 & Hdur & Hrun).
  apply bind_inv in Hrun. destruct Hrun as (fd & w3 & Hmerge & Hrun).
  apply lift_inv in Hmerge. destruct Hmerge as [Hmerge ->].
  apply bind_inv in Hrun. destruct Hrun as (rate & w4 & Hrate & Hrun).
  apply lift_inv in Hrate. destruct Hrate as [Hrate ->].
  unfold ret in Hrun. inversion Hrun; subst r w'. clear Hrun.
  exists occ, dur, w1, w2. split; [exact Hocc|].
  assert (Hw : w1' = snd (log (EvSeek 0) w1)) by (rewrite Hlog; reflexivity).
  rewrite <- Hw. split; [exact Hdur|]. split; [exact Hmerge | reflexivity].
Qed.

End FullAnalysis.

(** C4. When full analysis completes it has run the occupancy pass and
    then, on the rewound capture, the duration pass; for every slot of the
    configuration, at the slot's position, the two passes and the merged
    list each hold the entry of that slot, and the merged entry takes
    [is_occupied] from the occupancy pass, has the larger of the two
    confidences (0.6 and 0.9 merge to 0.9), and takes [predicted_duration]
    from the duration pass (with 1800 for an entry that has none); the
    overall score is the average of the two passes' overall scores.  Full
    analysis completes when the detector returns on every frame, the
    capture delivers a frame, and the slot ids are distinct. *)
Theorem full_analysis_merges_passes :
  (forall (E : External) (cap : Cap.t) (slot_config : list Slot.t)
          (w w' : World) (r : Results.t),
      VideoProcessor._process_full_analysis cap slot_config w = (Ok r, w') ->
      merges_passes cap slot_config w r)
  /\
  (forall (E : External) (cap : Cap.t) (slot_config : list Slot.t) (w : World),
      model_loaded w = true ->
      (forall f, In f (Cap.video cap) -> yolo f <> None) ->
      skipn (Cap.pos cap) (Cap.video cap) <> [] ->
      slot_config <> [] -> NoDup (map Slot.id slot_config) ->
      exists r w',
        VideoProcessor._process_full_analysis cap slot_config w = (Ok r, w')).
Proof.
  split.
  - intros E cap cfg w w' r Hrun.
    destruct (full_analysis_run cap cfg w w' r Hrun)
      as (occ & dur & w1 & w2 & Hocc & Hdur & Hmerge & Hoverall).
    unfold merges_passes. exists occ, dur, w1, w2. split; [exact Hocc|]. split; [exact Hdur|].
    split; [exact Hoverall|].
    destruct (merge_slots_spec _ _ _ _ _ Hmerge) as [Hlen Hnth].
    split; [exact Hlen|].
    destruct (occupancy_pass_run cap cfg w w1 occ Hocc) as (obs & _ & Habs & _).
    destruct (duration_pass_run _ cfg _ w2 dur Hdur) as (tl & Hreports).
    pose proof (duration_reports_shape cfg tl _ Hreports) as Hshape.
    assert (Hids : map SlotDetection.slot_id (Results.slot_detections occ)
                   = map Slot.id cfg).
    { apply (retained_follow_config cfg obs); [exact Habs|].
      destruct (le_lt_dec (List.length cfg) (List.length (Results.slot_detections occ)))
        as [Hle|Hlt]; [exact Hle|].
      exfalso.
      destruct (nth_error cfg (List.length (Results.slot_detections occ)))
        as [slot|] eqn:Hs.
      - destruct (Hnth _ slot Hs) as (o & _ & _ & Ho & _).
        cbn [Nat.add] in Ho.
        assert (Hnone : nth_error (Results.slot_detections occ)
                                  (List.length (Results.slot_detections occ)) = None)
          by (apply nth_error_None; lia).
        congruence.
      - apply nth_error_None in Hs. lia. }
    intros i slot Hslot.
    destruct (Hnth i slot Hslot) as (o & d & m & Ho & Hd & Hm & Hmerged).
    cbn [Nat.add] in Ho, Hd.
    exists o, d, m. split; [exact Ho|]. split.
    { pose proof (map_nth_error SlotDetection.slot_id i _ Ho) as H1.
      pose proof (map_nth_error Slot.id i _ Hslot) as H2.
      rewrite Hids in H1. congruence. }
    split; [exact Hd|].
    assert (Hdshape : SlotDetection.slot_id d = Slot.id slot /\
                      exists seconds, SlotDetection.predicted_duration d = Some seconds).
    { clear - Hshape Hslot Hd. revert i Hslot Hd.
      induction Hshape as [|s x cfg l Hsx Hrest IH]; intros i Hslot Hd.
      - destruct i; discriminate.
      - destruct i as [|i].
        + cbn in Hslot, Hd. inversion Hslot; inversion Hd; subst.
          destruct Hsx as (Hid & t & _ & Hpd & _).
          split; [exact Hid | eexists; exact Hpd].
        + cbn in Hslot, Hd. apply (IH i); assumption. }
    destruct Hdshape as [Hdid Hdpd].
    split; [exact Hdid|]. split; [exact Hdpd|]. split; [exact Hm|].
    split; [exact Hmerged|].
    intros Hco Hcd. destruct Hmerged as (_ & _ & _ & Hconf & _).
    assert (Hlt : SlotDetection.confidence o < SlotDetection.confidence d).
    { rewrite Hco, Hcd. reflexivity. }
    assert (Heq : SlotDetection.confidence m = SlotDetection.confidence d).
    { rewrite Hconf. unfold Qmax, GenericMinMax.gmax.
      apply Qlt_alt in Hlt. unfold Qcompare in *. rewrite Hlt. reflexivity. }
    split; [exact Heq | rewrite Heq; exact Hcd].
  - intros E cap cfg w Hm Hy Hframes Hne Hnd.
    destruct (occupancy_pass_ok cap cfg w Hm Hy) as (occ & w1 & Hocc & Hm1).
    destruct (log_ok (EvSeek 0) w1) as (w1' & Hlog & Hm1').
    destruct (duration_pass_ok (Cap.mk _ (Cap.video cap) 0) cfg w1')
      as (dur & w2 & Hdur & Hdlen); [congruence | exact Hy | exact Hne |].
    destruct (occupancy_pass_run cap cfg w w1 occ Hocc)
      as (obs & [Hmap _] & Habs & _).
    assert (Hobs : obs <> []).
    { destruct (skipn (Cap.pos cap) (Cap.video cap)) as [|f rest]; [congruence|].
      rewrite sampled_cons in Hmap. cbn in Hmap.
      destruct obs; [discriminate | discriminate]. }
    pose proof (absorb_occupancy_ids cfg obs _ Hnd Hobs Habs) as Hids.
    assert (Holen : List.length (Results.slot_detections occ) = List.length cfg).
    { rewrite <- (length_map SlotDetection.slot_id), Hids, length_map. reflexivity. }
    destruct (merge_slots_total cfg (Results.slot_detections occ)
                (Results.slot_detections dur) 0) as (fd & Hmerge); [cbn; lia | cbn; lia|].
    destruct (occupancy_rate_total (VideoProcessor.count_occupied fd) cfg) as (rate & Hrate).
    unfold VideoProcessor._process_full_analysis.
    rewrite (bind_ok _ _ _ _ _ Hocc), (bind_ok _ _ _ _ _ Hlog).
    cbv zeta. rewrite (bind_ok _ _ _ _ _ Hdur).
    unfold lift, bind, ret. rewrite Hmerge, Hrate.
    eexists. eexists. reflexivity.
Qed.

Lemma full_analysis_merges_passes_witness :
  exists r w',
    @VideoProcessor._process_full_analysis sample_external
      (sample_cap 3) [sample_slot] sample_world = (Ok r, w') /\
    @merges_passes sample_external (sample_cap 3) [sample_slot] sample_world r.
Proof.
  eexists. eexists. split.
  - vm_compute. reflexivity.
  - eapply (proj1 full_analysis_merges_passes sample_external
                  (sample_cap 3) [sample_slot] sample_world).
    vm_compute. reflexivity.
Defined.

(** ** Input validation of [process_video] *)

Lemma existsb_eqb_in (s : string) (l : list string) :
  existsb (String.eqb s) l = true <-> In s l.
Proof.
  rewrite existsb_exists. split.
  - intros (x & Hx & Heq). apply String.eqb_eq in Heq. subst. exact Hx.
  - intro Hin. exists s. split; [exact Hin | apply String.eqb_refl].
Qed.

Section Validation.
Context {E : External}.

(** The outcome and the I/O of [validate_video_file]. *)
Lemma validate_video_file_cases (video_path : string) (w : World) :
  exists (valid : bool) (t : list Event),
    validate_video_file video_path w
    = (Ok valid,
       mkWorld _ (fs w) (model_loaded w) (rng w) (rng_pos w)
               (total_frames w) (processed_frames w) (trace w ++ t)) /\
    ((valid = true /\ validates w video_path /\ t = validation_io video_path) \/
     (valid = false /\ ~ validates w video_path /\
      (t = [EvExists video_path] \/
       t = [EvExists video_path; EvOpen video_path] \/
       t = validation_io video_path))).
Proof.
  unfold validate_video_file, bind, log, get, ret. cbn [fs trace].
  destruct (fs w video_path) as [file|] eqn:Hfile.
  - destruct (existsb (String.eqb (suffix file)) valid_extensions) eqn:Hext;
      cbn [negb].
    + cbn [fs trace model_loaded rng rng_pos total_frames processed_frames].
      destruct (opens file) eqn:Hopen; cbn [negb].
      * cbn [fs trace model_loaded rng rng_pos total_frames processed_frames].
        rewrite <- !app_assoc. cbn [app].
        destruct (frames file) as [|f rest] eqn:Hframes.
        -- exists false, (validation_io video_path). split; [reflexivity|].
           right. split; [reflexivity|]. split; [|right; right; reflexivity].
           intros (file' & Hf & _ & _ & Hne). congruence.
        -- exists true, (validation_io video_path). split; [reflexivity|].
           left. split; [reflexivity|]. split; [|reflexivity].
           exists file. split; [exact Hfile|].
           split; [apply existsb_eqb_in, Hext|]. split; [exact Hopen | congruence].
      * rewrite <- !app_assoc. cbn [app].
        exists false, [EvExists video_path; EvOpen video_path].
        split; [reflexivity|].
        right. split; [reflexivity|]. split; [|right; left; reflexivity].
        intros (file' & Hf & _ & Ho & _). congruence.
    + exists false, [EvExists video_path]. split; [reflexivity|].
      right. split; [reflexivity|]. split; [|left; reflexivity].
      intros (file' & Hf & Hin & _).
      assert (file' = file) by congruence. subst file'.
      apply existsb_eqb_in in Hin. congruence.
  - exists false, [EvExists video_path]. split; [reflexivity|].
    right. split; [reflexivity|]. split; [|left; reflexivity].
    intros (file' & Hf & _). congruence.
Qed.

End Validation.

(** C3 (amended). [process_video] with an empty slot list always raises,
    and does so before it opens the capture of the run: no analysis pass
    reads a frame.  When the file passes [validate_video_file] the error is
    the configuration error, raised after the validation has opened the
    file, read its first frame and released it (exactly one frame read);
    otherwise the error is the invalid-video error, after at most one
    frame read. *)
Theorem empty_config_raises_after_validation :
  forall (E : External) (video_path analysis_type : string) (w : World),
  exists (e : exn) (w' : World) (t : list Event),
    VideoProcessor.process_video video_path [] analysis_type w = (Raise e, w') /\
    trace w' = trace w ++ t /\
    processed_frames w' = processed_frames w /\
    ((validates w video_path /\
      e = ValueError "Slot configuration is required" /\
      t = validation_io video_path /\
      frame_reads (trace w') = (frame_reads (trace w) + 1)%nat)
     \/
     (~ validates w video_path /\
      e = ValueError ("Invalid video file: " ++ video_path) /\
      (t = [EvExists video_path] \/
       t = [EvExists video_path; EvOpen video_path] \/
       t = validation_io video_path) /\
      (frame_reads (trace w') <= frame_reads (trace w) + 1)%nat)).
Proof.
  intros E video_path analysis_type w.
  destruct (validate_video_file_cases video_path w)
    as (valid & t & Hrun & [(Hv & Hval & Ht) | (Hv & Hnot & Ht)]); subst valid.
  - subst t. eexists. eexists. exists (validation_io video_path).
    unfold VideoProcessor.process_video. rewrite (bind_ok _ _ _ _ _ Hrun).
    cbn [negb]. unfold raise. split; [reflexivity|].
    cbn [trace processed_frames]. split; [reflexivity|]. split; [reflexivity|].
    left. split; [exact Hval|]. split; [reflexivity|]. split; [reflexivity|].
    rewrite frame_reads_app. reflexivity.
  - eexists. eexists. exists t.
    unfold VideoProcessor.process_video. rewrite (bind_ok _ _ _ _ _ Hrun).
    cbn [negb]. unfold raise. split; [reflexivity|].
    cbn [trace processed_frames]. split; [reflexivity|]. split; [reflexivity|].
    right. split; [exact Hnot|]. split; [reflexivity|]. split; [exact Ht|].
    rewrite frame_reads_app.
    destruct Ht as [ -> | [ -> | -> ] ]; cbn; lia.
Qed.

Lemma empty_config_reads_a_frame :
  ~ empty_config_raises_before_any_read.
Proof.
  intro Hall.
  destruct (Hall sample_external "lot.mp4"%string "full"%string sample_disk)
    as (w' & Hrun & Hreads).
  vm_compute in Hrun. inversion Hrun; subst w'.
  vm_compute in Hreads. discriminate.
Qed.

(** ** Synthetic detections *)

Section Mock.
Context {E : External}.

Lemma randint_range (low high : Z) (w : World) :
  (low < high)%Z ->
  exists v w', ParkingDetector.randint low high w = (Ok v, w')
               /\ (low <= v < high)%Z.
Proof.
  intro Hlt. unfold ParkingDetector.randint.
  apply Z.ltb_lt in Hlt. rewrite Hlt. apply Z.ltb_lt in Hlt.
  unfold bind, next_draw, ret. eexists. eexists. split; [reflexivity|].
  pose proof (Z.mod_pos_bound (Qfloor (rng w (rng_pos w))) (high - low)).
  lia.
Qed.

Lemma uniform_range (low high : Q) (w : World) :
  low <= high ->
  exists v w', ParkingDetector.uniform low high w = (Ok v, w')
               /\ low <= v /\ v <= high.
Proof.
  intro Hle. unfold ParkingDetector.uniform, bind, next_draw, ret.
  eexists. eexists. split; [reflexivity|].
  set (c := Qmax 0 (Qmin (rng w (rng_pos w)) 1)).
  assert (Hc0 : 0 <= c) by apply Q.le_max_l.
  assert (Hc1 : c <= 1).
  { unfold c. apply Q.max_lub; [discriminate | apply Q.le_min_r]. }
  split; nra.
Qed.

(** On a frame of at least 149 by 79 pixels the synthetic detections are
    well formed. *)
Lemma mock_detections_well_formed (width height : Z) (n : nat) :
  (149 <= width)%Z -> (79 <= height)%Z ->
  forall w, exists dets w',
    ParkingDetector.mock_detections n width height w = (Ok dets, w') /\
    List.length dets = n /\
    Forall (synthetic_detection height width) dets.
Proof.
  intros Hw Hh. induction n as [|n IH]; intro w.
  - exists [], w. split; [reflexivity|]. split; [reflexivity | constructor].
  - cbn [ParkingDetector.mock_detections].
    destruct (randint_range 0 (width - 100) w) as (x & w1 & Hx & Hxr); [lia|].
    rewrite (bind_ok _ _ _ _ _ Hx).
    destruct (randint_range 0 (height - 60) w1) as (y & w2 & Hy & Hyr); [lia|].
    rewrite (bind_ok _ _ _ _ _ Hy).
    destruct (randint_range 80 150 w2) as (bw & w3 & Hbw & Hbwr); [lia|].
    rewrite (bind_ok _ _ _ _ _ Hbw).
    destruct (randint_range 40 80 w3) as (bh & w4 & Hbh & Hbhr); [lia|].
    rewrite (bind_ok _ _ _ _ _ Hbh).
    destruct (uniform_range 0.6 0.95 w4) as (c & w5 & Hc & Hc0 & Hc1); [discriminate|].
    cbv zeta. rewrite (bind_ok _ _ _ _ _ Hc).
    destruct (IH w5) as (rest & w6 & Hrest & Hlen & Hall).
    rewrite (bind_ok _ _ _ _ _ Hrest). unfold ret.
    eexists. eexists. split; [reflexivity|].
    split; [cbn; rewrite Hlen; reflexivity|].
    constructor; [|exact Hall].
    unfold synthetic_detection, within_frame. cbn [Detection.confidence
      Detection.class Detection.bbox].
    split; [exact Hc0|]. split; [exact Hc1|]. split; [reflexivity|].
    rewrite <- !inject_Z_plus.
    change 0 with (inject_Z 0). rewrite <- !Zle_Qle. lia.
Qed.

Lemma mock_detect_well_formed (frame : Image) (w : World) :
  (149 <= snd (shape frame))%Z -> (79 <= fst (shape frame))%Z ->
  exists dets w',
    ParkingDetector._mock_detect_vehicles frame w = (Ok dets, w') /\
    (List.length dets <= 4)%nat /\
    Forall (synthetic_detection (fst (shape frame)) (snd (shape frame))) dets.
Proof.
  unfold ParkingDetector._mock_detect_vehicles.
  destruct (shape frame) as [height width]. cbn [fst snd]. intros Hw Hh.
  destruct (randint_range 0 5 w) as (n & w1 & Hn & Hnr); [lia|].
  rewrite (bind_ok _ _ _ _ _ Hn).
  destruct (mock_detections_well_formed width height (Z.to_nat n) Hw Hh w1)
    as (dets & w' & Hrun & Hlen & Hall).
  exists dets, w'. split; [exact Hrun|]. split; [lia | exact Hall].
Qed.

End Mock.

(** C9 (the code at its failing inputs).  On a frame 120 pixels wide the
    synthetic fallback can return a box that starts left of the frame, and
    on a frame 100 pixels wide it raises as soon as it draws a detection;
    the boxes stay within the frame only from 149 by 79 pixels on. *)
Theorem mock_detection_on_small_frames :
  (exists d w',
      @ParkingDetector._mock_detect_vehicles shaped_external (100, 120)%Z
        (drawing_world [1; 0; 0; 69; 0; 0])
      = (Ok [d], w') /\
      Detection.bbox d = (-29, 0, 149, 40) /\
      ~ within_frame 100 120 (Detection.bbox d))
  /\
  (exists w',
      @ParkingDetector._mock_detect_vehicles shaped_external (100, 100)%Z
        (drawing_world [1; 0; 0; 69; 0; 0])
      = (Raise (ValueError "low >= high"), w')).
Proof.
  split.
  - eexists. eexists. split; [vm_compute; reflexivity|].
    split; [reflexivity|].
    unfold within_frame. cbn [Detection.bbox]. intros (Hx & _).
    vm_compute in Hx. apply Hx. reflexivity.
  - eexists. vm_compute. reflexivity.
Qed.

(** * Further properties *)

(** ** More on non-max suppression *)

Lemma detection_iou_bounds (a b : Detection.t) :
  0 <= detection_iou a b /\ detection_iou a b <= 1.
Proof. apply overlap_value_bounds. Qed.

(** Every candidate of a descending list is kept or suppressed by a kept
    detection. *)
Lemma nms_loop_covers (thr : Q) (fuel : nat) :
  forall dets keep,
    (List.length dets <= fuel)%nat -> descending dets ->
    nms_loop fuel dets thr = Ok keep ->
    forall d, In d dets ->
              In d keep \/ exists k, In k keep /\ suppressed_by thr d k.
Proof.
  induction fuel as [|fuel IH]; intros dets keep Hlen Hdesc Hrun d Hd.
  - destruct dets; [destruct Hd | cbn in Hlen; lia].
  - destruct dets as [|top rest]; [destruct Hd|].
    cbn [nms_loop] in Hrun. rewrite nms_remaining_filter in Hrun.
    cbn [rbind] in Hrun.
    set (remaining := filter (fun d => negb (Qltb thr (detection_iou top d))) rest) in *.
    destruct (nms_loop fuel remaining thr) as [keep'|e] eqn:Hrest; [|discriminate].
    cbn [rbind] in Hrun. inversion Hrun; subst keep. clear Hrun.
    inversion Hdesc as [|x xs Hdrest Hall]; subst.
    destruct Hd as [<-|Hd]; [left; left; reflexivity|].
    destruct (Qltb thr (detection_iou top d)) eqn:Hov.
    + right. exists top. split; [left; reflexivity|].
      split; [|apply Qltb_lt, Hov].
      rewrite Forall_forall in Hall. apply Hall, Hd.
    + assert (Hin : In d remaining).
      { apply filter_In. split; [exact Hd|]. rewrite Hov. reflexivity. }
      destruct (IH remaining keep') with (d := d) as [Hk|(k & Hk & Hs)].
      * pose proof (filter_length_le
                      (fun d => negb (Qltb thr (detection_iou top d))) rest).
        cbn in Hlen. fold remaining in H. lia.
      * apply filter_strongly_sorted, Hdrest.
      * exact Hrest.
      * exact Hin.
      * left. right. exact Hk.
      * right. exists k. split; [right; exact Hk | exact Hs].
Qed.

(** X3. What non-max suppression keeps comes from the input, in order of
    descending confidence, no kept detection overlaps a later kept one by
    more than the threshold, and every input detection is either kept or
    overlaps by more than the threshold a kept detection that is at least
    as confident. *)
Theorem non_max_suppression_keeps_and_covers :
  forall (dets : list Detection.t) (iou_threshold : Q),
  exists keep,
    non_max_suppression dets iou_threshold = Ok keep /\
    incl keep dets /\ (List.length keep <= List.length dets)%nat /\
    descending keep /\ separated iou_threshold keep /\
    forall d, In d dets ->
              In d keep \/ exists k, In k keep /\ suppressed_by iou_threshold d k.
Proof.
  intros dets thr.
  pose proof (sorted_by_confidence_perm dets) as Hperm.
  pose proof (sorted_by_confidence_descending dets) as Hdesc.
  destruct (nms_loop_greedy thr (List.length (sorted_by_confidence dets))
              (sorted_by_confidence dets) (le_n _))
    as (keep & Hrun & _ & Hincl & Hsep & Hsorted).
  exists keep. rewrite non_max_suppression_unfold. split; [exact Hrun|].
  assert (Hin : incl keep dets).
  { intros x Hx. apply (Permutation_in _ (Permutation_sym Hperm)), Hincl, Hx. }
  split; [exact Hin|]. split.
  - rewrite (Permutation_length Hperm).
    assert (Hsub : forall fuel l k, nms_loop fuel l thr = Ok k ->
                                    (List.length k <= List.length l)%nat).
    { clear. induction fuel as [|fuel IH]; intros l k Hk.
      - destruct l; cbn in Hk; inversion Hk; cbn; lia.
      - destruct l as [|top rest]; [cbn in Hk; inversion Hk; cbn; lia|].
        cbn [nms_loop] in Hk. rewrite nms_remaining_filter in Hk. cbn [rbind] in Hk.
        destruct (nms_loop fuel _ thr) as [k'|e] eqn:Hk'; [|discriminate].
        cbn [rbind] in Hk. inversion Hk; subst k. apply IH in Hk'.
        pose proof (filter_length_le
                      (fun d => negb (Qltb thr (detection_iou top d))) rest).
        cbn. lia. }
    apply (Hsub _ _ _ Hrun).
  - split; [apply Hsorted, Hdesc|]. split; [exact Hsep|].
    intros d Hd.
    apply (nms_loop_covers thr _ _ keep (le_n _) Hdesc Hrun).
    apply (Permutation_in _ Hperm), Hd.
Qed.

(** X4. With a negative threshold, on a non-empty input, only one
    detection survives non-max suppression, and it is one of greatest
    confidence. *)
Theorem non_max_suppression_negative_threshold :
  forall (dets : list Detection.t) (iou_threshold : Q),
    iou_threshold < 0 -> dets <> [] ->
    exists top,
      non_max_suppression dets iou_threshold = Ok [top] /\
      In top dets /\
      forall d, In d dets -> Detection.confidence d <= Detection.confidence top.
Proof.
  intros dets thr Hthr Hne.
  pose proof (sorted_by_confidence_perm dets) as Hperm.
  pose proof (sorted_by_confidence_descending dets) as Hdesc.
  rewrite non_max_suppression_unfold.
  destruct (sorted_by_confidence dets) as [|top rest] eqn:Hs.
  - apply Permutation_sym, Permutation_nil in Hperm. congruence.
  - exists top. split; [|split].
    + cbn [List.length nms_loop]. rewrite nms_remaining_filter. cbn [rbind].
      assert (Hnone : filter (fun d => negb (Qltb thr (detection_iou top d))) rest = []).
      { apply filter_none. intros x _. apply negb_false_iff, Qltb_lt.
        eapply Qlt_le_trans; [exact Hthr | apply detection_iou_bounds]. }
      rewrite Hnone. destruct (List.length rest); reflexivity.
    + apply (Permutation_in _ (Permutation_sym Hperm)). left. reflexivity.
    + intros d Hd. apply (Permutation_in _ Hperm) in Hd.
      inversion Hdesc as [|x xs _ Hall]; subst.
      destruct Hd as [<-|Hd]; [apply Qle_refl|].
      rewrite Forall_forall in Hall. apply Hall, Hd.
Qed.

Lemma non_max_suppression_negative_threshold_witness :
  exists top,
    non_max_suppression [exact_detection; partial_detection] (-1) = Ok [top] /\
    In top [exact_detection; partial_detection] /\
    forall d, In d [exact_detection; partial_detection] ->
              Detection.confidence d <= Detection.confidence top.
Proof.
  apply (non_max_suppression_negative_threshold [exact_detection; partial_detection] (-1)).
  - reflexivity.
  - discriminate.
Defined.

(** ** Validation in utils.py *)

(** X5. [validate_video_file] never raises; it answers [True] exactly for
    a file that exists, has a video extension, opens and delivers a first
    frame; it reads at most one frame and leaves the frame counter and the
    files alone. *)
Theorem validate_video_file_decides :
  forall (E : External) (video_path : string) (w : World),
  exists (valid : bool) (w' : World),
    validate_video_file video_path w = (Ok valid, w') /\
    (valid = true <-> validates w video_path) /\
    (frame_reads (trace w') <= frame_reads (trace w) + 1)%nat /\
    processed_frames w' = processed_frames w /\
    fs w' = fs w.
Proof.
  intros E video_path w.
  destruct (validate_video_file_cases video_path w)
    as (valid & t & Hrun & Hcases).
  eexists. eexists. split; [exact Hrun|].
  cbn [trace processed_frames fs]. rewrite frame_reads_app.
  destruct Hcases as [(Hv & Hval & Ht) | (Hv & Hnot & Ht)]; subst valid.
  - split; [tauto|]. subst t. cbn. split; [lia|]. split; reflexivity.
  - split; [split; [discriminate | intro; contradiction]|].
    split; [|split; reflexivity].
    destruct Ht as [ -> | [ -> | -> ] ]; cbn; lia.
Qed.

Lemma Qle_bool_false (a b : Q) : Qle_bool a b = false <-> b < a.
Proof.
  split.
  - intro Hf. apply Qnot_le_lt. intro Hle. apply Qle_bool_iff in Hle. congruence.
  - intro Hlt. destruct (Qle_bool a b) eqn:Hb; [|reflexivity].
    apply Qle_bool_iff in Hb. exfalso. apply (Qlt_not_le _ _ Hlt Hb).
Qed.

(** X6. [validate_slot_coordinates] accepts exactly the rectangles of
    positive width and height that lie within the frame, a missing
    coordinate counting as 0; so a dictionary without a width or without a
    height is never accepted. *)
Theorem validate_slot_coordinates_decides :
  (forall (c : CoordinatesDict.t) (frame_height frame_width : Z),
      validate_slot_coordinates c (frame_height, frame_width) = true <->
      within_frame frame_height frame_width (dict_box c) /\ positive_box (dict_box c))
  /\
  (forall (c : CoordinatesDict.t) (frame_shape : Z * Z),
      CoordinatesDict.width c = None \/ CoordinatesDict.height c = None ->
      validate_slot_coordinates c frame_shape = false).
Proof.
  assert (Hiff : forall (c : CoordinatesDict.t) (frame_height frame_width : Z),
             validate_slot_coordinates c (frame_height, frame_width) = true <->
             within_frame frame_height frame_width (dict_box c)
             /\ positive_box (dict_box c)).
  { intros c fh fw. unfold validate_slot_coordinates, within_frame, positive_box, dict_box.
    set (x := get_or_zero (CoordinatesDict.x c)).
    set (y := get_or_zero (CoordinatesDict.y c)).
    set (wd := get_or_zero (CoordinatesDict.width c)).
    set (ht := get_or_zero (CoordinatesDict.height c)).
    destruct (Qltb x 0) eqn:Hx; cbn [orb].
    { apply Qltb_lt in Hx. split; [discriminate|]. intros [(H & _) _]. lra. }
    apply Qltb_ge in Hx.
    destruct (Qltb y 0) eqn:Hy.
    { apply Qltb_lt in Hy. split; [discriminate|]. intros [(_ & H & _) _]. lra. }
    apply Qltb_ge in Hy.
    destruct (Qltb (inject_Z fw) (x + wd)) eqn:Hr.
    { apply Qltb_lt in Hr. split; [discriminate|]. intros [(_ & _ & H & _) _]. lra. }
    apply Qltb_ge in Hr.
    destruct (Qltb (inject_Z fh) (y + ht)) eqn:Hb.
    { apply Qltb_lt in Hb. split; [discriminate|]. intros [(_ & _ & _ & H) _]. lra. }
    apply Qltb_ge in Hb.
    destruct (Qle_bool wd 0) eqn:Hw; cbn [orb].
    { apply Qle_bool_iff in Hw. split; [discriminate|]. intros [_ [H _]]. lra. }
    apply Qle_bool_false in Hw.
    destruct (Qle_bool ht 0) eqn:Hh.
    { apply Qle_bool_iff in Hh. split; [discriminate|]. intros [_ [_ H]]. lra. }
    apply Qle_bool_false in Hh.
    split; [|reflexivity]. intros _. repeat split; assumption. }
  split; [exact Hiff|].
  intros c [fh fw] Hmissing.
  destruct (validate_slot_coordinates c (fh, fw)) eqn:Hv; [|reflexivity].
  apply Hiff in Hv. destruct Hv as [_ Hpos].
  unfold positive_box, dict_box in Hpos. destruct Hpos as [Hw Hh].
  destruct Hmissing as [Hm|Hm]; rewrite Hm in *; cbn in *; discriminate.
Qed.

Lemma validate_slot_coordinates_decides_witness :
  validate_slot_coordinates
    (CoordinatesDict.mk (Some 50) (Some 50) None (Some 200)) (480%Z, 640%Z) = false.
Proof.
  apply (proj2 validate_slot_coordinates_decides).
  left. reflexivity.
Defined.

(** *** [parse_slot_config] *)

Lemma json_contains_object (key : string) (fields : list (string * json)) :
  json_contains key (JObject fields) = inr true <-> has_key key fields.
Proof.
  unfold json_contains, has_key. destruct (object_get key fields) as [v|].
  - split; [intros _; exists v; reflexivity | reflexivity].
  - split; [discriminate | intros [v Hv]; discriminate].
Qed.

Lemma check_coords_object (coords : list (string * json)) :
  check_coords required_coords (JObject coords) = inr tt <->
  forall coord, In coord required_coords ->
                exists v, object_get coord coords = Some v /\ is_number v = true.
Proof.
  unfold required_coords. cbn [check_coords json_contains json_item]. split.
  - intros Hrun coord Hin.
    destruct (object_get "x" coords) as [vx|] eqn:Hx; [|discriminate].
    destruct (is_number vx) eqn:Hnx; [|discriminate].
    destruct (object_get "y" coords) as [vy|] eqn:Hy; [|discriminate].
    destruct (is_number vy) eqn:Hny; [|discriminate].
    destruct (object_get "width" coords) as [vw|] eqn:Hw; [|discriminate].
    destruct (is_number vw) eqn:Hnw; [|discriminate].
    destruct (object_get "height" coords) as [vh|] eqn:Hh; [|discriminate].
    destruct (is_number vh) eqn:Hnh; [|discriminate].
    destruct Hin as [<-|[<-|[<-|[<-|[]]]]]; eexists; split; eassumption.
  - intro Hall.
    destruct (Hall "x"%string) as (vx & Hx & Hnx); [cbn; tauto|].
    destruct (Hall "y"%string) as (vy & Hy & Hny); [cbn; tauto|].
    destruct (Hall "width"%string) as (vw & Hw & Hnw); [cbn; tauto|].
    destruct (Hall "height"%string) as (vh & Hh & Hnh); [cbn; tauto|].
    rewrite Hx, Hnx, Hy, Hny, Hw, Hnw, Hh, Hnh. reflexivity.
Qed.

Lemma check_coords_not_object (coords : json) :
  (forall fields, coords <> JObject fields) ->
  check_coords required_coords coords <> inr tt.
Proof.
  intro Hnot. unfold required_coords. cbn [check_coords].
  destruct coords as [| b | q | s | items | fields]; cbn [json_contains json_item];
    try discriminate.
  - destruct (occurs_in "x" s); discriminate.
  - destruct (existsb _ items); discriminate.
  - exfalso. apply (Hnot fields). reflexivity.
Qed.

Lemma check_slot_well_formed (slot : json) :
  check_slot slot = inr tt <-> well_formed_slot slot.
Proof.
  unfold check_slot, well_formed_slot, required_fields. split.
  - intro Hrun.
    destruct slot as [| b | q | s | items | fields];
      cbn [check_required json_contains json_item] in Hrun; try discriminate.
    + destruct (occurs_in "id" s); [|discriminate].
      destruct (occurs_in "slot_number" s); [|discriminate].
      destruct (occurs_in "coordinates" s); discriminate.
    + destruct (existsb _ items); [|discriminate].
      destruct (existsb _ items); [|discriminate].
      destruct (existsb _ items); discriminate.
    + destruct (object_get "id" fields) as [vi|] eqn:Hid; [|discriminate].
      destruct (object_get "slot_number" fields) as [vn|] eqn:Hn; [|discriminate].
      destruct (object_get "coordinates" fields) as [vc|] eqn:Hc; [|discriminate].
      destruct vc as [| b | q | s | items | coords];
        try (exfalso; revert Hrun; apply check_coords_not_object;
             intros f Hf; discriminate).
      exists fields, coords. split; [reflexivity|].
      split; [exists vi; exact Hid|]. split; [exists vn; exact Hn|].
      split; [exact Hc|]. apply check_coords_object, Hrun.
  - intros (fields & coords & -> & [vi Hid] & [vn Hn] & Hc & Hall).
    cbn [check_required json_contains json_item].
    rewrite Hid, Hn, Hc. apply check_coords_object in Hall.
    rewrite Hall. reflexivity.
Qed.

Lemma check_slots_well_formed (slots : list json) :
  check_slots slots = inr tt <-> Forall well_formed_slot slots.
Proof.
  induction slots as [|slot rest IH]; cbn [check_slots].
  - split; [constructor | reflexivity].
  - destruct (check_slot slot) as [e|[]] eqn:Hs.
    + split; [discriminate|]. intro Hall. inversion Hall as [|x xs Hw _]; subst.
      apply check_slot_well_formed in Hw. congruence.
    + rewrite IH. split.
      * intro Hrest. constructor; [apply check_slot_well_formed, Hs | exact Hrest].
      * intro Hall. inversion Hall. assumption.
Qed.

(** X7. [parse_slot_config] returns exactly on a JSON list whose entries
    are all well-formed slot dictionaries, and then returns that list as it
    is; in particular the empty list is accepted.  Undecodable text and a
    value that is not a list raise [ValueError]. *)
Theorem parse_slot_config_accepts :
  (forall (decoded : string + json) (slots : list json),
      parse_slot_config decoded = inr slots <->
      decoded = inr (JArray slots) /\ Forall well_formed_slot slots)
  /\ parse_slot_config (inr (JArray [])) = inr []
  /\ (forall msg,
         parse_slot_config (inl msg)
         = inl (ConfigValueError ("Invalid JSON in slot configuration: " ++ msg)))
  /\ (forall value,
         (forall items, value <> JArray items) ->
         parse_slot_config (inr value)
         = inl (ConfigValueError "Slot configuration must be a list")).
Proof.
  split; [|split; [reflexivity|split]].
  - intros decoded slots. unfold parse_slot_config. split.
    + destruct decoded as [msg|value]; [discriminate|].
      destruct value as [| b | q | s | items | fields]; try discriminate.
      destruct (check_slots items) as [e|[]] eqn:Hc; [discriminate|].
      intro Heq. inversion Heq; subst. split; [reflexivity|].
      apply check_slots_well_formed, Hc.
    + intros [-> Hall]. apply check_slots_well_formed in Hall.
      rewrite Hall. reflexivity.
  - reflexivity.
  - intros value Hnot. unfold parse_slot_config.
    destruct value as [| b | q | s | items | fields]; try reflexivity.
    exfalso. apply (Hnot items). reflexivity.
Qed.

Lemma parse_slot_config_accepts_witness :
  parse_slot_config (inr (JString "[]"))
  = inl (ConfigValueError "Slot configuration must be a list").
Proof.
  apply (proj2 (proj2 (proj2 parse_slot_config_accepts))).
  intros items Hitems. discriminate.
Defined.

(** ** Frame extraction and resizing *)

Section Extract.
Context {E : External}.

Lemma traced_traced (w : World) (t1 t2 : list Event) :
  traced (traced w t1) t2 = traced w (t1 ++ t2).
Proof. unfold traced. cbn. rewrite app_assoc. reflexivity. Qed.

Lemma log_traced (e : Event) (w : World) : log e w = (Ok tt, traced w [e]).
Proof. reflexivity. Qed.

Lemma sample_test (c n : nat) :
  (0 < n)%nat ->
  (Z.of_nat c mod Z.of_nat n =? 0)%Z = (c mod n =? 0)%nat.
Proof.
  intro Hn. rewrite <- Nat2Z.inj_mod.
  destruct (c mod n =? 0)%nat eqn:Hc.
  - apply Nat.eqb_eq in Hc. rewrite Hc. reflexivity.
  - apply Nat.eqb_neq in Hc. apply Z.eqb_neq. lia.
Qed.

Lemma extract_loop_run (n : nat) :
  (0 < n)%nat ->
  forall (remaining : list Image) (c : nat) (acc : list Image) (w : World),
    extract_loop (Z.of_nat n) remaining c acc w
    = (Ok (acc ++ map snd (sampled n c remaining)),
       traced w (repeat EvRead (S (List.length remaining)))).
Proof.
  intro Hn. induction remaining as [|frame rest IH]; intros c acc w.
  - cbn [extract_loop]. unfold bind. rewrite log_traced. unfold ret.
    rewrite sampled_nil, app_nil_r. reflexivity.
  - cbn [extract_loop]. unfold bind at 1. rewrite log_traced.
    assert (Hz : (Z.of_nat n =? 0)%Z = false) by (apply Z.eqb_neq; lia).
    rewrite Hz, IH, traced_traced, sampled_cons, sample_test by exact Hn.
    destruct (c mod n =? 0)%nat; cbn [map snd List.length repeat app];
      rewrite <- ?app_assoc; reflexivity.
Qed.

End Extract.

(** X8. [extract_frames] with a positive interval returns the frames
    whose index is a multiple of the interval (the frames an analysis pass
    with that interval samples), reading every frame once more than the
    video has frames and releasing the capture; with interval 0 on a video
    that delivers a frame it raises [ZeroDivisionError] after the first
    read and still releases the capture. *)
Theorem extract_frames_samples_and_releases :
  (forall (E : External) (video_path : string) (n : nat) (w : World),
      (0 < n)%nat ->
      extract_frames video_path (Z.of_nat n) w
      = (Ok (map snd (sampled n 0 (capture_frames w video_path))),
         traced w (EvOpen video_path
                     :: repeat EvRead (S (List.length (capture_frames w video_path)))
                     ++ [EvRelease])))
  /\
  (forall (E : External) (video_path : string) (w : World),
      capture_frames w video_path <> [] ->
      extract_frames video_path 0 w
      = (Raise ZeroDivisionError,
         traced w [EvOpen video_path; EvRead; EvRelease])).
Proof.
  split.
  - intros E video_path n w Hn.
    unfold extract_frames, bind at 1. rewrite log_traced.
    unfold bind, get, finally.
    change (capture_frames (traced w [EvOpen video_path]) video_path)
      with (capture_frames w video_path).
    rewrite (extract_loop_run n Hn), log_traced, !traced_traced.
    cbn [app]. reflexivity.
  - intros E video_path w Hne.
    unfold extract_frames, bind at 1. rewrite log_traced.
    unfold bind, get, finally.
    change (capture_frames (traced w [EvOpen video_path]) video_path)
      with (capture_frames w video_path).
    destruct (capture_frames w video_path) as [|frame rest]; [congruence|].
    cbn [extract_loop]. unfold bind. rewrite log_traced. cbn [Z.eqb].
    unfold raise. rewrite log_traced, !traced_traced. reflexivity.
Qed.

Lemma extract_frames_samples_and_releases_witness :
  @extract_frames sample_external "lot.mp4" (Z.of_nat 2) sample_disk
  = (Ok (map snd (sampled 2 0 (@capture_frames sample_external sample_disk "lot.mp4"))),
     @traced sample_external sample_disk
       (@EvOpen sample_external "lot.mp4"
          :: repeat (@EvRead sample_external)
               (S (List.length (@capture_frames sample_external sample_disk "lot.mp4")))
          ++ [@EvRelease sample_external])).
Proof.
  apply (proj1 extract_frames_samples_and_releases sample_external). lia.
Defined.

Lemma py_int_floor (q : Q) : 0 <= q -> py_int q = Qfloor q.
Proof.
  intro Hq. unfold py_int, Qfloor. destruct q as [num den].
  unfold Qle in Hq. cbn in *. apply Z.quot_div_nonneg; lia.
Qed.

Lemma py_int_bounds (q : Q) :
  0 <= q -> (0 <= py_int q)%Z /\ inject_Z (py_int q) <= q.
Proof.
  intro Hq. rewrite (py_int_floor q Hq). split.
  - change 0%Z with (Qfloor 0). apply Qfloor_resp_le, Hq.
  - apply Qfloor_le.
Qed.

(** X9. [resize_frame] never enlarges a frame: a frame that fits the
    limits is returned as it is, and otherwise the size handed to
    [cv2.resize] fits within the limits and within the frame's own size.
    A frame of width 0 makes it raise [ZeroDivisionError]. *)
Theorem resize_frame_never_enlarges :
  (forall (E : External) (frame : Image) (max_width max_height : Z),
      (0 < fst (shape frame))%Z -> (0 < snd (shape frame))%Z ->
      (0 < max_width)%Z -> (0 < max_height)%Z ->
      exists size,
        resize_frame_size frame max_width max_height = Ok size /\
        (size = None <->
         (snd (shape frame) <= max_width)%Z /\ (fst (shape frame) <= max_height)%Z) /\
        forall new_width new_height,
          size = Some (new_width, new_height) ->
          (0 <= new_width <= max_width)%Z /\ (0 <= new_height <= max_height)%Z /\
          (new_width <= snd (shape frame))%Z /\ (new_height <= fst (shape frame))%Z)
  /\
  (forall (E : External) (frame : Image) (max_width max_height : Z),
      snd (shape frame) = 0%Z ->
      resize_frame_size frame max_width max_height = Raise ZeroDivisionError).
Proof.
  split.
  - intros E frame mw mh Hh Hw Hmw Hmh.
    unfold resize_frame_size. destruct (shape frame) as [h wd]. cbn [fst snd] in *.
    assert (Hwq : 0 < inject_Z wd) by (change 0 with (inject_Z 0); rewrite <- Zlt_Qlt; lia).
    assert (Hhq : 0 < inject_Z h) by (change 0 with (inject_Z 0); rewrite <- Zlt_Qlt; lia).
    assert (Hmwq : 0 < inject_Z mw) by (change 0 with (inject_Z 0); rewrite <- Zlt_Qlt; lia).
    assert (Hmhq : 0 < inject_Z mh) by (change 0 with (inject_Z 0); rewrite <- Zlt_Qlt; lia).
    rewrite (pydiv_pos _ _ Hwq), (pydiv_pos _ _ Hhq). cbn [rbind].
    set (sw := inject_Z mw / inject_Z wd).
    set (sh := inject_Z mh / inject_Z h).
    set (scale := Qmin (Qmin sw sh) 1).
    assert (Hsw : sw * inject_Z wd == inject_Z mw) by (unfold sw; field; lra).
    assert (Hsh : sh * inject_Z h == inject_Z mh) by (unfold sh; field; lra).
    assert (Hsw0 : 0 < sw) by (unfold sw; apply Qlt_shift_div_l; lra).
    assert (Hsh0 : 0 < sh) by (unfold sh; apply Qlt_shift_div_l; lra).
    assert (Hs1 : scale <= sw).
    { unfold scale. eapply Qle_trans; [apply Q.le_min_l | apply Q.le_min_l]. }
    assert (Hs2 : scale <= sh).
    { unfold scale. eapply Qle_trans; [apply Q.le_min_l | apply Q.le_min_r]. }
    assert (Hs3 : scale <= 1) by (unfold scale; apply Q.le_min_r).
    assert (Hs0 : 0 < scale).
    { unfold scale. apply Q.min_glb_lt; [apply Q.min_glb_lt; assumption | reflexivity]. }
    destruct (Qltb scale 1) eqn:Hlt.
    + apply Qltb_lt in Hlt. eexists. split; [reflexivity|]. split.
      * split; [discriminate|]. intros [Hfw Hfh]. exfalso.
        rewrite Zle_Qle in Hfw, Hfh.
        assert (1 <= sw) by (unfold sw; apply Qle_shift_div_l; lra).
        assert (1 <= sh) by (unfold sh; apply Qle_shift_div_l; lra).
        assert (1 <= scale).
        { unfold scale. apply Q.min_glb; [apply Q.min_glb; assumption | apply Qle_refl]. }
        lra.
      * intros nw nh Heq. inversion Heq; subst nw nh. clear Heq.
        destruct (py_int_bounds (inject_Z wd * scale)) as [Hnw0 Hnw]; [nra|].
        destruct (py_int_bounds (inject_Z h * scale)) as [Hnh0 Hnh]; [nra|].
        assert (inject_Z wd * scale <= inject_Z mw) by nra.
        assert (inject_Z h * scale <= inject_Z mh) by nra.
        assert (inject_Z wd * scale <= inject_Z wd) by nra.
        assert (inject_Z h * scale <= inject_Z h) by nra.
        assert ((py_int (inject_Z wd * scale) <= mw)%Z) by (rewrite Zle_Qle; lra).
        assert ((py_int (inject_Z h * scale) <= mh)%Z) by (rewrite Zle_Qle; lra).
        assert ((py_int (inject_Z wd * scale) <= wd)%Z) by (rewrite Zle_Qle; lra).
        assert ((py_int (inject_Z h * scale) <= h)%Z) by (rewrite Zle_Qle; lra).
        lia.
    + apply Qltb_ge in Hlt. eexists. split; [reflexivity|]. split.
      * split; [|reflexivity]. intros _.
        assert (1 <= sw) by lra. assert (1 <= sh) by lra.
        rewrite !Zle_Qle. split; nra.
      * intros nw nh Heq. discriminate.
  - intros E frame mw mh Hw. unfold resize_frame_size.
    destruct (shape frame) as [h wd]. cbn [snd] in Hw. subst wd. reflexivity.
Qed.

Lemma resize_frame_never_enlarges_witness :
  exists size,
    @resize_frame_size sample_external 0%nat 320 240 = Ok size /\
    (size = None <->
     (snd (@shape sample_external 0%nat) <= 320)%Z /\
     (fst (@shape sample_external 0%nat) <= 240)%Z) /\
    forall new_width new_height,
      size = Some (new_width, new_height) ->
      (0 <= new_width <= 320)%Z /\ (0 <= new_height <= 240)%Z /\
      (new_width <= snd (@shape sample_external 0%nat))%Z /\
      (new_height <= fst (@shape sample_external 0%nat))%Z.
Proof.
  apply (proj1 resize_frame_never_enlarges sample_external 0%nat 320%Z 240%Z);
    reflexivity.
Defined.

(** ** More on the detector *)

Lemma vehicle_class_in (class_id : Z) (name : string) :
  ParkingDetector.vehicle_class class_id = Some name ->
  In (class_id, name) ParkingDetector.vehicle_classes.
Proof.
  unfold ParkingDetector.vehicle_class.
  destruct (find _ ParkingDetector.vehicle_classes) as [[k v]|] eqn:Hf; [|discriminate].
  cbn. intro Heq. inversion Heq; subst v.
  destruct (find_some _ _ Hf) as [Hin Hk]. cbn in Hk.
  apply Z.eqb_eq in Hk. subst k. exact Hin.
Qed.

Lemma vehicle_boxes_spec (boxes : list YoloBox.t) :
  Forall vehicle_detection (ParkingDetector.vehicle_boxes boxes) /\
  (List.length (ParkingDetector.vehicle_boxes boxes) <= List.length boxes)%nat.
Proof.
  induction boxes as [|box rest [IHall IHlen]]; [split; [constructor | reflexivity]|].
  cbn [ParkingDetector.vehicle_boxes].
  destruct (YoloBox.xyxy box) as [[[x1 y1] x2] y2].
  destruct (ParkingDetector.vehicle_class (py_int (YoloBox.cls box))) as [name|] eqn:Hc.
  - split; [|cbn; lia]. constructor; [|exact IHall].
    exists name. split; [apply vehicle_class_in, Hc | reflexivity].
  - split; [exact IHall | cbn; lia].
Qed.

Lemma yolo_detections_spec (results : list (option (list YoloBox.t))) :
  Forall vehicle_detection (ParkingDetector.yolo_detections results) /\
  (List.length (ParkingDetector.yolo_detections results) <= box_count results)%nat.
Proof.
  unfold box_count.
  induction results as [|[boxes|] rest [IHall IHlen]]; [split; [constructor | reflexivity]| |].
  - cbn [ParkingDetector.yolo_detections flat_map].
    destruct (vehicle_boxes_spec boxes) as [Hall Hlen].
    split; [apply Forall_app; split; assumption|].
    rewrite !length_app. lia.
  - cbn [ParkingDetector.yolo_detections flat_map]. split; [exact IHall | exact IHlen].
Qed.

Section Detector.
Context {E : External}.

Lemma detect_vehicles_model (frame : Image) (w : World)
    (results : list (option (list YoloBox.t))) :
  model_loaded w = true -> yolo frame = Some results ->
  ParkingDetector.detect_vehicles frame w
  = (Ok (ParkingDetector.yolo_detections results), traced w [EvDetect frame]).
Proof.
  intros Hm Hy. unfold ParkingDetector.detect_vehicles, bind, log, get, traced.
  cbn [model_loaded]. rewrite Hm, Hy. reflexivity.
Qed.

Lemma detect_vehicles_fallback (frame : Image) (w : World) :
  model_loaded w = false \/ yolo frame = None ->
  ParkingDetector.detect_vehicles frame w
  = ParkingDetector._mock_detect_vehicles frame (traced w [EvDetect frame]).
Proof.
  intro Hcase. unfold ParkingDetector.detect_vehicles, bind, log, get, traced.
  cbn [model_loaded fst snd].
  destruct (model_loaded w) eqn:Hm; cbn [negb].
  - destruct Hcase as [Hf|Hy]; [discriminate|]. rewrite Hy. reflexivity.
  - reflexivity.
Qed.

Lemma mock_detections_class (n : nat) (width height : Z) :
  forall w dets w',
    ParkingDetector.mock_detections n width height w = (Ok dets, w') ->
    Forall vehicle_detection dets.
Proof.
  induction n as [|n IH]; intros w dets w' Hrun.
  - cbn in Hrun. inversion Hrun. constructor.
  - cbn [ParkingDetector.mock_detections] in Hrun.
    apply bind_inv in Hrun. destruct Hrun as (x & w1 & _ & Hrun).
    apply bind_inv in Hrun. destruct Hrun as (y & w2 & _ & Hrun).
    apply bind_inv in Hrun. destruct Hrun as (bw & w3 & _ & Hrun).
    apply bind_inv in Hrun. destruct Hrun as (bh & w4 & _ & Hrun).
    cbv zeta in Hrun.
    apply bind_inv in Hrun. destruct Hrun as (c & w5 & _ & Hrun).
    apply bind_inv in Hrun. destruct Hrun as (rest & w6 & Hrest & Hrun).
    unfold ret in Hrun. inversion Hrun; subst. constructor; [|eapply IH; exact Hrest].
    exists "car"%string. split; [left; reflexivity | reflexivity].
Qed.

(** Whatever path it takes, the detector returns vehicle detections. *)
Lemma detect_vehicles_classes (frame : Image) (w w' : World)
    (dets : list Detection.t) :
  ParkingDetector.detect_vehicles frame w = (Ok dets, w') ->
  Forall vehicle_detection dets.
Proof.
  intro Hrun.
  destruct (model_loaded w) eqn:Hm; [destruct (yolo frame) as [results|] eqn:Hy|].
  - rewrite (detect_vehicles_model frame w results Hm Hy) in Hrun.
    inversion Hrun. apply yolo_detections_spec.
  - rewrite (detect_vehicles_fallback frame w (or_intror Hy)) in Hrun.
    unfold ParkingDetector._mock_detect_vehicles in Hrun.
    destruct (shape frame) as [h wd].
    apply bind_inv in Hrun. destruct Hrun as (n & w1 & _ & Hrun).
    eapply mock_detections_class; exact Hrun.
  - rewrite (detect_vehicles_fallback frame w (or_introl Hm)) in Hrun.
    unfold ParkingDetector._mock_detect_vehicles in Hrun.
    destruct (shape frame) as [h wd].
    apply bind_inv in Hrun. destruct Hrun as (n & w1 & _ & Hrun).
    eapply mock_detections_class; exact Hrun.
Qed.

End Detector.

(** X10. With the model loaded and inference succeeding, [detect_vehicles]
    returns only detections of the vehicle classes (2 car, 3 motorcycle,
    5 bus, 7 truck), each with its class name, at most one per box of the
    inference, and draws no random number; without a model, or when
    inference raises, it returns what the synthetic fallback returns. *)
Theorem detect_vehicles_filters_vehicle_classes :
  (forall (E : External) (frame : Image) (w : World)
          (results : list (option (list YoloBox.t))),
      model_loaded w = true -> yolo frame = Some results ->
      exists dets w',
        ParkingDetector.detect_vehicles frame w = (Ok dets, w') /\
        Forall vehicle_detection dets /\
        (List.length dets <= box_count results)%nat /\
        rng_pos w' = rng_pos w)
  /\
  (forall (E : External) (frame : Image) (w : World),
      model_loaded w = false \/ yolo frame = None ->
      ParkingDetector.detect_vehicles frame w
      = ParkingDetector._mock_detect_vehicles frame (traced w [EvDetect frame])).
Proof.
  split.
  - intros E frame w results Hm Hy.
    exists (ParkingDetector.yolo_detections results), (traced w [EvDetect frame]).
    split; [apply detect_vehicles_model; assumption|].
    destruct (yolo_detections_spec results) as [Hall Hlen].
    split; [exact Hall|]. split; [exact Hlen | reflexivity].
  - intros E frame w Hcase. apply detect_vehicles_fallback, Hcase.
Qed.

Lemma detect_vehicles_filters_vehicle_classes_witness :
  (exists dets w',
      @ParkingDetector.detect_vehicles busy_external 30%nat busy_world = (Ok dets, w') /\
      Forall vehicle_detection dets /\
      (List.length dets <= box_count (busy_results 30))%nat /\
      rng_pos w' = rng_pos busy_world /\
      dets = busy_detections 30 /\
      map Detection.class_id dets = [2; 7; 5]%Z)
  /\
  @ParkingDetector.detect_vehicles shaped_external (480, 640)%Z (drawing_world [])
  = @ParkingDetector._mock_detect_vehicles shaped_external (480, 640)%Z
      (@traced shaped_external (drawing_world [])
               [@EvDetect shaped_external (480, 640)%Z]).
Proof.
  split.
  - destruct (proj1 detect_vehicles_filters_vehicle_classes busy_external 30%nat
                    busy_world (busy_results 30))
      as (dets & w' & Hrun & Hall & Hlen & Hrng); [reflexivity | reflexivity|].
    exists dets, w'. split; [exact Hrun|]. split; [exact Hall|].
    split; [exact Hlen|]. split; [exact Hrng|].
    vm_compute in Hrun. inversion Hrun. split; vm_compute; reflexivity.
  - apply (proj2 detect_vehicles_filters_vehicle_classes shaped_external).
    left. reflexivity.
Defined.

(** X11. Without a usable model, on a frame of at least 149 by 79 pixels,
    [detect_vehicles] returns at most four synthetic detections, each of
    class car with confidence between 0.6 and 0.95 and a box within the
    frame. *)
Theorem synthetic_detections_on_large_frames :
  forall (E : External) (frame : Image) (w : World),
    model_loaded w = false \/ yolo frame = None ->
    (149 <= snd (shape frame))%Z -> (79 <= fst (shape frame))%Z ->
    exists dets w',
      ParkingDetector.detect_vehicles frame w = (Ok dets, w') /\
      (List.length dets <= 4)%nat /\
      Forall (synthetic_detection (fst (shape frame)) (snd (shape frame))) dets.
Proof.
  intros E frame w Hcase Hw Hh.
  rewrite (detect_vehicles_fallback frame w Hcase).
  apply mock_detect_well_formed; assumption.
Qed.

Lemma synthetic_detections_on_large_frames_witness :
  exists dets w',
    @ParkingDetector.detect_vehicles shaped_external (480, 640)%Z
      (drawing_world [3; 10; 20; 30; 5; 1]) = (Ok dets, w') /\
    (List.length dets <= 4)%nat /\
    Forall (synthetic_detection 480 640) dets.
Proof.
  apply (synthetic_detections_on_large_frames shaped_external (480, 640)%Z
           (drawing_world [3; 10; 20; 30; 5; 1])).
  - left. reflexivity.
  - cbn. lia.
  - cbn. lia.
Defined.

(** ** [analyze_parking_lot] *)

Lemma slot_results_of_spec (rds : list RegionDetection.t) :
  Forall (fun rd => forall v, RegionDetection.detection rd = Some v ->
                              Detection.class (RegionVehicle.detection v) <> None) rds ->
  exists results,
    ParkingDetectorMore.slot_results_of rds = Ok results /\
    Forall2 (fun rd sr =>
               SlotResult.slot_id sr = RegionDetection.region_id rd /\
               SlotResult.slot_number sr = RegionDetection.slot_number rd /\
               SlotResult.is_occupied sr = RegionDetection.is_occupied rd /\
               match RegionDetection.detection rd with
               | Some v =>
                   SlotResult.confidence sr
                   = Detection.confidence (RegionVehicle.detection v) /\
                   SlotResult.vehicle_type sr = Detection.class (RegionVehicle.detection v) /\
                   SlotResult.detection_box sr
                   = Some (Detection.bbox (RegionVehicle.detection v))
               | None =>
                   SlotResult.confidence sr = 0 /\
                   SlotResult.vehicle_type sr = None /\
                   SlotResult.detection_box sr = None
               end) rds results.
Proof.
  induction rds as [|rd rest IH]; intro Hall.
  - exists []. split; [reflexivity | constructor].
  - inversion Hall as [|x xs Hrd Hrest]; subst.
    destruct (IH Hrest) as (others & Hrun & Hshape).
    cbn [ParkingDetectorMore.slot_results_of].
    destruct (RegionDetection.detection rd) as [v|] eqn:Hv.
    + destruct (Detection.class (RegionVehicle.detection v)) as [c|] eqn:Hc;
        [|exfalso; apply (Hrd v eq_refl); exact Hc].
      cbn [rbind]. rewrite Hrun. cbn [rbind]. eexists. split; [reflexivity|].
      constructor; [|exact Hshape]. cbn. rewrite Hv, Hc. repeat split.
    + cbn [rbind]. rewrite Hrun. cbn [rbind]. eexists. split; [reflexivity|].
      constructor; [|exact Hshape]. cbn. rewrite Hv. repeat split.
Qed.

Lemma region_verdicts_classes (regions : list Slot.t) (dets : list Detection.t)
    (rds : list RegionDetection.t) :
  Forall vehicle_detection dets ->
  Forall2 (fun region r => region_verdict region dets r) regions rds ->
  Forall (fun rd => forall v, RegionDetection.detection rd = Some v ->
                              Detection.class (RegionVehicle.detection v) <> None) rds.
Proof.
  intros Hdets Hall. induction Hall as [|region rd regions rds Hv _ IH]; constructor;
    [|exact IH].
  intros v Hdet. destruct Hv as (_ & _ & _ & Hnone & Hsome).
  destruct (RegionDetection.is_occupied rd) eqn:Ho.
  - destruct (Hsome eq_refl) as (best & Hbest & Hin & _).
    assert (best = v) by congruence. subst best.
    rewrite Forall_forall in Hdets. destruct (Hdets _ Hin) as (name & _ & Hname).
    congruence.
  - rewrite (Hnone eq_refl) in Hdet. discriminate.
Qed.

Lemma filter_length_bound {A} (p : A -> bool) (l : list A) :
  (List.length (filter p l) <= List.length l)%nat.
Proof.
  induction l as [|a l IH]; [reflexivity|]. cbn. destruct (p a); cbn; lia.
Qed.

Lemma rate_bounds (occupied total : nat) :
  (occupied <= total)%nat -> (0 < total)%nat ->
  0 <= VideoProcessor.of_nat occupied / VideoProcessor.of_nat total * 100 /\
  VideoProcessor.of_nat occupied / VideoProcessor.of_nat total * 100 <= 100.
Proof.
  intros Hle Hpos. unfold VideoProcessor.of_nat.
  assert (Ht : 0 < inject_Z (Z.of_nat total)).
  { change 0 with (inject_Z 0). rewrite <- Zlt_Qlt. lia. }
  assert (Ho : 0 <= inject_Z (Z.of_nat occupied)).
  { change 0 with (inject_Z 0). rewrite <- Zle_Qle. lia. }
  assert (Hot : inject_Z (Z.of_nat occupied) <= inject_Z (Z.of_nat total)).
  { rewrite <- Zle_Qle. lia. }
  assert (H0 : 0 <= inject_Z (Z.of_nat occupied) / inject_Z (Z.of_nat total)).
  { apply Qle_shift_div_l; [exact Ht | lra]. }
  assert (H1 : inject_Z (Z.of_nat occupied) / inject_Z (Z.of_nat total) <= 1).
  { apply Qle_shift_div_r; [exact Ht | lra]. }
  split; lra.
Qed.

(** X12. Whenever the detector returns, [analyze_parking_lot] returns a
    report: one result per slot, in the order of the configuration and
    with the slot's id; [occupied_slots + available_slots = total_slots];
    the occupancy rate lies between 0 and 100, and is 0 for an empty
    configuration (no division by zero); a free slot has confidence 0 and
    neither vehicle type nor box, an occupied slot has all three. *)
Theorem analyze_parking_lot_report :
  forall (E : External) (frame : Image) (slot_config : list Slot.t)
         (w w1 : World) (dets : list Detection.t),
    ParkingDetector.detect_vehicles frame w = (Ok dets, w1) ->
    exists r,
      ParkingDetectorMore.analyze_parking_lot frame slot_config w = (Ok r, w1) /\
      LotAnalysis.total_slots r = List.length slot_config /\
      (Z.of_nat (LotAnalysis.occupied_slots r) + LotAnalysis.available_slots r
       = Z.of_nat (LotAnalysis.total_slots r))%Z /\
      (0 <= LotAnalysis.available_slots r)%Z /\
      0 <= LotAnalysis.occupancy_rate r /\ LotAnalysis.occupancy_rate r <= 100 /\
      (slot_config = [] -> LotAnalysis.occupancy_rate r = 0) /\
      Forall2 (fun slot sr =>
                 SlotResult.slot_id sr = Slot.id slot /\
                 (SlotResult.is_occupied sr = true <->
                  exists d, In d dets /\ 0.3 < slot_overlap slot d) /\
                 (SlotResult.is_occupied sr = false ->
                  SlotResult.confidence sr = 0 /\
                  SlotResult.vehicle_type sr = None /\
                  SlotResult.detection_box sr = None) /\
                 (SlotResult.is_occupied sr = true ->
                  exists d, In d dets /\
                            SlotResult.confidence sr = Detection.confidence d /\
                            SlotResult.vehicle_type sr = Detection.class d /\
                            SlotResult.detection_box sr = Some (Detection.bbox d)))
              slot_config (LotAnalysis.slot_results r).
Proof.
  intros E frame cfg w w1 dets Hdet.
  destruct (region_detections_spec cfg dets) as (rds & Hrds & Hverdicts).
  pose proof (detect_vehicles_classes frame w w1 dets Hdet) as Hclasses.
  destruct (slot_results_of_spec rds (region_verdicts_classes cfg dets rds Hclasses Hverdicts))
    as (results & Hresults & Hshape).
  assert (Hlen : List.length rds = List.length cfg)
    by (symmetry; apply (Forall2_length Hverdicts)).
  pose proof (filter_length_bound RegionDetection.is_occupied rds) as Hocc.
  set (occupied := List.length (filter RegionDetection.is_occupied rds)) in *.
  assert (Hrate : exists rate,
             (if (0 <? List.length cfg)%nat
              then rbind (pydiv (VideoProcessor.of_nat occupied)
                                (VideoProcessor.of_nat (List.length cfg)))
                         (fun r => Ok (r * 100))
              else Ok 0) = Ok rate /\
             0 <= rate /\ rate <= 100 /\ (cfg = [] -> rate = 0)).
  { destruct cfg as [|s cfg'] eqn:Hcfg.
    - exists 0. cbn. repeat split; discriminate.
    - rewrite <- Hcfg in *.
      assert (Hpos : (0 < List.length cfg)%nat) by (rewrite Hcfg; cbn; lia).
      assert (Hltb : (0 <? List.length cfg)%nat = true) by (apply Nat.ltb_lt, Hpos).
      rewrite Hltb.
      assert (Hq : 0 < VideoProcessor.of_nat (List.length cfg)).
      { unfold VideoProcessor.of_nat. change 0 with (inject_Z 0).
        rewrite <- Zlt_Qlt. lia. }
      rewrite (pydiv_pos _ _ Hq). cbn [rbind]. eexists. split; [reflexivity|].
      destruct (rate_bounds occupied (List.length cfg)) as [H0 H1]; [lia | exact Hpos|].
      split; [exact H0|]. split; [exact H1|]. intro Habs. rewrite Hcfg in Habs.
      discriminate. }
  destruct Hrate as (rate & Hrate & Hr0 & Hr1 & Hrempty).
  eexists. split.
  - unfold ParkingDetectorMore.analyze_parking_lot, ParkingDetector.detect_in_regions.
    unfold bind at 1. unfold bind at 1. rewrite Hdet. unfold lift at 1. rewrite Hrds.
    cbv zeta. fold occupied. unfold lift, bind, ret. rewrite Hrate, Hresults. reflexivity.
  - cbn [LotAnalysis.total_slots LotAnalysis.occupied_slots LotAnalysis.available_slots
         LotAnalysis.occupancy_rate LotAnalysis.slot_results].
    split; [reflexivity|]. split; [lia|]. split; [lia|].
    split; [exact Hr0|]. split; [exact Hr1|]. split; [exact Hrempty|].
    clear - Hverdicts Hshape.
    revert results Hshape.
    induction Hverdicts as [|slot rd cfg rds Hv _ IH]; intros results Hshape.
    + inversion Hshape. constructor.
    + inversion Hshape as [|x sr xs rest Hsr Hrest]; subst.
      constructor; [|apply IH; exact Hrest].
      destruct Hv as (Hid & _ & Hiff & Hnone & Hsome).
      destruct Hsr as (Hsid & _ & Hso & Hdetail).
      split; [congruence|]. split; [rewrite Hso; exact Hiff|]. split.
      * intro Hfree. rewrite Hso in Hfree. rewrite (Hnone Hfree) in Hdetail.
        exact Hdetail.
      * intro Hoccupied. rewrite Hso in Hoccupied.
        destruct (Hsome Hoccupied) as (best & Hbest & Hin & _).
        rewrite Hbest in Hdetail. exists (RegionVehicle.detection best).
        split; [exact Hin | exact Hdetail].
Qed.

Lemma analyze_parking_lot_report_witness :
  exists r w1,
    @ParkingDetectorMore.analyze_parking_lot sample_external 0%nat [sample_slot]
      sample_world = (Ok r, w1) /\
    LotAnalysis.total_slots r = 1%nat /\ LotAnalysis.occupancy_rate r <= 100.
Proof.
  destruct (analyze_parking_lot_report sample_external 0%nat [sample_slot]
              sample_world
              (@traced sample_external sample_world [@EvDetect sample_external 0%nat])
              [] eq_refl)
    as (r & Hrun & Htotal & _ & _ & _ & Hrate & _).
  exists r. eexists. split; [exact Hrun|]. split; assumption.
Defined.

(** ** Threshold setters *)

Lemma clamp_range (t : Q) : in_threshold_range (Qmax 0.1 (Qmin 1 t)).
Proof.
  unfold in_threshold_range. split; [apply Q.le_max_l|].
  apply Q.max_lub; [discriminate | apply Q.le_min_l].
Qed.

Lemma clamp_fixed (t : Q) : in_threshold_range t -> Qmax 0.1 (Qmin 1 t) == t.
Proof.
  unfold in_threshold_range. intros [H0 H1].
  rewrite (Q.min_r 1 t H1). apply Q.max_r, H0.
Qed.

(** X13. The threshold setters clamp: after [set_confidence_threshold] or
    [set_nms_threshold] the threshold set lies in [[0.1, 1]], it is the
    requested value when that lies in the range, and the other threshold
    is untouched. *)
Theorem threshold_setters_clamp :
  forall (self : Settings.t) (threshold : Q),
    (in_threshold_range
       (Settings.confidence_threshold
          (ParkingDetectorMore.set_confidence_threshold self threshold)) /\
     Settings.nms_threshold (ParkingDetectorMore.set_confidence_threshold self threshold)
     = Settings.nms_threshold self /\
     (in_threshold_range threshold ->
      Settings.confidence_threshold
        (ParkingDetectorMore.set_confidence_threshold self threshold) == threshold))
    /\
    (in_threshold_range
       (Settings.nms_threshold (ParkingDetectorMore.set_nms_threshold self threshold)) /\
     Settings.confidence_threshold (ParkingDetectorMore.set_nms_threshold self threshold)
     = Settings.confidence_threshold self /\
     (in_threshold_range threshold ->
      Settings.nms_threshold (ParkingDetectorMore.set_nms_threshold self threshold)
      == threshold)).
Proof.
  intros self threshold. split; cbn.
  - split; [apply clamp_range|]. split; [reflexivity | apply clamp_fixed].
  - split; [apply clamp_range|]. split; [reflexivity | apply clamp_fixed].
Qed.

Lemma threshold_setters_clamp_witness :
  Settings.confidence_threshold
    (ParkingDetectorMore.set_confidence_threshold (Settings.mk 0.5 0.4) 0.7) == 0.7.
Proof.
  apply (proj1 (threshold_setters_clamp (Settings.mk 0.5 0.4) 0.7)).
  split; discriminate.
Defined.

(** ** More on the classifier *)

Section ImageScore.
Context {E : External}.

Lemma analyze_slot_image_le_1 (img : Image) :
  VideoProcessor._analyze_slot_image img <= 1.
Proof.
  unfold VideoProcessor._analyze_slot_image.
  destruct (size img =? 0)%nat; [discriminate | apply Q.le_min_r].
Qed.

Lemma analyze_slot_image_nonneg (img : Image) :
  measured_in_range img -> 0 <= VideoProcessor._analyze_slot_image img.
Proof.
  intros (He0 & He1 & Hv & Hm0 & Hm1).
  unfold VideoProcessor._analyze_slot_image.
  destruct (size img =? 0)%nat; [apply Qle_refl|].
  apply Q.min_glb; [|discriminate].
  assert (Hvar : 0 <= Qmin (variance img / 1000) 1).
  { apply Q.min_glb; [|discriminate]. apply Qle_shift_div_l; [reflexivity | lra]. }
  assert (Hmean : mean_intensity img / 255 <= 1).
  { apply Qle_shift_div_r; [reflexivity | lra]. }
  nra.
Qed.

Lemma fallback_score_crop (frame : Image) (slot : Slot.t) :
  fallback_score frame slot = VideoProcessor._analyze_slot_image (slot_crop frame slot).
Proof.
  unfold fallback_score, slot_crop. destruct (slot_box slot) as [[[x y] w] h].
  reflexivity.
Qed.

End ImageScore.

(** X14. The image score never exceeds 1, is 0 on an empty crop, and is at
    least 0 when the measurements are in their ranges; a score is above the
    0.6 occupancy threshold only if edge density, variance and darkness
    together reach it. *)
Theorem image_score_bounds :
  forall (E : External) (img : Image),
    VideoProcessor._analyze_slot_image img <= 1 /\
    (size img = 0%nat -> VideoProcessor._analyze_slot_image img = 0) /\
    (measured_in_range img -> 0 <= VideoProcessor._analyze_slot_image img) /\
    (0.6 < VideoProcessor._analyze_slot_image img ->
     0.6 < edge_density img * 0.4 + Qmin (variance img / 1000) 1 * 0.3
           + (1 - mean_intensity img / 255) * 0.3).
Proof.
  intros E img. split; [apply analyze_slot_image_le_1|]. split; [|split].
  - intro Hs. unfold VideoProcessor._analyze_slot_image. rewrite Hs. reflexivity.
  - apply analyze_slot_image_nonneg.
  - unfold VideoProcessor._analyze_slot_image.
    destruct (size img =? 0)%nat; [discriminate|].
    intro Hlt. eapply Qlt_le_trans; [exact Hlt | apply Q.le_min_l].
Qed.

Lemma image_score_bounds_witness :
  @VideoProcessor._analyze_slot_image shaped_external (10, 10)%Z = 0.
Proof.
  apply (proj1 (proj2 (image_score_bounds shaped_external (10, 10)%Z))).
  reflexivity.
Defined.

(** X15. The confidence of a verdict lies in [[0, 1]] whenever the
    confidences of the detections are at most 1 and the measurements on the
    slot's crop are in their ranges; a verdict decided by a detection is
    occupied and has a positive confidence; and with an empty crop and no
    deciding detection the slot is free with confidence 0. *)
Theorem verdict_confidence_in_unit :
  forall (E : External) (frame : Image) (slot : Slot.t) (dets : list Detection.t),
  exists v,
    VideoProcessor._analyze_slot_occupancy frame slot dets = Ok v /\
    ((forall d, In d dets -> Detection.confidence d <= 1) ->
     measured_in_range (slot_crop frame slot) ->
     0 <= SlotDetection.confidence v /\ SlotDetection.confidence v <= 1) /\
    (by_detection v ->
     SlotDetection.is_occupied v = true /\ 0 < SlotDetection.confidence v) /\
    (~ by_detection v -> size (slot_crop frame slot) = 0%nat ->
     SlotDetection.is_occupied v = false /\ SlotDetection.confidence v = 0).
Proof.
  intros E frame slot dets.
  destruct (analyze_slot_occupancy_cases frame slot dets)
    as (v & Hv & _ & _ & [Hprim | Hfall]).
  - destruct Hprim as (l1 & d & l2 & Hsplit & Hq & Hpos & _ & _ & Hrec).
    destruct Hrec as (Hocc & Hconf & _ & Hbox).
    exists v. split; [exact Hv|]. split; [|split].
    + intros Hle _. rewrite Hconf. split; [apply Qlt_le_weak, Hpos|].
      apply Hle. rewrite Hsplit. apply in_elt.
    + intros _. split; [exact Hocc | rewrite Hconf; exact Hpos].
    + intro Hnot. exfalso. apply Hnot. exists (Detection.bbox d). exact Hbox.
  - destruct Hfall as (_ & _ & Hbox & Hconf & Hocc).
    exists v. split; [exact Hv|]. rewrite fallback_score_crop in Hconf, Hocc.
    split; [|split].
    + intros _ Hrange. rewrite Hconf.
      split; [apply analyze_slot_image_nonneg, Hrange | apply analyze_slot_image_le_1].
    + intros [b Hb]. rewrite Hbox in Hb. discriminate.
    + intros _ Hsize. rewrite Hocc, Hconf.
      unfold VideoProcessor._analyze_slot_image. rewrite Hsize. split; reflexivity.
Qed.

Lemma verdict_confidence_in_unit_witness :
  exists v,
    @VideoProcessor._analyze_slot_occupancy shaped_external (480, 640)%Z sample_slot []
    = Ok v /\
    SlotDetection.is_occupied v = false /\ SlotDetection.confidence v = 0.
Proof.
  destruct (verdict_confidence_in_unit shaped_external (480, 640)%Z sample_slot [])
    as (v & Hv & _ & _ & Hempty).
  exists v. split; [exact Hv|]. apply Hempty; [|reflexivity].
  intros [b Hb]. vm_compute in Hv. inversion Hv; subst v. discriminate.
Defined.

(** X16. A single detection whose box is the slot's rectangle (of
    positive size) and whose confidence is positive decides the verdict:
    the slot is occupied with the detection's confidence, class and box. *)
Theorem exact_detection_decides :
  forall (E : External) (frame : Image) (slot : Slot.t) (d : Detection.t),
    positive_box (slot_box slot) ->
    Detection.bbox d = slot_box slot ->
    0 < Detection.confidence d ->
    exists v,
      VideoProcessor._analyze_slot_occupancy frame slot [d] = Ok v /\ records v d.
Proof.
  intros E frame slot d Hpos Hbox Hconf.
  assert (Hq : qualifies slot d).
  { unfold qualifies, slot_overlap. rewrite Hbox.
    rewrite (overlap_value_meets _ _ (positive_meets_self _ Hpos)).
    rewrite (iou_value_self _ Hpos). reflexivity. }
  destruct (analyze_slot_occupancy_cases frame slot [d])
    as (v & Hv & _ & _ & [Hprim | Hfall]).
  - destruct Hprim as (l1 & d' & l2 & Hsplit & _ & _ & _ & _ & Hrec).
    exists v. split; [exact Hv|].
    assert (d' = d).
    { destruct l1 as [|a l1]; [inversion Hsplit; reflexivity|].
      inversion Hsplit as [[Ha Hrest]]. destruct l1; discriminate. }
    subst d'. exact Hrec.
  - destruct Hfall as (Hall & _). exfalso.
    apply (Qlt_not_le _ _ Hconf). apply Hall; [left; reflexivity | exact Hq].
Qed.

Lemma exact_detection_decides_witness :
  exists v,
    @VideoProcessor._analyze_slot_occupancy sample_external 0%nat sample_slot
      [exact_detection] = Ok v /\ records v exact_detection.
Proof.
  apply (exact_detection_decides sample_external 0%nat sample_slot exact_detection).
  - cbn. split; reflexivity.
  - reflexivity.
  - reflexivity.
Defined.

(** ** More on the duration estimator *)

Lemma adjacent_flips_lt (a : TimelineEntry.t) (tl : list TimelineEntry.t) :
  (adjacent_flips (a :: tl) <= List.length tl)%nat.
Proof.
  revert a. induction tl as [|b tl IH]; intro a; [cbn; lia|].
  change (adjacent_flips (a :: b :: tl))
    with ((if Bool.eqb (TimelineEntry.is_occupied a) (TimelineEntry.is_occupied b)
           then 0 else 1) + adjacent_flips (b :: tl))%nat.
  specialize (IH b). cbn [List.length].
  destruct (Bool.eqb _ _); lia.
Qed.

Lemma of_nat_le (n m : nat) :
  (n <= m)%nat -> VideoProcessor.of_nat n <= VideoProcessor.of_nat m.
Proof.
  intro Hle. unfold VideoProcessor.of_nat. rewrite <- Zle_Qle. lia.
Qed.

Lemma of_nat_lt (n m : nat) :
  (n < m)%nat -> VideoProcessor.of_nat n < VideoProcessor.of_nat m.
Proof.
  intro Hle. unfold VideoProcessor.of_nat. rewrite <- Zlt_Qlt. lia.
Qed.

Lemma len_of_nat {A} (l : list A) : len l = VideoProcessor.of_nat (List.length l).
Proof. reflexivity. Qed.

(** The stability of a non-empty timeline, without the clipping at 0. *)
Lemma stability_unclipped (a : TimelineEntry.t) (tl : list TimelineEntry.t) :
  let timeline := a :: tl in
  0 < 1 - VideoProcessor.of_nat (adjacent_flips timeline) / len timeline /\
  1 - VideoProcessor.of_nat (adjacent_flips timeline) / len timeline <= 1.
Proof.
  cbv zeta. pose proof (len_cons_pos a tl) as Hlen.
  pose proof (of_nat_lt (adjacent_flips (a :: tl)) (List.length (a :: tl))) as Hlt.
  rewrite <- len_of_nat in Hlt.
  assert (Hflips : VideoProcessor.of_nat (adjacent_flips (a :: tl)) < len (a :: tl)).
  { apply Hlt. pose proof (adjacent_flips_lt a tl). cbn [List.length]. lia. }
  assert (H0 : 0 <= VideoProcessor.of_nat (adjacent_flips (a :: tl))).
  { apply (of_nat_le 0). lia. }
  assert (Hr1 : VideoProcessor.of_nat (adjacent_flips (a :: tl)) / len (a :: tl) < 1).
  { apply Qlt_shift_div_r; [exact Hlen | lra]. }
  assert (Hr0 : 0 <= VideoProcessor.of_nat (adjacent_flips (a :: tl)) / len (a :: tl)).
  { apply Qle_shift_div_l; [exact Hlen | lra]. }
  split; lra.
Qed.

Lemma pysum_shift (l : list Q) : forall acc, fold_left Qplus l acc == acc + pysum l.
Proof.
  unfold pysum. induction l as [|q l IH]; intro acc; cbn [fold_left].
  - lra.
  - rewrite (IH (acc + q)), (IH (0 + q)). lra.
Qed.

Lemma pysum_bounds (l : list Q) :
  Forall (fun q => 0 <= q /\ q <= 1) l ->
  0 <= pysum l /\ pysum l <= VideoProcessor.of_nat (List.length l).
Proof.
  induction 1 as [|q l [Hq0 Hq1] _ [IH0 IH1]].
  - split; [apply Qle_refl | apply Qle_refl].
  - unfold pysum. cbn [fold_left]. rewrite pysum_shift.
    assert (Hs : VideoProcessor.of_nat (List.length (q :: l))
                 == 1 + VideoProcessor.of_nat (List.length l)).
    { unfold VideoProcessor.of_nat. cbn [List.length].
      rewrite Nat2Z.inj_succ, <- Z.add_1_l, inject_Z_plus. reflexivity. }
    rewrite Hs. split; lra.
Qed.

(** X17. On a non-empty timeline the estimator counts fewer changes than
    there are entries, so the stability is [1 - changes/len], above 0 and
    at most 1 (the clipping at 0 never acts); the predicted duration is 0,
    1800 or 3600 seconds, 0 exactly for a free slot; and when every
    entry's confidence lies in [[0, 1]] so does the estimate's. *)
Theorem duration_estimate_ranges :
  forall timeline : list TimelineEntry.t,
    timeline <> [] ->
    exists r,
      VideoProcessor._analyze_slot_duration timeline = Ok r /\
      (DurationAnalysis.changes r < List.length timeline)%nat /\
      DurationAnalysis.stability r
      = 1 - VideoProcessor.of_nat (DurationAnalysis.changes r) / len timeline /\
      0 < DurationAnalysis.stability r /\ DurationAnalysis.stability r <= 1 /\
      (DurationAnalysis.predicted_duration r = 0%Z \/
       DurationAnalysis.predicted_duration r = 1800%Z \/
       DurationAnalysis.predicted_duration r = 3600%Z) /\
      (DurationAnalysis.predicted_duration r = 0%Z <->
       DurationAnalysis.final_status r = false) /\
      (confidences_in_unit timeline ->
       0 <= DurationAnalysis.confidence r /\ DurationAnalysis.confidence r <= 1).
Proof.
  intros timeline Hne. destruct timeline as [|a tl]; [congruence|]. clear Hne.
  exists (reference_estimate (a :: tl)). split; [apply analyze_slot_duration_eq|].
  destruct (stability_unclipped a tl) as [Hs0 Hs1]. cbv zeta in Hs0, Hs1.
  assert (Hmax : Qmax 0 (1 - VideoProcessor.of_nat (adjacent_flips (a :: tl)) / len (a :: tl))
                 = 1 - VideoProcessor.of_nat (adjacent_flips (a :: tl)) / len (a :: tl)).
  { pose proof Hs0 as Hc. apply Qlt_alt in Hc.
    unfold Qmax, GenericMinMax.gmax. unfold Qcompare in *. rewrite Hc. reflexivity. }
  unfold reference_estimate.
  cbn [DurationAnalysis.changes DurationAnalysis.stability
       DurationAnalysis.predicted_duration DurationAnalysis.final_status
       DurationAnalysis.confidence].
  rewrite Hmax.
  split; [pose proof (adjacent_flips_lt a tl); cbn [List.length]; lia|].
  split; [reflexivity|]. split; [exact Hs0|]. split; [exact Hs1|].
  split; [|split].
  - destruct (List.length (a :: tl) <? 2 * occupied_entries (a :: tl))%nat; cbn [andb];
      [destruct (Qltb 0.8 _)|]; tauto.
  - destruct (List.length (a :: tl) <? 2 * occupied_entries (a :: tl))%nat; cbn [andb];
      [destruct (Qltb 0.8 _)|]; split; intro H; try discriminate; reflexivity.
  - intro Hunit. unfold mean_confidence.
    assert (Hsum : 0 <= pysum (map TimelineEntry.confidence (a :: tl)) /\
                   pysum (map TimelineEntry.confidence (a :: tl))
                   <= VideoProcessor.of_nat
                        (List.length (map TimelineEntry.confidence (a :: tl)))).
    { apply pysum_bounds. unfold confidences_in_unit in Hunit.
      rewrite Forall_forall in *. intros q Hq. apply in_map_iff in Hq.
      destruct Hq as (e & <- & He). apply Hunit, He. }
    rewrite length_map, <- len_of_nat in Hsum. destruct Hsum as [Hsum0 Hsum1].
    pose proof (len_cons_pos a tl) as Hlen.
    assert (Hm0 : 0 <= pysum (map TimelineEntry.confidence (a :: tl)) / len (a :: tl)).
    { apply Qle_shift_div_l; [exact Hlen | lra]. }
    assert (Hm1 : pysum (map TimelineEntry.confidence (a :: tl)) / len (a :: tl) <= 1).
    { apply Qle_shift_div_r; [exact Hlen | lra]. }
    split; nra.
Qed.

Lemma duration_estimate_ranges_witness :
  exists r,
    VideoProcessor._analyze_slot_duration sample_timeline = Ok r /\
    (DurationAnalysis.changes r < List.length sample_timeline)%nat /\
    0 < DurationAnalysis.stability r.
Proof.
  destruct (duration_estimate_ranges sample_timeline) as (r & Hr & Hc & _ & Hs & _).
  - discriminate.
  - exists r. repeat split; assumption.
Defined.

(** X18. For timelines of equal length (not empty), more changes never
    give a higher stability, and a timeline without any change has
    stability 1. *)
Theorem stability_decreases_with_changes :
  forall (t1 t2 : list TimelineEntry.t),
    t1 <> [] -> List.length t1 = List.length t2 ->
    (adjacent_flips t1 <= adjacent_flips t2)%nat ->
    exists r1 r2,
      VideoProcessor._analyze_slot_duration t1 = Ok r1 /\
      VideoProcessor._analyze_slot_duration t2 = Ok r2 /\
      DurationAnalysis.changes r1 = adjacent_flips t1 /\
      DurationAnalysis.changes r2 = adjacent_flips t2 /\
      DurationAnalysis.stability r2 <= DurationAnalysis.stability r1 /\
      (adjacent_flips t1 = 0%nat -> DurationAnalysis.stability r1 == 1).
Proof.
  intros t1 t2 Hne Hlen Hflips.
  destruct t1 as [|a1 tl1]; [congruence|].
  destruct t2 as [|a2 tl2]; [discriminate|].
  exists (reference_estimate (a1 :: tl1)), (reference_estimate (a2 :: tl2)).
  split; [apply analyze_slot_duration_eq|]. split; [apply analyze_slot_duration_eq|].
  unfold reference_estimate.
  cbn [DurationAnalysis.changes DurationAnalysis.stability].
  split; [reflexivity|]. split; [reflexivity|].
  assert (Hl : len (a2 :: tl2) = len (a1 :: tl1)) by (unfold len; rewrite Hlen; reflexivity).
  rewrite Hl. pose proof (len_cons_pos a1 tl1) as Hpos.
  pose proof (of_nat_le _ _ Hflips) as Hq.
  split.
  - apply Q.max_le_compat_l.
    assert (VideoProcessor.of_nat (adjacent_flips (a1 :: tl1)) / len (a1 :: tl1)
            <= VideoProcessor.of_nat (adjacent_flips (a2 :: tl2)) / len (a1 :: tl1)).
    { apply Qmult_le_compat_r; [exact Hq|]. apply Qinv_le_0_compat, Qlt_le_weak, Hpos. }
    lra.
  - intro Hzero. rewrite Hzero.
    assert (Hz : VideoProcessor.of_nat 0 / len (a1 :: tl1) == 0).
    { unfold VideoProcessor.of_nat. cbn [Z.of_nat]. unfold Qdiv. ring. }
    rewrite Hz. reflexivity.
Qed.

Lemma stability_decreases_with_changes_witness :
  exists r1 r2,
    VideoProcessor._analyze_slot_duration
      [TimelineEntry.mk 0 true 0.9; TimelineEntry.mk 15 true 0.8] = Ok r1 /\
    VideoProcessor._analyze_slot_duration
      [TimelineEntry.mk 0 true 0.9; TimelineEntry.mk 15 false 0.8] = Ok r2 /\
    DurationAnalysis.stability r2 <= DurationAnalysis.stability r1.
Proof.
  destruct (stability_decreases_with_changes
              [TimelineEntry.mk 0 true 0.9; TimelineEntry.mk 15 true 0.8]
              [TimelineEntry.mk 0 true 0.9; TimelineEntry.mk 15 false 0.8])
    as (r1 & r2 & H1 & H2 & _ & _ & Hle & _).
  - discriminate.
  - reflexivity.
  - cbn. lia.
  - exists r1, r2. repeat split; assumption.
Defined.

(** ** More on the analysis passes *)

Lemma occupancy_rate_of_bounds (occupied : nat) (cfg : list Slot.t) (rate : Q) :
  (occupied <= List.length cfg)%nat ->
  VideoProcessor.occupancy_rate_of occupied cfg = Ok rate ->
  0 <= rate /\ rate <= 100 /\ (cfg = [] -> rate = 0).
Proof.
  intros Hle Hrun. destruct cfg as [|s cfg].
  - cbn in Hrun. inversion Hrun. repeat split; discriminate.
  - unfold VideoProcessor.occupancy_rate_of in Hrun.
    rewrite (pydiv_pos _ _ (len_cons_pos s cfg)) in Hrun. cbn [rbind] in Hrun.
    inversion Hrun; subst rate.
    destruct (rate_bounds occupied (List.length (s :: cfg))) as [H0 H1];
      [exact Hle | cbn; lia|].
    split; [exact H0|]. split; [exact H1 | discriminate].
Qed.

Section PassStatistics.
Context {E : External}.

Lemma summarises_length (cfg : list Slot.t) (obs : list Observation)
    (acc : list SlotDetection.t) :
  summarises (visits cfg obs) acc -> (List.length acc <= List.length cfg)%nat.
Proof.
  intros (Hnd & Hseen & _).
  rewrite <- (length_map SlotDetection.slot_id acc), <- (length_map Slot.id cfg).
  apply NoDup_incl_length; [exact Hnd|].
  intros i Hi. apply in_map_iff in Hi. destruct Hi as (v & <- & Hv).
  apply (observed_id_in_config cfg obs _ v), seen_visits, Hseen, Hv.
Qed.

(** What a completed occupancy pass did, with its statistics. *)
Lemma occupancy_pass_statistics_run (cap : Cap.t) (cfg : list Slot.t) (w w' : World)
    (r : Results.t) :
  VideoProcessor._process_occupancy_analysis cap cfg w = (Ok r, w') ->
  exists obs : list Observation,
    absorb_occupancy cfg obs [] = Ok (Results.slot_detections r) /\
    advances w w' (map (fun o => snd (fst o)) obs)
             (S (List.length (skipn (Cap.pos cap) (Cap.video cap))))
             (List.length obs) /\
    Results.vehicle_count r = VideoProcessor.count_occupied (Results.slot_detections r) /\
    VideoProcessor.occupancy_rate_of (Results.vehicle_count r) cfg
    = Ok (Results.occupancy_rate r) /\
    ConfidenceScores.vehicle_detection (Results.confidence_scores r)
    = ConfidenceScores.overall (Results.confidence_scores r) /\
    ConfidenceScores.slot_classification (Results.confidence_scores r)
    = ConfidenceScores.overall (Results.confidence_scores r).
Proof.
  unfold VideoProcessor._process_occupancy_analysis. intro Hrun.
  apply bind_inv in Hrun. destruct Hrun as (sd & w1 & Hframes & Hrun).
  apply bind_inv in Hrun. destruct Hrun as (rate & w2 & Hrate & Hrun).
  apply lift_inv in Hrate. destruct Hrate as [Hrate ->].
  apply bind_inv in Hrun. destruct Hrun as (avg & w3 & Havg & Hrun).
  apply lift_inv in Havg. destruct Havg as [Havg ->].
  unfold ret in Hrun. inversion Hrun; subst r w'. clear Hrun.
  destruct (occupancy_frames_run _ _ _ _ _ _ _ _ Hframes)
    as (obs & _ & _ & Habs & Hadv).
  exists obs. cbn [Results.slot_detections Results.vehicle_count Results.occupancy_rate
                   Results.confidence_scores ConfidenceScores.overall
                   ConfidenceScores.vehicle_detection
                   ConfidenceScores.slot_classification].
  split; [exact Habs|]. split; [exact Hadv|]. split; [reflexivity|].
  split; [exact Hrate|]. split; reflexivity.
Qed.

End PassStatistics.

(** X19. A completed occupancy pass has read every frame of the video
    (one read more than there are frames) but processed only every 30th:
    [processed_frames] grows by the number of sampled frames.  It reports
    at most one entry per slot id (the reported ids are pairwise distinct
    and are ids of the configuration), a vehicle count that is the number of
    occupied entries and at most the number of slots, and an occupancy rate
    between 0 and 100 (0 for an empty configuration). *)
Theorem occupancy_pass_statistics :
  forall (E : External) (cap : Cap.t) (slot_config : list Slot.t)
         (w w' : World) (r : Results.t),
    VideoProcessor._process_occupancy_analysis cap slot_config w = (Ok r, w') ->
    frame_reads (trace w')
    = (frame_reads (trace w) + S (List.length (skipn (Cap.pos cap) (Cap.video cap))))%nat /\
    processed_frames w'
    = (processed_frames w
       + List.length (sampled 30 0 (skipn (Cap.pos cap) (Cap.video cap))))%nat /\
    NoDup (map SlotDetection.slot_id (Results.slot_detections r)) /\
    incl (map SlotDetection.slot_id (Results.slot_detections r))
         (map Slot.id slot_config) /\
    (List.length (Results.slot_detections r) <= List.length slot_config)%nat /\
    Results.vehicle_count r
    = List.length (filter SlotDetection.is_occupied (Results.slot_detections r)) /\
    (Results.vehicle_count r <= List.length slot_config)%nat /\
    0 <= Results.occupancy_rate r /\ Results.occupancy_rate r <= 100 /\
    (slot_config = [] -> Results.occupancy_rate r = 0).
Proof.
  intros E cap cfg w w' r Hrun.
  destruct (occupancy_pass_statistics_run cap cfg w w' r Hrun)
    as (obs & Habs & (_ & Hreads & Hproc & _) & Hcount & Hrate & _).
  destruct (absorb_occupancy_summarises cfg obs [] [] summarises_nil)
    as (acc & Habs1 & Hsum).
  rewrite Habs in Habs1. inversion Habs1; subst acc. clear Habs1.
  cbn [app] in Hsum. pose proof (summarises_length cfg obs _ Hsum) as Hlen.
  assert (Hocc : (Results.vehicle_count r <= List.length (Results.slot_detections r))%nat).
  { rewrite Hcount. apply filter_length_bound. }
  split; [exact Hreads|]. split.
  { destruct (occupancy_pass_run cap cfg w w' r Hrun)
      as (obs2 & [Hmap2 _] & _ & (_ & _ & Hproc2 & _) & _).
    rewrite <- Hmap2, length_map. exact Hproc2. }
  destruct Hsum as (Hnd & Hseen & _).
  split; [exact Hnd|]. split.
  { intros i Hi. apply in_map_iff in Hi. destruct Hi as (v & <- & Hv).
    apply (observed_id_in_config cfg obs _ v), seen_visits, Hseen, Hv. }
  split; [exact Hlen|]. split; [exact Hcount|].
  split; [lia|].
  apply (occupancy_rate_of_bounds (Results.vehicle_count r) cfg); [lia | exact Hrate].
Qed.

Lemma occupancy_pass_statistics_witness :
  exists r w',
    @VideoProcessor._process_occupancy_analysis busy_external
      (busy_cap 61) [sample_slot; half_slot] busy_world = (Ok r, w') /\
    @frame_reads busy_external (trace w') = 62%nat /\
    processed_frames w' = 3%nat /\
    NoDup (map SlotDetection.slot_id (Results.slot_detections r)) /\
    Results.occupancy_rate r <= 100.
Proof.
  eexists. eexists. split; [vm_compute; reflexivity|].
  lazymatch goal with
  | |- _ (trace ?w') = _ /\ _ /\ _ /\ Results.occupancy_rate ?r <= _ =>
      destruct (occupancy_pass_statistics busy_external (busy_cap 61)
                  [sample_slot; half_slot] busy_world w' r)
        as (Hreads & Hproc & Hnd & _ & _ & _ & _ & _ & Hrate & _);
      [vm_compute; reflexivity|];
      split; [exact Hreads|]; split; [exact Hproc|]; split; [exact Hnd | exact Hrate]
  end.
Defined.

(** X20. Called with an empty slot list, the duration pass reads the whole
    video and then raises [ZeroDivisionError] (the average over no slot),
    and so does full analysis; only the guard of [process_video] keeps an
    empty list away from them. *)
Theorem duration_pass_empty_config_raises :
  forall (E : External) (cap : Cap.t) (w : World),
    model_loaded w = true ->
    (forall f, In f (Cap.video cap) -> yolo f <> None) ->
    (exists w',
        VideoProcessor._process_duration_analysis cap [] w
        = (Raise ZeroDivisionError, w') /\
        frame_reads (trace w')
        = (frame_reads (trace w)
           + S (List.length (skipn (Cap.pos cap) (Cap.video cap))))%nat) /\
    (exists w',
        VideoProcessor._process_full_analysis cap [] w = (Raise ZeroDivisionError, w')).
Proof.
  intros E cap w Hm Hy.
  assert (Hdur : forall (cap : Cap.t) (w : World),
             model_loaded w = true ->
             (forall f, In f (Cap.video cap) -> yolo f <> None) ->
             exists w',
               VideoProcessor._process_duration_analysis cap [] w
               = (Raise ZeroDivisionError, w') /\
               frame_reads (trace w')
               = (frame_reads (trace w)
                  + S (List.length (skipn (Cap.pos cap) (Cap.video cap))))%nat).
  { clear. intros cap w Hm Hy.
    destruct (duration_frames_ok 15 [] (skipn (Cap.pos cap) (Cap.video cap)) 0
                (VideoProcessor.empty_timelines []) w Hm)
      as (tl & w1 & Hframes & _ & _).
    { intros f Hf. apply Hy. rewrite <- (firstn_skipn (Cap.pos cap) (Cap.video cap)).
      apply in_or_app. right. exact Hf. }
    { intros slot []. }
    exists w1. split.
    - unfold VideoProcessor._process_duration_analysis.
      rewrite (bind_ok _ _ _ _ _ Hframes). reflexivity.
    - destruct (duration_frames_run _ _ _ _ _ _ _ _ Hframes)
        as (obs & _ & _ & _ & (_ & Hreads & _)).
      exact Hreads. }
  split; [apply Hdur; assumption|].
  destruct (occupancy_pass_ok cap [] w Hm Hy) as (occ & w1 & Hocc & Hm1).
  destruct (log_ok (EvSeek 0) w1) as (w1' & Hlog & Hm1').
  destruct (Hdur (Cap.mk _ (Cap.video cap) 0) w1') as (w2 & Hraise & _);
    [congruence | exact Hy|].
  exists w2. unfold VideoProcessor._process_full_analysis.
  rewrite (bind_ok _ _ _ _ _ Hocc), (bind_ok _ _ _ _ _ Hlog). cbv zeta.
  rewrite (bind_raise _ _ _ _ _ Hraise). reflexivity.
Qed.

Lemma duration_pass_empty_config_raises_witness :
  exists w',
    @VideoProcessor._process_full_analysis sample_external (sample_cap 3) []
      sample_world = (Raise ZeroDivisionError, w').
Proof.
  apply (duration_pass_empty_config_raises sample_external (sample_cap 3) sample_world).
  - reflexivity.
  - intros f _. discriminate.
Defined.

Section FullRequirements.
Context {E : External}.

(** What a completed duration pass did. *)
Lemma duration_pass_statistics_run (cap : Cap.t) (cfg : list Slot.t) (w w' : World)
    (r : Results.t) :
  VideoProcessor._process_duration_analysis cap cfg w = (Ok r, w') ->
  exists (obs : list Observation) (tl : VideoProcessor.Timelines),
    observes 15 (skipn (Cap.pos cap) (Cap.video cap)) obs /\
    absorb_duration cfg obs (VideoProcessor.empty_timelines cfg) = Ok tl /\
    VideoProcessor.duration_reports cfg tl = Ok (Results.slot_detections r) /\
    advances w w' (map (fun o => snd (fst o)) obs)
             (S (List.length (skipn (Cap.pos cap) (Cap.video cap))))
             (List.length obs) /\
    cfg <> [] /\
    VideoProcessor.occupancy_rate_of (Results.vehicle_count r) cfg
    = Ok (Results.occupancy_rate r) /\
    Results.vehicle_count r = VideoProcessor.count_occupied (Results.slot_detections r).
Proof.
  unfold VideoProcessor._process_duration_analysis. intro Hrun.
  apply bind_inv in Hrun. destruct Hrun as (tl & w1 & Hframes & Hrun).
  apply bind_inv in Hrun. destruct Hrun as (sd & w2 & Hsd & Hrun).
  apply lift_inv in Hsd. destruct Hsd as [Hsd ->].
  apply bind_inv in Hrun. destruct Hrun as (rate & w3 & Hrate & Hrun).
  apply lift_inv in Hrate. destruct Hrate as [Hrate ->].
  apply bind_inv in Hrun. destruct Hrun as (ov & w4 & Hov & Hrun).
  apply lift_inv in Hov. destruct Hov as [Hov ->].
  unfold ret in Hrun. inversion Hrun; subst r w'. clear Hrun.
  destruct (duration_frames_run _ _ _ _ _ _ _ _ Hframes)
    as (obs & Hmap & Hall & Habs & Hadv).
  exists obs, tl. cbn.
  split; [split; assumption|]. split; [exact Habs|]. split; [exact Hsd|].
  split; [exact Hadv|]. split; [|split; [exact Hrate | reflexivity]].
  intro Hcfg. subst cfg. cbn in Hsd. inversion Hsd; subst sd.
  cbn in Hov. discriminate.
Qed.

(** What a completed full analysis did, with the world it leaves. *)
Lemma full_analysis_worlds (cap : Cap.t) (cfg : list Slot.t) (w w' : World)
    (r : Results.t) :
  VideoProcessor._process_full_analysis cap cfg w = (Ok r, w') ->
  exists occ dur w1,
    VideoProcessor._process_occupancy_analysis cap cfg w = (Ok occ, w1) /\
    VideoProcessor._process_duration_analysis (Cap.mk _ (Cap.video cap) 0) cfg
      (snd (log (EvSeek 0) w1)) = (Ok dur, w') /\
    VideoProcessor.merge_slots 0 cfg (Results.slot_detections occ)
      (Results.slot_detections dur) = Ok (Results.slot_detections r) /\
    Results.vehicle_count r = VideoProcessor.count_occupied (Results.slot_detections r) /\
    VideoProcessor.occupancy_rate_of (Results.vehicle_count r) cfg
    = Ok (Results.occupancy_rate r).
Proof.
  unfold VideoProcessor._process_full_analysis. intro Hrun.
  apply bind_inv in Hrun. destruct Hrun as (occ & w1 & Hocc & Hrun).
  apply bind_inv in Hrun. destruct Hrun as ([] & w1' & Hlog & Hrun).
  apply bind_inv in Hrun. destruct Hrun as (dur & w2 & Hdur & Hrun).
  apply bind_inv in Hrun. destruct Hrun as (fd & w3 & Hmerge & Hrun).
  apply lift_inv in Hmerge. destruct Hmerge as [Hmerge ->].
  apply bind_inv in Hrun. destruct Hrun as (rate & w4 & Hrate & Hrun).
  apply lift_inv in Hrate. destruct Hrate as [Hrate ->].
  unfold ret in Hrun. inversion Hrun; subst r w'. clear Hrun.
  exists occ, dur, w1. split; [exact Hocc|].
  assert (Hw : w1' = snd (log (EvSeek 0) w1)) by (rewrite Hlog; reflexivity).
  rewrite <- Hw. split; [exact Hdur|]. split; [exact Hmerge|].
  split; [reflexivity | exact Hrate].
Qed.

(** Full analysis reads the video twice and counts the sampled frames of
    both passes. *)
Lemma full_analysis_counters (cap : Cap.t) (cfg : list Slot.t) (w w' : World)
    (r : Results.t) :
  VideoProcessor._process_full_analysis cap cfg w = (Ok r, w') ->
  processed_frames w'
  = (processed_frames w
     + List.length (sampled 30 0 (skipn (Cap.pos cap) (Cap.video cap)))
     + List.length (sampled 15 0 (Cap.video cap)))%nat /\
  frame_reads (trace w')
  = (frame_reads (trace w)
     + S (List.length (skipn (Cap.pos cap) (Cap.video cap)))
     + S (List.length (Cap.video cap)))%nat.
Proof.
  intro Hrun.
  destruct (full_analysis_worlds cap cfg w w' r Hrun)
    as (occ & dur & w1 & Hocc & Hdur & _).
  destruct (occupancy_pass_run cap cfg w w1 occ Hocc)
    as (obs & [Hmap _] & _ & (_ & Hr1 & Hp1 & _) & _).
  destruct (duration_pass_statistics_run _ cfg _ w' dur Hdur)
    as (obs2 & tl & [Hmap2 _] & _ & _ & (_ & Hr2 & Hp2 & _) & _).
  cbn [Cap.pos Cap.video skipn] in Hmap2, Hr2.
  cbn [snd log trace processed_frames] in Hr2, Hp2.
  rewrite frame_reads_app in Hr2. cbn in Hr2.
  rewrite <- Hmap, <- Hmap2, !length_map.
  split; [rewrite Hp2, Hp1; reflexivity | rewrite Hr2, Hr1, Nat.add_0_r; reflexivity].
Qed.

End FullRequirements.

(** X21. Full analysis returns only for a non-empty configuration with
    distinct slot ids on a capture that delivers a frame; it then has read
    the video twice and counted the sampled frames of both passes as
    processed. *)
Theorem full_analysis_requirements :
  forall (E : External) (cap : Cap.t) (slot_config : list Slot.t)
         (w w' : World) (r : Results.t),
    VideoProcessor._process_full_analysis cap slot_config w = (Ok r, w') ->
    slot_config <> [] /\ NoDup (map Slot.id slot_config) /\
    skipn (Cap.pos cap) (Cap.video cap) <> [] /\
    processed_frames w'
    = (processed_frames w
       + List.length (sampled 30 0 (skipn (Cap.pos cap) (Cap.video cap)))
       + List.length (sampled 15 0 (Cap.video cap)))%nat /\
    frame_reads (trace w')
    = (frame_reads (trace w)
       + S (List.length (skipn (Cap.pos cap) (Cap.video cap)))
       + S (List.length (Cap.video cap)))%nat.
Proof.
  intros E cap cfg w w' r Hrun.
  destruct (full_analysis_worlds cap cfg w w' r Hrun)
    as (occ & dur & w1 & Hocc & Hdur & Hmerge & _).
  destruct (merge_slots_spec _ _ _ _ _ Hmerge) as [_ Hnth].
  destruct (occupancy_pass_run cap cfg w w1 occ Hocc)
    as (obs & [Hmap _] & Habs & (_ & Hr1 & Hp1 & _) & _).
  destruct (duration_pass_statistics_run _ cfg _ w' dur Hdur)
    as (obs2 & tl & _ & _ & _ & _ & Hne & _).
  assert (Hlen : (List.length cfg <= List.length (Results.slot_detections occ))%nat).
  { destruct (le_lt_dec (List.length cfg) (List.length (Results.slot_detections occ)))
      as [Hle|Hlt]; [exact Hle|]. exfalso.
    destruct (nth_error cfg (List.length (Results.slot_detections occ)))
      as [slot|] eqn:Hs.
    - destruct (Hnth _ slot Hs) as (o & _ & _ & Ho & _). cbn [Nat.add] in Ho.
      assert (Hnone : nth_error (Results.slot_detections occ)
                                (List.length (Results.slot_detections occ)) = None)
        by (apply nth_error_None; lia).
      congruence.
    - apply nth_error_None in Hs. lia. }
  pose proof (retained_follow_config cfg obs _ Habs Hlen) as Hids.
  destruct (absorb_occupancy_summarises cfg obs [] [] summarises_nil)
    as (acc & Habs' & (Hnd & _)).
  rewrite Habs in Habs'. inversion Habs'; subst acc. clear Habs'.
  split; [exact Hne|]. split; [rewrite <- Hids; exact Hnd|].
  assert (Hobs : obs <> []).
  { intro Hobs. subst obs. cbn in Habs. inversion Habs as [Hempty].
    rewrite <- Hempty in Hlen. cbn in Hlen. destruct cfg; [congruence | cbn in Hlen; lia]. }
  split.
  - intro Hrem. rewrite Hrem, sampled_nil in Hmap.
    destruct obs; [congruence | discriminate].
  - exact (full_analysis_counters cap cfg w w' r Hrun).
Qed.

Lemma full_analysis_requirements_witness :
  NoDup (map Slot.id [sample_slot]).
Proof.
  eapply (full_analysis_requirements sample_external (sample_cap 3) [sample_slot]
            sample_world).
  vm_compute. reflexivity.
Defined.

(** ** The timelines of the duration pass *)

Lemma timeline_get_set_other (k j : Z) (v : list TimelineEntry.t)
    (tl : VideoProcessor.Timelines) :
  k <> j ->
  VideoProcessor.timeline_get k (VideoProcessor.timeline_set j v tl)
  = VideoProcessor.timeline_get k tl.
Proof.
  intro Hkj. induction tl as [|[i u] tl IH]; cbn.
  - destruct (j =? k)%Z eqn:Ejk; [apply Z.eqb_eq in Ejk; congruence | reflexivity].
  - destruct (i =? j)%Z eqn:Eij; cbn.
    + apply Z.eqb_eq in Eij. subst i.
      destruct (j =? k)%Z eqn:Ejk; [apply Z.eqb_eq in Ejk; congruence | reflexivity].
    + destruct (i =? k)%Z; [reflexivity | exact IH].
Qed.

Lemma empty_timelines_empty (cfg : list Slot.t) (k : Z) (v : list TimelineEntry.t) :
  VideoProcessor.timeline_get k (VideoProcessor.empty_timelines cfg) = Ok v -> v = [].
Proof.
  unfold VideoProcessor.empty_timelines.
  assert (Hgen : forall cfg tl0,
             (forall k v, VideoProcessor.timeline_get k tl0 = Ok v -> v = []) ->
             forall k v,
               VideoProcessor.timeline_get k
                 (fold_left (fun d slot =>
                               VideoProcessor.timeline_set (Slot.id slot) [] d)
                            cfg tl0) = Ok v -> v = []).
  { clear. induction cfg as [|s cfg IH]; intros tl0 H0 k v; cbn [fold_left].
    - apply H0.
    - apply IH. intros k' v' Hget.
      destruct (Z.eq_dec k' (Slot.id s)) as [->|Hne].
      + rewrite has_timeline_set_same in Hget. congruence.
      + rewrite timeline_get_set_other in Hget by exact Hne. eapply H0, Hget. }
  apply Hgen. intros k' v' Hget. discriminate.
Qed.

Section DurationTimelines.
Context {E : External}.

(** One sampled frame appends one entry to the timeline of every slot. *)
Lemma duration_slots_appends (frame : Image) (c : nat) (dets : list Detection.t)
    (slots : list Slot.t) :
  forall tl tl',
    NoDup (map Slot.id slots) ->
    VideoProcessor.duration_slots frame c dets slots tl = Ok tl' ->
    (forall slot, In slot slots ->
       exists t e,
         VideoProcessor.timeline_get (Slot.id slot) tl = Ok t /\
         VideoProcessor.timeline_get (Slot.id slot) tl' = Ok (t ++ [e]) /\
         entry_for slot (c, frame, dets) e) /\
    (forall k, ~ In k (map Slot.id slots) ->
               VideoProcessor.timeline_get k tl' = VideoProcessor.timeline_get k tl).
Proof.
  induction slots as [|slot rest IH]; intros tl tl' Hnd Hrun.
  - cbn in Hrun. inversion Hrun; subst tl'. split; [intros s []|reflexivity].
  - cbn [VideoProcessor.duration_slots] in Hrun.
    destruct (VideoProcessor._analyze_slot_occupancy frame slot dets) as [v|e] eqn:Hv;
      cbn [rbind] in Hrun; [|discriminate].
    destruct (VideoProcessor.timeline_get (Slot.id slot) tl) as [t|e] eqn:Ht;
      cbn [rbind] in Hrun; [|discriminate].
    cbn [map] in Hnd. inversion Hnd as [|i l Hnotin Hnd']; subst i l.
    destruct (IH _ _ Hnd' Hrun) as [Hin Hout]. split.
    + intros s [<-|Hs].
      * exists t. eexists. split; [exact Ht|]. split.
        -- rewrite (Hout _ Hnotin). apply has_timeline_set_same.
        -- exists v. split; [exact Hv | reflexivity].
      * destruct (Hin s Hs) as (t' & e & Hg & Hg' & He).
        assert (Hne : Slot.id s <> Slot.id slot).
        { intro Heq. apply Hnotin. rewrite <- Heq. apply in_map. exact Hs. }
        rewrite timeline_get_set_other in Hg by exact Hne.
        exists t', e. split; [exact Hg|]. split; [exact Hg' | exact He].
    + intros k Hk. cbn [map In] in Hk.
      rewrite (Hout k) by tauto.
      apply timeline_get_set_other. intro Heq. apply Hk. left. congruence.
Qed.

(** The sampled frames append their entries in order. *)
Lemma absorb_duration_appends (cfg : list Slot.t) :
  NoDup (map Slot.id cfg) ->
  forall (obs : list Observation) tl tl',
    (forall slot, In slot cfg -> has_timeline (Slot.id slot) tl) ->
    absorb_duration cfg obs tl = Ok tl' ->
    forall slot, In slot cfg ->
      exists t es,
        VideoProcessor.timeline_get (Slot.id slot) tl = Ok t /\
        VideoProcessor.timeline_get (Slot.id slot) tl' = Ok (t ++ es) /\
        Forall2 (entry_for slot) obs es.
Proof.
  intros Hnd obs.
  induction obs as [|[[i frame] dets] obs IH]; intros tl tl' Hkeys Hrun slot Hs.
  - cbn in Hrun. inversion Hrun; subst tl'. clear Hrun.
    destruct (Hkeys slot Hs) as (t & Ht). exists t, [].
    rewrite app_nil_r. split; [exact Ht|]. split; [exact Ht | constructor].
  - cbn [absorb_duration] in Hrun.
    destruct (VideoProcessor.duration_slots frame i dets cfg tl) as [tl1|e] eqn:Hstep;
      cbn [rbind] in Hrun; [|discriminate].
    destruct (duration_slots_appends frame i dets cfg tl tl1 Hnd Hstep) as [Hin _].
    destruct (Hin slot Hs) as (t & e & Ht & Ht1 & He).
    assert (Hkeys1 : forall s, In s cfg -> has_timeline (Slot.id s) tl1).
    { intros s Hs'. destruct (Hin s Hs') as (t' & e' & _ & Hg & _).
      eexists. exact Hg. }
    destruct (IH tl1 tl' Hkeys1 Hrun slot Hs) as (t1 & es & Hg1 & Hg' & Hes).
    rewrite Ht1 in Hg1. inversion Hg1; subst t1. clear Hg1.
    exists t, (e :: es). split; [exact Ht|]. split.
    + rewrite Hg', <- app_assoc. reflexivity.
    + constructor; [exact He | exact Hes].
Qed.

End DurationTimelines.

(** The report of the duration pass, slot by slot. *)
Lemma duration_reports_fields (slots : list Slot.t) (tl : VideoProcessor.Timelines)
    (l : list SlotDetection.t) :
  VideoProcessor.duration_reports slots tl = Ok l ->
  Forall2 (fun slot d =>
             exists timeline a,
               VideoProcessor.timeline_get (Slot.id slot) tl = Ok timeline /\
               VideoProcessor._analyze_slot_duration timeline = Ok a /\
               d = SlotDetection.mk (Slot.id slot) (Slot.slot_number slot)
                     (DurationAnalysis.final_status a)
                     (DurationAnalysis.confidence a) None None
                     (Some (DurationAnalysis.predicted_duration a))
                     (Some (DurationAnalysis.changes a))
                     (Some (DurationAnalysis.stability a)))
          slots l.
Proof.
  revert l. induction slots as [|slot rest IH]; intros l Hrun.
  - cbn in Hrun. inversion Hrun. constructor.
  - cbn [VideoProcessor.duration_reports] in Hrun.
    destruct (VideoProcessor.timeline_get (Slot.id slot) tl) as [t|e] eqn:Ht;
      cbn [rbind] in Hrun; [|discriminate].
    destruct (VideoProcessor._analyze_slot_duration t) as [a|e] eqn:Ha;
      cbn [rbind] in Hrun; [|discriminate].
    destruct (VideoProcessor.duration_reports rest tl) as [others|e] eqn:Ho;
      cbn [rbind] in Hrun; [|discriminate].
    inversion Hrun; subst l. clear Hrun. constructor; [|apply IH; reflexivity].
    exists t, a. split; [exact Ht|]. split; [exact Ha | reflexivity].
Qed.

(** X22. With distinct slot ids, a completed duration pass reports the
    slots of the configuration in order; the timeline behind each report
    has exactly one entry per sampled frame (every 15th), in frame order,
    holding the frame index with the classifier's verdict and confidence
    for that slot on that frame, and the report carries the estimate of
    [_analyze_slot_duration] on that timeline, with no vehicle type and no
    detection box. *)
Theorem duration_pass_timelines :
  forall (E : External) (cap : Cap.t) (slot_config : list Slot.t)
         (w w' : World) (r : Results.t),
    NoDup (map Slot.id slot_config) ->
    VideoProcessor._process_duration_analysis cap slot_config w = (Ok r, w') ->
    exists obs : list Observation,
      observes 15 (skipn (Cap.pos cap) (Cap.video cap)) obs /\
      Forall2 (fun slot d =>
                 exists timeline a,
                   Forall2 (entry_for slot) obs timeline /\
                   VideoProcessor._analyze_slot_duration timeline = Ok a /\
                   d = SlotDetection.mk (Slot.id slot) (Slot.slot_number slot)
                         (DurationAnalysis.final_status a)
                         (DurationAnalysis.confidence a) None None
                         (Some (DurationAnalysis.predicted_duration a))
                         (Some (DurationAnalysis.changes a))
                         (Some (DurationAnalysis.stability a)))
              slot_config (Results.slot_detections r).
Proof.
  intros E cap cfg w w' r Hnd Hrun.
  destruct (duration_pass_statistics_run cap cfg w w' r Hrun)
    as (obs & tl & Hobs & Habs & Hrep & _).
  exists obs. split; [exact Hobs|].
  pose proof (duration_reports_fields cfg tl _ Hrep) as Hfields.
  pose proof (absorb_duration_appends cfg Hnd obs _ tl (empty_timelines_keys cfg) Habs)
    as Happ.
  assert (Hstrong : forall slots l,
             incl slots cfg ->
             Forall2 (fun slot d =>
                        exists timeline a,
                          VideoProcessor.timeline_get (Slot.id slot) tl = Ok timeline /\
                          VideoProcessor._analyze_slot_duration timeline = Ok a /\
                          d = SlotDetection.mk (Slot.id slot) (Slot.slot_number slot)
                                (DurationAnalysis.final_status a)
                                (DurationAnalysis.confidence a) None None
                                (Some (DurationAnalysis.predicted_duration a))
                                (Some (DurationAnalysis.changes a))
                                (Some (DurationAnalysis.stability a)))
                     slots l ->
             Forall2 (fun slot d =>
                        exists timeline a,
                          Forall2 (entry_for slot) obs timeline /\
                          VideoProcessor._analyze_slot_duration timeline = Ok a /\
                          d = SlotDetection.mk (Slot.id slot) (Slot.slot_number slot)
                                (DurationAnalysis.final_status a)
                                (DurationAnalysis.confidence a) None None
                                (Some (DurationAnalysis.predicted_duration a))
                                (Some (DurationAnalysis.changes a))
                                (Some (DurationAnalysis.stability a)))
                     slots l).
  { intros slots l Hincl Hall. induction Hall as [|slot d slots l Hd _ IH];
      constructor.
    - destruct Hd as (timeline & a & Hget & Ha & Hdeq).
      destruct (Happ slot (Hincl slot (or_introl eq_refl)))
        as (t & es & Ht & Hget' & Hes).
      apply empty_timelines_empty in Ht. subst t. cbn [app] in Hget'.
      rewrite Hget in Hget'. inversion Hget'; subst es.
      exists timeline, a. split; [exact Hes|]. split; [exact Ha | exact Hdeq].
    - apply IH. intros s Hs. apply Hincl. right. exact Hs. }
  apply Hstrong; [apply incl_refl | exact Hfields].
Qed.

Lemma duration_pass_timelines_witness :
  exists r w',
    @VideoProcessor._process_duration_analysis sample_external
      (sample_cap 31) [sample_slot] sample_world = (Ok r, w') /\
    exists obs : list (@Observation sample_external),
      map fst obs = [(0, 0); (15, 15); (30, 30)]%nat /\
      List.length (Results.slot_detections r) = 1%nat.
Proof.
  eexists. eexists. split; [vm_compute; reflexivity|].
  lazymatch goal with
  | |- context [Results.slot_detections ?r] =>
      destruct (duration_pass_timelines sample_external (sample_cap 31)
                  [sample_slot] sample_world
                  (snd (@VideoProcessor._process_duration_analysis sample_external
                          (sample_cap 31) [sample_slot] sample_world)) r)
        as (obs & [Hmap _] & Hall);
      [repeat constructor; intros [] | vm_compute; reflexivity|]
  end.
  exists obs. split; [exact Hmap|].
  apply Forall2_length in Hall. symmetry. exact Hall.
Defined.

(** ** The entry point [process_video] *)

Section ProcessVideo.
Context {E : External}.

Lemma handle_events_app (t1 t2 : list Event) :
  handle_events (t1 ++ t2) = handle_events t1 ++ handle_events t2.
Proof. unfold handle_events. apply filter_app. Qed.

Lemma keeps_handles_ret {A} (a : A) : keeps_handles (ret a).
Proof. intro w. reflexivity. Qed.

Lemma keeps_handles_lift {A} (r : result A) : keeps_handles (lift r).
Proof. intro w. reflexivity. Qed.

Lemma keeps_handles_bind {A B} (m : M A) (k : A -> M B) :
  keeps_handles m -> (forall a, keeps_handles (k a)) -> keeps_handles (bind m k).
Proof.
  intros Hm Hk w. unfold bind. specialize (Hm w).
  destruct (m w) as [[a|e] w1]; cbn [snd] in *.
  - rewrite Hk. exact Hm.
  - exact Hm.
Qed.

Lemma keeps_handles_log (e : Event) :
  match e with
  | EvOpen _ | EvRelease => False
  | _ => True
  end ->
  keeps_handles (log e).
Proof.
  intros He w. unfold log. cbn [snd trace]. rewrite handle_events_app.
  destruct e; try contradiction; cbn; apply app_nil_r.
Qed.

Lemma keeps_handles_incr : keeps_handles incr_processed_frames.
Proof. intro w. reflexivity. Qed.

Lemma keeps_handles_detect (frame : Image) :
  keeps_handles (ParkingDetector.detect_vehicles frame).
Proof.
  intro w. destruct (detect_vehicles_effect frame w) as (Ht & _).
  rewrite Ht, handle_events_app. cbn. apply app_nil_r.
Qed.

Lemma keeps_handles_occupancy_frames (n : nat) (cfg : list Slot.t)
    (remaining : list Image) :
  forall c acc, keeps_handles (VideoProcessor.occupancy_frames n cfg remaining c acc).
Proof.
  induction remaining as [|frame rest IH]; intros c acc;
    cbn [VideoProcessor.occupancy_frames].
  - apply keeps_handles_bind; [apply keeps_handles_log; exact I|].
    intro. apply keeps_handles_ret.
  - apply keeps_handles_bind; [apply keeps_handles_log; exact I|]. intro.
    apply keeps_handles_bind; [|intro; apply IH].
    destruct (c mod n =? 0)%nat; [|apply keeps_handles_ret].
    apply keeps_handles_bind; [apply keeps_handles_detect|]. intro.
    apply keeps_handles_bind; [apply keeps_handles_lift|]. intro.
    apply keeps_handles_bind; [apply keeps_handles_incr|]. intro.
    apply keeps_handles_ret.
Qed.

Lemma keeps_handles_duration_frames (n : nat) (cfg : list Slot.t)
    (remaining : list Image) :
  forall c tl, keeps_handles (VideoProcessor.duration_frames n cfg remaining c tl).
Proof.
  induction remaining as [|frame rest IH]; intros c tl;
    cbn [VideoProcessor.duration_frames].
  - apply keeps_handles_bind; [apply keeps_handles_log; exact I|].
    intro. apply keeps_handles_ret.
  - apply keeps_handles_bind; [apply keeps_handles_log; exact I|]. intro.
    apply keeps_handles_bind; [|intro; apply IH].
    destruct (c mod n =? 0)%nat; [|apply keeps_handles_ret].
    apply keeps_handles_bind; [apply keeps_handles_detect|]. intro.
    apply keeps_handles_bind; [apply keeps_handles_lift|]. intro.
    apply keeps_handles_bind; [apply keeps_handles_incr|]. intro.
    apply keeps_handles_ret.
Qed.

Lemma keeps_handles_occupancy_pass (cap : Cap.t) (cfg : list Slot.t) :
  keeps_handles (VideoProcessor._process_occupancy_analysis cap cfg).
Proof.
  unfold VideoProcessor._process_occupancy_analysis.
  apply keeps_handles_bind; [apply keeps_handles_occupancy_frames|]. intro.
  apply keeps_handles_bind; [apply keeps_handles_lift|]. intro.
  apply keeps_handles_bind; [apply keeps_handles_lift|]. intro.
  apply keeps_handles_ret.
Qed.

Lemma keeps_handles_duration_pass (cap : Cap.t) (cfg : list Slot.t) :
  keeps_handles (VideoProcessor._process_duration_analysis cap cfg).
Proof.
  unfold VideoProcessor._process_duration_analysis.
  apply keeps_handles_bind; [apply keeps_handles_duration_frames|]. intro.
  apply keeps_handles_bind; [apply keeps_handles_lift|]. intro.
  apply keeps_handles_bind; [apply keeps_handles_lift|]. intro.
  apply keeps_handles_bind; [apply keeps_handles_lift|]. intro.
  apply keeps_handles_ret.
Qed.

Lemma keeps_handles_full_analysis (cap : Cap.t) (cfg : list Slot.t) :
  keeps_handles (VideoProcessor._process_full_analysis cap cfg).
Proof.
  unfold VideoProcessor._process_full_analysis.
  apply keeps_handles_bind; [apply keeps_handles_occupancy_pass|]. intro.
  apply keeps_handles_bind; [apply keeps_handles_log; exact I|]. intro.
  apply keeps_handles_bind; [apply keeps_handles_duration_pass|]. intro.
  apply keeps_handles_bind; [apply keeps_handles_lift|]. intro.
  apply keeps_handles_bind; [apply keeps_handles_lift|]. intro.
  apply keeps_handles_ret.
Qed.

Lemma keeps_handles_selected_pass (analysis_type : string) (cap : Cap.t)
    (cfg : list Slot.t) :
  keeps_handles (selected_pass analysis_type cap cfg).
Proof.
  unfold selected_pass.
  destruct (String.eqb analysis_type "occupancy");
    [apply keeps_handles_occupancy_pass|].
  destruct (String.eqb analysis_type "duration");
    [apply keeps_handles_duration_pass | apply keeps_handles_full_analysis].
Qed.

(** The frames a completed analysis read and counted, on a capture at the
    start of its video. *)
Lemma selected_pass_counters (analysis_type : string) (video : list Image)
    (cfg : list Slot.t) (w w' : World) (r : Results.t) :
  selected_pass analysis_type (Cap.mk _ video 0) cfg w = (Ok r, w') ->
  processed_frames w'
  = (processed_frames w + sampled_count (pass_intervals analysis_type) video)%nat /\
  frame_reads (trace w')
  = (frame_reads (trace w)
     + List.length (pass_intervals analysis_type) * S (List.length video))%nat.
Proof.
  unfold selected_pass, pass_intervals, sampled_count.
  destruct (String.eqb analysis_type "occupancy").
  - intro Hrun.
    destruct (occupancy_pass_run _ cfg w w' r Hrun)
      as (obs & [Hmap _] & _ & (_ & Hr & Hp & _) & _).
    cbn [Cap.pos Cap.video skipn] in Hmap, Hr.
    unfold list_sum; cbn [map fold_right List.length Nat.mul]. rewrite <- Hmap, length_map, !Nat.add_0_r.
    split; [exact Hp | exact Hr].
  - destruct (String.eqb analysis_type "duration").
    + intro Hrun.
      destruct (duration_pass_statistics_run _ cfg w w' r Hrun)
        as (obs & tl & [Hmap _] & _ & _ & (_ & Hr & Hp & _) & _).
      cbn [Cap.pos Cap.video skipn] in Hmap, Hr.
      unfold list_sum; cbn [map fold_right List.length Nat.mul]. rewrite <- Hmap, length_map, !Nat.add_0_r.
      split; [exact Hp | exact Hr].
    + intro Hrun.
      destruct (full_analysis_counters _ cfg w w' r Hrun) as [Hp Hr].
      cbn [Cap.pos Cap.video skipn] in Hp, Hr.
      unfold list_sum; cbn [map fold_right List.length Nat.mul]. rewrite !Nat.add_0_r.
      split; [rewrite Hp; lia | rewrite Hr; lia].
Qed.

(** [process_video] on a file that validates, with a non-empty slot list:
    the analysis runs in [pass_start]; its exception passes through, and
    its result is reported after the release of the capture. *)
Lemma process_video_unfold (video_path : string) (cfg : list Slot.t)
    (analysis_type : string) (w : World) :
  validates w video_path -> cfg <> [] ->
  exists file,
    fs w video_path = Some file /\
    VideoProcessor.process_video video_path cfg analysis_type w
    = match selected_pass analysis_type (Cap.mk _ (frames file) 0) cfg
              (pass_start w video_path file) with
      | (Ok results, w3) =>
          (Ok (FinalResults.mk (py_int (prop_frame_count file)) (processed_frames w3)
                 (py_int (prop_fps file))
                 (if (0 <? py_int (prop_fps file))%Z
                  then inject_Z (py_int (prop_frame_count file))
                       / inject_Z (py_int (prop_fps file))
                  else 0)
                 analysis_type
                 (Results.slot_detections results)
                 (Results.vehicle_count results)
                 (Results.occupancy_rate results)
                 (Results.confidence_scores results)),
           traced w3 [EvRelease])
      | (Raise e, w3) => (Raise e, w3)
      end.
Proof.
  intros Hval Hne.
  destruct (validate_video_file_cases video_path w)
    as (valid & t & Hrun & [(Hv & _ & Ht) | (_ & Hnot & _)]); [|contradiction].
  subst valid t. destruct Hval as (file & Hfile & _ & Hopen & _).
  exists file. split; [exact Hfile|].
  unfold VideoProcessor.process_video. rewrite (bind_ok _ _ _ _ _ Hrun).
  cbn [negb]. destruct cfg as [|slot cfg]; [congruence|].
  unfold bind at 1. unfold log at 1. unfold bind at 1. unfold get at 1.
  cbn [fs trace model_loaded rng rng_pos total_frames processed_frames].
  rewrite Hfile, Hopen. cbn [negb]. cbv zeta.
  assert (Hdur : (if (0 <? py_int (prop_fps file))%Z
                  then pydiv (inject_Z (py_int (prop_frame_count file)))
                             (inject_Z (py_int (prop_fps file)))
                  else Ok 0)
                 = Ok (if (0 <? py_int (prop_fps file))%Z
                       then inject_Z (py_int (prop_frame_count file))
                            / inject_Z (py_int (prop_fps file))
                       else 0)).
  { destruct (0 <? py_int (prop_fps file))%Z eqn:Hfps; [|reflexivity].
    apply pydiv_pos. apply Z.ltb_lt in Hfps.
    change 0 with (inject_Z 0). rewrite <- Zlt_Qlt. exact Hfps. }
  rewrite Hdur. unfold lift at 1. unfold bind at 1.
  unfold set_total_frames at 1. unfold bind at 1.
  cbn [fs trace model_loaded rng rng_pos total_frames processed_frames].
  fold (pass_start w video_path file).
  change (if String.eqb analysis_type "occupancy"
          then VideoProcessor._process_occupancy_analysis
                 (Cap.mk _ (frames file) 0) (slot :: cfg)
          else if String.eqb analysis_type "duration"
               then VideoProcessor._process_duration_analysis
                      (Cap.mk _ (frames file) 0) (slot :: cfg)
               else VideoProcessor._process_full_analysis
                      (Cap.mk _ (frames file) 0) (slot :: cfg))
    with (selected_pass analysis_type (Cap.mk _ (frames file) 0) (slot :: cfg)).
  unfold bind at 1.
  destruct (selected_pass analysis_type (Cap.mk _ (frames file) 0) (slot :: cfg)
              (pass_start w video_path file)) as [[results|e] w3]; reflexivity.
Qed.

(** [process_video] returns only on a file that validates, with a
    non-empty slot list. *)
Lemma process_video_ok_inv (video_path : string) (cfg : list Slot.t)
    (analysis_type : string) (w w' : World) (r : FinalResults.t) :
  VideoProcessor.process_video video_path cfg analysis_type w = (Ok r, w') ->
  validates w video_path /\ cfg <> [].
Proof.
  intro Hok.
  destruct (validate_video_file_cases video_path w)
    as (valid & t & Hrun & [(Hv & Hval & _) | (Hv & _ & _)]); subst valid;
    unfold VideoProcessor.process_video in Hok;
    rewrite (bind_ok _ _ _ _ _ Hrun) in Hok; cbn [negb] in Hok.
  - split; [exact Hval|]. intro Hcfg. subst cfg. discriminate.
  - discriminate.
Qed.

End ProcessVideo.

Section ProcessVideoRuns.
Context {E : External}.

(** Full analysis completes when the detector returns on every frame, the
    capture delivers a frame and the slot ids are distinct. *)
Lemma full_analysis_ok (cap : Cap.t) (cfg : list Slot.t) (w : World) :
  model_loaded w = true ->
  (forall f, In f (Cap.video cap) -> yolo f <> None) ->
  skipn (Cap.pos cap) (Cap.video cap) <> [] ->
  cfg <> [] -> NoDup (map Slot.id cfg) ->
  exists r w', VideoProcessor._process_full_analysis cap cfg w = (Ok r, w').
Proof.
  intros Hm Hy Hframes Hne Hnd.
  destruct (occupancy_pass_ok cap cfg w Hm Hy) as (occ & w1 & Hocc & Hm1).
  destruct (log_ok (EvSeek 0) w1) as (w1' & Hlog & Hm1').
  destruct (duration_pass_ok (Cap.mk _ (Cap.video cap) 0) cfg w1')
    as (dur & w2 & Hdur & Hdlen); [congruence | exact Hy | exact Hne |].
  destruct (occupancy_pass_run cap cfg w w1 occ Hocc)
    as (obs & [Hmap _] & Habs & _).
  assert (Hobs : obs <> []).
  { destruct (skipn (Cap.pos cap) (Cap.video cap)) as [|f rest]; [congruence|].
    rewrite sampled_cons in Hmap. cbn in Hmap.
    destruct obs; [discriminate | discriminate]. }
  pose proof (absorb_occupancy_ids cfg obs _ Hnd Hobs Habs) as Hids.
  assert (Holen : List.length (Results.slot_detections occ) = List.length cfg).
  { rewrite <- (length_map SlotDetection.slot_id), Hids, length_map. reflexivity. }
  destruct (merge_slots_total cfg (Results.slot_detections occ)
              (Results.slot_detections dur) 0) as (fd & Hmerge); [cbn; lia | cbn; lia|].
  destruct (occupancy_rate_total (VideoProcessor.count_occupied fd) cfg) as (rate & Hrate).
  unfold VideoProcessor._process_full_analysis.
  rewrite (bind_ok _ _ _ _ _ Hocc), (bind_ok _ _ _ _ _ Hlog).
  cbv zeta. rewrite (bind_ok _ _ _ _ _ Hdur).
  unfold lift, bind, ret. rewrite Hmerge, Hrate.
  eexists. eexists. reflexivity.
Qed.

Lemma selected_pass_ok (analysis_type : string) (cap : Cap.t) (cfg : list Slot.t)
    (w : World) :
  model_loaded w = true ->
  (forall f, In f (Cap.video cap) -> yolo f <> None) ->
  skipn (Cap.pos cap) (Cap.video cap) <> [] ->
  cfg <> [] ->
  (String.eqb analysis_type "occupancy" || String.eqb analysis_type "duration" = true
   \/ NoDup (map Slot.id cfg)) ->
  exists r w', selected_pass analysis_type cap cfg w = (Ok r, w').
Proof.
  intros Hm Hy Hframes Hne Hmode. unfold selected_pass.
  destruct (String.eqb analysis_type "occupancy").
  - destruct (occupancy_pass_ok cap cfg w Hm Hy) as (r & w' & Hrun & _).
    exists r, w'. exact Hrun.
  - destruct (String.eqb analysis_type "duration").
    + destruct (duration_pass_ok cap cfg w Hm Hy Hne) as (r & w' & Hrun & _).
      exists r, w'. exact Hrun.
    + destruct Hmode as [Hmode|Hnd]; [discriminate|].
      apply full_analysis_ok; assumption.
Qed.

End ProcessVideoRuns.

(** X23. When [process_video] returns, the report carries the frame total
    and the rate the container declares (truncated to integers), their
    quotient as duration (0 when the rate is not positive) and the analysis
    type as given; its [processed_frames] is the counter of the processor,
    which is never reset: the value before the call plus the frames sampled
    by the passes of this run.  The run has read one frame for validation
    and then the whole video once per pass, and has opened and released the
    file twice. *)
Theorem process_video_report :
  forall (E : External) (video_path : string) (slot_config : list Slot.t)
         (analysis_type : string) (w w' : World) (r : FinalResults.t),
    VideoProcessor.process_video video_path slot_config analysis_type w = (Ok r, w') ->
    exists file,
      fs w video_path = Some file /\
      FinalResults.total_frames r = py_int (prop_frame_count file) /\
      FinalResults.fps r = py_int (prop_fps file) /\
      FinalResults.duration r
      = (if (0 <? FinalResults.fps r)%Z
         then inject_Z (FinalResults.total_frames r) / inject_Z (FinalResults.fps r)
         else 0) /\
      FinalResults.analysis_type r = analysis_type /\
      FinalResults.processed_frames r
      = (processed_frames w
         + sampled_count (pass_intervals analysis_type) (frames file))%nat /\
      processed_frames w' = FinalResults.processed_frames r /\
      frame_reads (trace w')
      = (frame_reads (trace w) + 1
         + List.length (pass_intervals analysis_type) * S (List.length (frames file)))%nat /\
      handle_events (trace w')
      = handle_events (trace w)
        ++ [EvOpen video_path; EvRelease; EvOpen video_path; EvRelease].
Proof.
  intros E video_path cfg analysis_type w w' r Hok.
  destruct (process_video_ok_inv _ _ _ _ _ _ Hok) as [Hval Hne].
  destruct (process_video_unfold video_path cfg analysis_type w Hval Hne)
    as (file & Hfile & Hrun).
  rewrite Hrun in Hok. clear Hrun.
  pose proof (keeps_handles_selected_pass analysis_type (Cap.mk _ (frames file) 0) cfg
                (pass_start w video_path file)) as Hkeep.
  destruct (selected_pass analysis_type (Cap.mk _ (frames file) 0) cfg
              (pass_start w video_path file)) as [[results|e] w3] eqn:Hpass;
    [|discriminate].
  destruct (selected_pass_counters _ _ _ _ _ _ Hpass) as [Hp Hr].
  inversion Hok; subst r w'. clear Hok.
  exists file. cbn [FinalResults.total_frames FinalResults.fps FinalResults.duration
                    FinalResults.analysis_type FinalResults.processed_frames
                    traced trace processed_frames].
  cbn [pass_start processed_frames trace] in Hp, Hr.
  cbn [snd pass_start trace] in Hkeep.
  split; [exact Hfile|]. split; [reflexivity|]. split; [reflexivity|].
  split; [reflexivity|]. split; [reflexivity|]. split; [exact Hp|].
  split; [reflexivity|]. split.
  - rewrite frame_reads_app, Hr, !frame_reads_app. cbn. lia.
  - rewrite handle_events_app, Hkeep, !handle_events_app, <- !app_assoc. reflexivity.
Qed.

Lemma process_video_report_witness :
  exists r w',
    @VideoProcessor.process_video sample_external "lot.mp4" [sample_slot] "full"
      sample_disk = (Ok r, w') /\
    FinalResults.processed_frames r = 2%nat /\
    @frame_reads sample_external (trace w') = 9%nat.
Proof.
  eexists. eexists. split; [vm_compute; reflexivity|].
  lazymatch goal with
  | |- FinalResults.processed_frames ?r = _ /\ _ (trace ?w') = _ =>
      destruct (process_video_report sample_external "lot.mp4" [sample_slot] "full"
                  sample_disk w' r)
        as (file & Hfile & _ & _ & _ & _ & Hp & _ & Hr & _);
      [vm_compute; reflexivity|];
      vm_compute in Hfile; inversion Hfile; subst file;
      split; [exact Hp | exact Hr]
  end.
Defined.

(** X24. When the analysis raises inside [process_video] (after the file
    validated and the slot list was found non-empty), the exception leaves
    [process_video] with the capture of the run still open: the file has
    been opened twice and released once. *)
Theorem process_video_error_leaves_capture_open :
  forall (E : External) (video_path : string) (slot_config : list Slot.t)
         (analysis_type : string) (w w' : World) (e : exn),
    validates w video_path -> slot_config <> [] ->
    VideoProcessor.process_video video_path slot_config analysis_type w = (Raise e, w') ->
    handle_events (trace w')
    = handle_events (trace w) ++ [EvOpen video_path; EvRelease; EvOpen video_path].
Proof.
  intros E video_path cfg analysis_type w w' e Hval Hne Hraise.
  destruct (process_video_unfold video_path cfg analysis_type w Hval Hne)
    as (file & Hfile & Hrun).
  rewrite Hrun in Hraise. clear Hrun.
  pose proof (keeps_handles_selected_pass analysis_type (Cap.mk _ (frames file) 0) cfg
                (pass_start w video_path file)) as Hkeep.
  destruct (selected_pass analysis_type (Cap.mk _ (frames file) 0) cfg
              (pass_start w video_path file)) as [[results|e'] w3];
    [discriminate|].
  inversion Hraise; subst e' w3. cbn [snd pass_start trace] in Hkeep.
  rewrite Hkeep, !handle_events_app, <- !app_assoc. reflexivity.
Qed.

Lemma process_video_error_leaves_capture_open_witness :
  exists w',
    @VideoProcessor.process_video sample_external "lot.mp4"
      [sample_slot; sample_slot] "full" sample_disk = (Raise IndexError, w') /\
    @handle_events sample_external (trace w')
    = [EvOpen "lot.mp4"; EvRelease; EvOpen "lot.mp4"]%string.
Proof.
  eexists. split; [vm_compute; reflexivity|].
  eapply (process_video_error_leaves_capture_open sample_external "lot.mp4"
            [sample_slot; sample_slot] "full" sample_disk _ IndexError).
  - exists sample_file. split; [reflexivity|]. split; [|split; [reflexivity|discriminate]].
    vm_compute. tauto.
  - discriminate.
  - vm_compute. reflexivity.
Defined.

(** X25. [process_video] returns a report whenever the file validates,
    the slot list is not empty, the model is loaded, inference succeeds on
    every frame of the file and, for full analysis, the slot ids are
    distinct. *)
Theorem process_video_returns :
  forall (E : External) (video_path : string) (slot_config : list Slot.t)
         (analysis_type : string) (w : World),
    validates w video_path -> slot_config <> [] ->
    model_loaded w = true ->
    (forall file f, fs w video_path = Some file -> In f (frames file) -> yolo f <> None) ->
    (String.eqb analysis_type "occupancy" || String.eqb analysis_type "duration" = true
     \/ NoDup (map Slot.id slot_config)) ->
    exists r w',
      VideoProcessor.process_video video_path slot_config analysis_type w = (Ok r, w').
Proof.
  intros E video_path cfg analysis_type w Hval Hne Hm Hy Hmode.
  destruct (process_video_unfold video_path cfg analysis_type w Hval Hne)
    as (file & Hfile & Hrun).
  destruct Hval as (file' & Hfile' & _ & _ & Hframes).
  assert (file' = file) by congruence. subst file'.
  destruct (selected_pass_ok analysis_type (Cap.mk _ (frames file) 0) cfg
              (pass_start w video_path file))
    as (results & w3 & Hpass);
    [exact Hm | intros f Hf; exact (Hy file f Hfile Hf) | exact Hframes
     | exact Hne | exact Hmode |].
  rewrite Hpass in Hrun. eexists. eexists. exact Hrun.
Qed.

Lemma process_video_returns_witness :
  exists r w',
    @VideoProcessor.process_video sample_external "lot.mp4" [sample_slot] "full"
      sample_disk = (Ok r, w').
Proof.
  apply (process_video_returns sample_external "lot.mp4" [sample_slot] "full"
           sample_disk).
  - exists sample_file. split; [reflexivity|]. split; [|split; [reflexivity|discriminate]].
    vm_compute. tauto.
  - discriminate.
  - reflexivity.
  - intros file f _ _. discriminate.
  - right. repeat constructor. intros [].
Defined.

(** ** Sampling: what the passes hand to the detector and the classifier *)

Section Sampling.
Context {E : External}.

(** One sampled frame of the duration pass appends, to the timeline of
    every slot id, the classifier's verdicts for the slots of that id. *)
Lemma duration_slots_records (frame : Image) (c : nat) (dets : list Detection.t)
    (slots : list Slot.t) :
  forall tl tl',
    VideoProcessor.duration_slots frame c dets slots tl = Ok tl' ->
    forall k t,
      VideoProcessor.timeline_get k tl = Ok t ->
      exists es,
        VideoProcessor.timeline_get k tl' = Ok (t ++ es) /\
        Forall2 (fun slot e => entry_for slot (c, frame, dets) e)
                (filter (fun slot => (Slot.id slot =? k)%Z) slots) es.
Proof.
  induction slots as [|slot rest IH]; intros tl tl' Hrun k t Hk.
  - cbn in Hrun. inversion Hrun; subst tl'. exists []. rewrite app_nil_r.
    split; [exact Hk | constructor].
  - cbn [VideoProcessor.duration_slots] in Hrun.
    destruct (VideoProcessor._analyze_slot_occupancy frame slot dets) as [v|e] eqn:Hv;
      cbn [rbind] in Hrun; [|discriminate].
    destruct (VideoProcessor.timeline_get (Slot.id slot) tl) as [t0|e] eqn:Ht0;
      cbn [rbind] in Hrun; [|discriminate].
    cbn [filter]. destruct (Slot.id slot =? k)%Z eqn:Eid.
    + apply Z.eqb_eq in Eid. rewrite Eid in Ht0, Hrun.
      assert (t0 = t) by congruence. subst t0.
      destruct (IH _ _ Hrun k _ (has_timeline_set_same k _ tl)) as (es & Hget & Hes).
      eexists (_ :: es). split.
      * rewrite Hget, <- app_assoc. reflexivity.
      * constructor; [|exact Hes]. exists v. split; [exact Hv | reflexivity].
    + apply Z.eqb_neq in Eid.
      assert (Hk1 : VideoProcessor.timeline_get k
                      (VideoProcessor.timeline_set (Slot.id slot)
                         (t0 ++ [TimelineEntry.mk c (SlotDetection.is_occupied v)
                                                  (SlotDetection.confidence v)]) tl)
                    = Ok t).
      { rewrite timeline_get_set_other; [exact Hk | congruence]. }
      exact (IH _ _ Hrun k t Hk1).
Qed.

(** The sampled frames append their verdicts in the order of the loops. *)
Lemma absorb_duration_records (cfg : list Slot.t) (obs : list Observation) :
  forall tl tl',
    absorb_duration cfg obs tl = Ok tl' ->
    forall k t,
      VideoProcessor.timeline_get k tl = Ok t ->
      exists es,
        VideoProcessor.timeline_get k tl' = Ok (t ++ es) /\
        records_visits (slot_visits cfg obs k) es.
Proof.
  induction obs as [|[[i frame] dets] obs IH]; intros tl tl' Hrun k t Hk.
  - cbn in Hrun. inversion Hrun; subst tl'. exists []. rewrite app_nil_r.
    split; [exact Hk | constructor].
  - cbn [absorb_duration] in Hrun.
    destruct (VideoProcessor.duration_slots frame i dets cfg tl) as [tl1|e] eqn:Hstep;
      cbn [rbind] in Hrun; [|discriminate].
    destruct (duration_slots_records frame i dets cfg tl tl1 Hstep k t Hk)
      as (es1 & Hget1 & Hes1).
    destruct (IH tl1 tl' Hrun k _ Hget1) as (es2 & Hget2 & Hes2).
    exists (es1 ++ es2). split; [rewrite Hget2, <- app_assoc; reflexivity|].
    unfold records_visits, slot_visits in *. cbn [flat_map].
    apply Forall2_app; [|exact Hes2].
    clear - Hes1. induction Hes1 as [|slot e slots es Hse _ IHes]; cbn [map];
      constructor; [exact Hse | exact IHes].
Qed.

(** What the occupancy pass retains comes from the classifier on the
    sampled frames, and accounts for each of its verdicts there. *)
Lemma occupancy_pass_classifies (cfg : list Slot.t) (obs : list Observation)
    (acc : list SlotDetection.t) :
  absorb_occupancy cfg obs [] = Ok acc ->
  (forall v, In v acc -> observed cfg obs (SlotDetection.slot_id v) v) /\
  (forall o slot, In o obs -> In slot cfg ->
     exists v kept,
       VideoProcessor._analyze_slot_occupancy (snd (fst o)) slot (snd o) = Ok v /\
       In kept acc /\ SlotDetection.slot_id kept = Slot.id slot /\
       SlotDetection.confidence v <= SlotDetection.confidence kept).
Proof.
  intro Habs.
  destruct (absorb_occupancy_summarises cfg obs [] [] summarises_nil)
    as (acc' & Habs' & Hsum).
  rewrite Habs in Habs'. inversion Habs'; subst acc'. clear Habs'.
  cbn [app] in Hsum. destruct Hsum as (_ & Hseen & Hmax). split.
  - intros v Hv. apply seen_visits, Hseen, Hv.
  - intros [[i frame] dets] slot Ho Hslot. cbn [fst snd].
    destruct (analyze_slot_occupancy_total frame slot dets) as (v & Hv).
    destruct (Hmax (Slot.id slot) v) as (kept & Hkept & Hid & Hconf).
    { apply seen_visits. exists i, frame, dets, slot. repeat split; assumption. }
    exists v, kept. repeat split; assumption.
Qed.

(** The reports of the duration pass rest on timelines that record the
    visits of the sampled frames. *)
Lemma duration_pass_classifies (cfg : list Slot.t) (obs : list Observation)
    (tl : VideoProcessor.Timelines) (l : list SlotDetection.t) :
  absorb_duration cfg obs (VideoProcessor.empty_timelines cfg) = Ok tl ->
  VideoProcessor.duration_reports cfg tl = Ok l ->
  Forall2 (fun slot d =>
             exists timeline a,
               records_visits (slot_visits cfg obs (Slot.id slot)) timeline /\
               VideoProcessor._analyze_slot_duration timeline = Ok a /\
               d = SlotDetection.mk (Slot.id slot) (Slot.slot_number slot)
                     (DurationAnalysis.final_status a)
                     (DurationAnalysis.confidence a) None None
                     (Some (DurationAnalysis.predicted_duration a))
                     (Some (DurationAnalysis.changes a))
                     (Some (DurationAnalysis.stability a)))
          cfg l.
Proof.
  intros Habs Hrep.
  pose proof (duration_reports_fields cfg tl l Hrep) as Hfields.
  assert (Hstrong : forall slots l0,
             incl slots cfg ->
             Forall2 (fun slot d =>
                        exists timeline a,
                          VideoProcessor.timeline_get (Slot.id slot) tl = Ok timeline /\
                          VideoProcessor._analyze_slot_duration timeline = Ok a /\
                          d = SlotDetection.mk (Slot.id slot) (Slot.slot_number slot)
                                (DurationAnalysis.final_status a)
                                (DurationAnalysis.confidence a) None None
                                (Some (DurationAnalysis.predicted_duration a))
                                (Some (DurationAnalysis.changes a))
                                (Some (DurationAnalysis.stability a)))
                     slots l0 ->
             Forall2 (fun slot d =>
                        exists timeline a,
                          records_visits (slot_visits cfg obs (Slot.id slot)) timeline /\
                          VideoProcessor._analyze_slot_duration timeline = Ok a /\
                          d = SlotDetection.mk (Slot.id slot) (Slot.slot_number slot)
                                (DurationAnalysis.final_status a)
                                (DurationAnalysis.confidence a) None None
                                (Some (DurationAnalysis.predicted_duration a))
                                (Some (DurationAnalysis.changes a))
                                (Some (DurationAnalysis.stability a)))
                     slots l0).
  { intros slots l0 Hincl Hall.
    induction Hall as [|slot d slots l0 Hd _ IH]; constructor.
    - destruct Hd as (timeline & a & Hget & Ha & Hdeq).
      destruct (empty_timelines_keys cfg slot (Hincl slot (or_introl eq_refl)))
        as (t & Ht).
      destruct (absorb_duration_records cfg obs _ tl Habs (Slot.id slot) t Ht)
        as (es & Hget' & Hes).
      apply empty_timelines_empty in Ht. subst t. cbn [app] in Hget'.
      rewrite Hget in Hget'. inversion Hget'; subst es.
      exists timeline, a. split; [exact Hes|]. split; [exact Ha | exact Hdeq].
    - apply IH. intros s Hs. apply Hincl. right. exact Hs. }
  apply Hstrong; [apply incl_refl | exact Hfields].
Qed.

End Sampling.

(** C6. A completed occupancy pass has handed to the detector exactly the
    frames whose index is a multiple of 30, in order, and has counted one
    processed frame for each; the classifier has been applied to these
    frames with the detections found on them: every retained entry is the
    classifier's verdict for a slot on such a frame, and the classifier's
    verdict on every such frame for every slot is accounted for by a
    retained entry of that slot's id with at least its confidence.  The
    duration pass does the same with multiples of 15: the timeline behind
    every report holds, visit by visit, the classifier's verdict on a
    sampled frame with that frame's index.  On a video of 300 frames the
    occupancy pass therefore processes exactly 10 frames, those of index
    0, 30, ..., 270.  The occupancy pass completes whenever the detector
    returns on every frame. *)
Theorem passes_sample_every_nth_frame :
  (forall (E : External) (cap : Cap.t) (slot_config : list Slot.t)
          (w w' : World) (r : Results.t),
      VideoProcessor._process_occupancy_analysis cap slot_config w = (Ok r, w') ->
      let remaining := skipn (Cap.pos cap) (Cap.video cap) in
      exists obs : list Observation,
        observes 30 remaining obs /\
        absorb_occupancy slot_config obs [] = Ok (Results.slot_detections r) /\
        detected (trace w') = detected (trace w) ++ map snd (sampled 30 0 remaining) /\
        processed_frames w'
        = (processed_frames w + List.length (sampled 30 0 remaining))%nat /\
        (forall v, In v (Results.slot_detections r) ->
                   observed slot_config obs (SlotDetection.slot_id v) v) /\
        (forall o slot, In o obs -> In slot slot_config ->
           exists v kept,
             VideoProcessor._analyze_slot_occupancy (snd (fst o)) slot (snd o) = Ok v /\
             In kept (Results.slot_detections r) /\
             SlotDetection.slot_id kept = Slot.id slot /\
             SlotDetection.confidence v <= SlotDetection.confidence kept))
  /\
  (forall (E : External) (cap : Cap.t) (slot_config : list Slot.t)
          (w w' : World) (r : Results.t),
      VideoProcessor._process_duration_analysis cap slot_config w = (Ok r, w') ->
      let remaining := skipn (Cap.pos cap) (Cap.video cap) in
      exists obs : list Observation,
        observes 15 remaining obs /\
        detected (trace w') = detected (trace w) ++ map snd (sampled 15 0 remaining) /\
        processed_frames w'
        = (processed_frames w + List.length (sampled 15 0 remaining))%nat /\
        Forall2 (fun slot d =>
                   exists timeline a,
                     records_visits (slot_visits slot_config obs (Slot.id slot))
                                    timeline /\
                     VideoProcessor._analyze_slot_duration timeline = Ok a /\
                     d = SlotDetection.mk (Slot.id slot) (Slot.slot_number slot)
                           (DurationAnalysis.final_status a)
                           (DurationAnalysis.confidence a) None None
                           (Some (DurationAnalysis.predicted_duration a))
                           (Some (DurationAnalysis.changes a))
                           (Some (DurationAnalysis.stability a)))
                slot_config (Results.slot_detections r))
  /\
  (forall (E : External) (video : list Image) (slot_config : list Slot.t)
          (w w' : World) (r : Results.t),
      List.length video = 300%nat ->
      VideoProcessor._process_occupancy_analysis (Cap.mk _ video 0) slot_config w
      = (Ok r, w') ->
      map fst (sampled 30 0 video) = [0; 30; 60; 90; 120; 150; 180; 210; 240; 270]%nat /\
      detected (trace w') = detected (trace w) ++ map snd (sampled 30 0 video) /\
      processed_frames w' = (processed_frames w + 10)%nat)
  /\
  (forall (E : External) (cap : Cap.t) (slot_config : list Slot.t) (w : World),
      model_loaded w = true ->
      (forall f, In f (Cap.video cap) -> yolo f <> None) ->
      exists r w',
        VideoProcessor._process_occupancy_analysis cap slot_config w = (Ok r, w')).
Proof.
  assert (Hocc : forall (E : External) (cap : Cap.t) (slot_config : list Slot.t)
                        (w w' : World) (r : Results.t),
             VideoProcessor._process_occupancy_analysis cap slot_config w = (Ok r, w') ->
             let remaining := skipn (Cap.pos cap) (Cap.video cap) in
             exists obs : list Observation,
               observes 30 remaining obs /\
               absorb_occupancy slot_config obs [] = Ok (Results.slot_detections r) /\
               detected (trace w') = detected (trace w) ++ map snd (sampled 30 0 remaining) /\
               processed_frames w'
               = (processed_frames w + List.length (sampled 30 0 remaining))%nat /\
               (forall v, In v (Results.slot_detections r) ->
                          observed slot_config obs (SlotDetection.slot_id v) v) /\
               (forall o slot, In o obs -> In slot slot_config ->
                  exists v kept,
                    VideoProcessor._analyze_slot_occupancy (snd (fst o)) slot (snd o)
                    = Ok v /\
                    In kept (Results.slot_detections r) /\
                    SlotDetection.slot_id kept = Slot.id slot /\
                    SlotDetection.confidence v <= SlotDetection.confidence kept)).
  { intros E cap cfg w w' r Hrun remaining.
    destruct (occupancy_pass_run cap cfg w w' r Hrun)
      as (obs & Hobs & Habs & (Hdet & _ & Hproc & _) & _).
    fold remaining in Hobs. pose proof Hobs as [Hmap _].
    exists obs. split; [exact Hobs|]. split; [exact Habs|].
    rewrite <- Hmap, map_map, length_map. split; [exact Hdet|]. split; [exact Hproc|].
    exact (occupancy_pass_classifies cfg obs _ Habs). }
  split; [exact Hocc|]. split; [|split].
  - intros E cap cfg w w' r Hrun remaining.
    destruct (duration_pass_statistics_run cap cfg w w' r Hrun)
      as (obs & tl & Hobs & Habs & Hrep & (Hdet & _ & Hproc & _) & _).
    fold remaining in Hobs. pose proof Hobs as [Hmap _].
    exists obs. split; [exact Hobs|].
    rewrite <- Hmap, map_map, length_map. split; [exact Hdet|]. split; [exact Hproc|].
    exact (duration_pass_classifies cfg obs tl _ Habs Hrep).
  - intros E video cfg w w' r Hlen Hrun.
    destruct (Hocc E _ cfg w w' r Hrun) as (obs & _ & _ & Hdet & Hproc & _).
    cbn [Cap.pos Cap.video skipn] in Hdet, Hproc.
    assert (Hidx : map fst (sampled 30 0 video)
                   = [0; 30; 60; 90; 120; 150; 180; 210; 240; 270]%nat).
    { rewrite sampled_indices, Hlen. vm_compute. reflexivity. }
    split; [exact Hidx|]. split; [exact Hdet|].
    rewrite Hproc. f_equal.
    rewrite <- (length_map fst), Hidx. reflexivity.
  - intros E cap cfg w Hm Hy.
    destruct (occupancy_pass_ok cap cfg w Hm Hy) as (r & w' & Hrun & _).
    exists r, w'. exact Hrun.
Qed.

Lemma passes_sample_every_nth_frame_witness :
  (exists r w',
      @VideoProcessor._process_occupancy_analysis busy_external
        (busy_cap 300) [sample_slot; half_slot] busy_world = (Ok r, w') /\
      map fst (sampled 30 0 (seq 0 300))
      = [0; 30; 60; 90; 120; 150; 180; 210; 240; 270]%nat /\
      @detected busy_external (trace w')
      = @detected busy_external (trace busy_world)
        ++ map snd (sampled 30 0 (seq 0 300)) /\
      processed_frames w' = (processed_frames busy_world + 10)%nat)
  /\
  (exists r w',
      @VideoProcessor._process_duration_analysis busy_external
        (busy_cap 31) [sample_slot; half_slot] busy_world = (Ok r, w') /\
      exists obs : list (@Observation busy_external),
        @observes busy_external 15 (skipn 0 (seq 0 31)) obs /\
        @detected busy_external (trace w')
        = @detected busy_external (trace busy_world)
          ++ map snd (sampled 15 0 (skipn 0 (seq 0 31))) /\
        processed_frames w'
        = (processed_frames busy_world
           + List.length (sampled 15 0 (skipn 0 (seq 0 31))))%nat /\
        Forall2 (fun slot d =>
                   exists timeline a,
                     @records_visits busy_external
                       (@slot_visits busy_external [sample_slot; half_slot] obs
                                     (Slot.id slot))
                       timeline /\
                     VideoProcessor._analyze_slot_duration timeline = Ok a /\
                     d = SlotDetection.mk (Slot.id slot) (Slot.slot_number slot)
                           (DurationAnalysis.final_status a)
                           (DurationAnalysis.confidence a) None None
                           (Some (DurationAnalysis.predicted_duration a))
                           (Some (DurationAnalysis.changes a))
                           (Some (DurationAnalysis.stability a)))
                [sample_slot; half_slot] (Results.slot_detections r)).
Proof.
  split.
  - eexists. eexists. split; [vm_compute; reflexivity|].
    eapply (proj1 (proj2 (proj2 passes_sample_every_nth_frame)) busy_external
                  (seq 0 300) [sample_slot; half_slot] busy_world).
    + reflexivity.
    + vm_compute. reflexivity.
  - eexists. eexists. split; [vm_compute; reflexivity|].
    eapply (proj1 (proj2 passes_sample_every_nth_frame) busy_external
                  (busy_cap 31) [sample_slot; half_slot] busy_world).
    vm_compute. reflexivity.
Defined.
